(** * claude-code-zellij: the cli.js patch engine, the commands and the
      pane serialization lock.

    A shallow embedding of [patchCli.ts] (both revisions found in the
    repository, with the search for cli.js and the restore), of the
    commands of [index.ts] and of the promise lock of [ZellijBackend.ts],
    with the properties of the design document stated and settled
    against them, and further properties read off the code. *)

From Stdlib Require Import List NArith ZArith Lia Bool String Ascii.
From Stdlib Require Import Sorted Permutation.
From stdpp Require Import gmap.
Import ListNotations.

Local Open Scope list_scope.
Local Open Scope bool_scope.

(** ** JavaScript strings

    A JavaScript string is a finite sequence of UTF-16 code units.  All
    the string primitives used by the patcher ([includes], [indexOf],
    [lastIndexOf], [slice], [replace] and non-unicode regular
    expressions) work on code units, so a string is a list of numbers. *)

Definition code_unit := N.
Definition jsstring := list N.

(** An ASCII literal of the source text. *)
Definition js (s : string) : jsstring :=
  List.map N_of_ascii (list_ascii_of_string s).

(** The double quote, U+0022. *)
Definition dq : jsstring := [34%N].
(** A double-quoted literal as it stands inside the program text. *)
Definition quoted (s : string) : jsstring := dq ++ js s ++ dq.
(** Line feed, U+000A. *)
Definition nl : jsstring := [10%N].

Definition dollar : N := 36%N.

Fixpoint jseqb (a b : jsstring) : bool :=
  match a, b with
  | [], [] => true
  | x :: a', y :: b' => N.eqb x y && jseqb a' b'
  | _, _ => false
  end.

(** [s.startsWith(p)], also the test "p occurs in s at offset 0". *)
Fixpoint startsWith (p s : jsstring) : bool :=
  match p with
  | [] => true
  | x :: p' =>
      match s with
      | [] => false
      | y :: s' => N.eqb x y && startsWith p' s'
      end
  end.

(** Offset of the first occurrence of [p] in [s]. *)
Fixpoint find_first (p s : jsstring) : option nat :=
  if startsWith p s then Some 0
  else match s with
       | [] => None
       | _ :: s' => option_map S (find_first p s')
       end.

(** Offset of the last occurrence of [p] in [s]. *)
Fixpoint find_last (p s : jsstring) : option nat :=
  match s with
  | [] => if startsWith p [] then Some 0 else None
  | _ :: s' =>
      match find_last p s' with
      | Some i => Some (S i)
      | None => if startsWith p s then Some 0 else None
      end
  end.

(** [s.includes(p)] *)
Definition includes (p s : jsstring) : bool :=
  match find_first p s with Some _ => true | None => false end.

(** [s.indexOf(p)]: -1 when absent. *)
Definition indexOf (p s : jsstring) : Z :=
  match find_first p s with Some i => Z.of_nat i | None => (-1)%Z end.

(** [s.lastIndexOf(p)]: -1 when absent. *)
Definition lastIndexOf (p s : jsstring) : Z :=
  match find_last p s with Some i => Z.of_nat i | None => (-1)%Z end.

(** Relative index of [slice]: negative counts from the end, all clamped. *)
Definition rel_index (len k : Z) : Z :=
  if (k <? 0)%Z then Z.max (len + k) 0 else Z.min k len.

(** [s.slice(from, to)] *)
Definition slice (s : jsstring) (from to : Z) : jsstring :=
  let len := Z.of_nat (List.length s) in
  let a := rel_index len from in
  let b := rel_index len to in
  firstn (Z.to_nat (b - a)) (skipn (Z.to_nat a) s).

(** [s.slice(from)] *)
Definition slice_from (s : jsstring) (from : Z) : jsstring :=
  slice s from (Z.of_nat (List.length s)).

(** The replacement text of [String.prototype.replace] with a string
    pattern (GetSubstitution with no captures): [$$] is a dollar, [$&]
    the matched text, [$`] the text before the match, [$'] the text
    after it; every other character, a dollar before a digit or before
    [<] included, stands for itself. *)
Fixpoint getSubstitution (matched before after repl : jsstring) : jsstring :=
  match repl with
  | [] => []
  | c :: r =>
      if N.eqb c dollar then
        match r with
        | [] => [c]
        | d :: r' =>
            if N.eqb d dollar then dollar :: getSubstitution matched before after r'
            else if N.eqb d 38 then matched ++ getSubstitution matched before after r'
            else if N.eqb d 96 then before ++ getSubstitution matched before after r'
            else if N.eqb d 39 then after ++ getSubstitution matched before after r'
            else c :: getSubstitution matched before after r
        end
      else c :: getSubstitution matched before after r
  end.

(** [s.replace(p, repl)] for a string pattern [p]: the first occurrence
    only. *)
Definition replace (p repl s : jsstring) : jsstring :=
  match find_first p s with
  | None => s
  | Some i =>
      let before := firstn i s in
      let after := skipn (i + List.length p) s in
      before ++ getSubstitution p before after repl ++ after
  end.

(** [parts.join(sep)] *)
Fixpoint join (sep : jsstring) (parts : list jsstring) : jsstring :=
  match parts with
  | [] => []
  | [x] => x
  | x :: rest => x ++ sep ++ join sep rest
  end.

(** ** Regular expressions

    The patterns of the patcher use literal characters, one greedy
    repetition [+] of a character class (captured or not), back
    references and the end anchor.  The matcher below is the
    backtracking matcher of the language for this fragment: a pattern is
    tried at every offset from the left, [+] takes the longest run first
    and gives characters back one at a time when the rest of the pattern
    fails. *)

Inductive atom :=
| Lit (s : jsstring)          (* literal characters *)
| Many1 (cls : N -> bool)     (* cls+ *)
| Capture1 (cls : N -> bool)  (* (cls+), the next capture group *)
| Backref (n : nat)           (* \n, groups counted from 1 *)
| EndOfInput.                 (* $ *)

Definition regex := list atom.

Definition between (lo hi c : N) : bool := N.leb lo c && N.leb c hi.

(** [\w] is [A-Za-z0-9_]. *)
Definition is_word (c : N) : bool :=
  between 65 90 c || between 97 122 c || between 48 57 c || N.eqb c 95.

(** [[A-Za-z0-9_$]] *)
Definition is_ident (c : N) : bool := is_word c || N.eqb c dollar.

(** [\s]: the white space and line terminator code units. *)
Definition is_space (c : N) : bool :=
  between 9 13 c || N.eqb c 32 || N.eqb c 160 || N.eqb c 5760
  || between 8192 8202 c || N.eqb c 8232 || N.eqb c 8233 || N.eqb c 8239
  || N.eqb c 8287 || N.eqb c 12288 || N.eqb c 65279.

Section Greedy.
  Context {R : Type} (cls : N -> bool) (k : jsstring -> jsstring -> option R).

  (** [greedy1 taken s]: [taken] has been consumed by [cls+] so far; try
      to take one more character, and fall back on the continuation [k]
      with what was taken, which must not be empty. *)
Fixpoint greedy1 (taken s : jsstring) : option R :=
    let stop :=
      match taken with
      | [] => None
      | _ :: _ => k taken s
      end in
    match s with
    | [] => stop
    | c :: s' =>
        if cls c then
          match greedy1 (taken ++ [c]) s' with
          | Some r => Some r
          | None => stop
          end
        else stop
    end.
End Greedy.

(** Match [r] at the start of [s]; the captures so far are [caps]. *)
Fixpoint match_here (r : regex) (caps : list jsstring) (s : jsstring)
  : option (list jsstring * jsstring) :=
  match r with
  | [] => Some (caps, s)
  | Lit l :: r' =>
      if startsWith l s then match_here r' caps (skipn (List.length l) s)
      else None
  | Many1 cls :: r' =>
      greedy1 cls (fun _ rest => match_here r' caps rest) [] s
  | Capture1 cls :: r' =>
      greedy1 cls (fun taken rest => match_here r' (caps ++ [taken]) rest) [] s
  | Backref n :: r' =>
      let c := nth (n - 1) caps [] in
      if startsWith c s then match_here r' caps (skipn (List.length c) s)
      else None
  | EndOfInput :: r' =>
      match s with
      | [] => match_here r' caps []
      | _ :: _ => None
      end
  end.

(** The result of [s.match(r)]: offset, matched text, captures. *)
Record rmatch := {
  m_index : nat;
  m_text : jsstring;
  m_groups : list jsstring
}.

Fixpoint search_from (r : regex) (i : nat) (s : jsstring) : option rmatch :=
  match match_here r [] s with
  | Some (caps, rest) =>
      Some {| m_index := i;
              m_text := firstn (List.length s - List.length rest) s;
              m_groups := caps |}
  | None =>
      match s with
      | [] => None
      | _ :: s' => search_from r (S i) s'
      end
  end.

(** [s.match(r)] for a pattern without the global flag. *)
Definition regex_match (r : regex) (s : jsstring) : option rmatch :=
  search_from r 0 s.

(** [m[n]] for [n >= 1]. *)
Definition group (m : rmatch) (n : nat) : jsstring := nth (n - 1) (m_groups m) [].

(** ** patchCli.ts: the report and the identifier bundle

    In the comments that quote a pattern of the source, [\x22] stands for
    the double quote character. *)

Record PatchResult := {
  success : bool;
  patchedSource : option jsstring;
  appliedPatches : list jsstring;
  failedPatches : list jsstring;
  warnings : list jsstring
}.

(** The object returned by [extractMinifiedNames]. *)
Record MinifiedNames := {
  tmuxBackendClass : jsstring;
  tmuxFactory : jsstring;
  iterm2Factory : jsstring;
  cachedBackendRef : jsstring;
  cachedResultVar : jsstring;
  execFn : jsstring;
  logFn : jsstring;
  isInsideTmuxSyncFn : jsstring
}.

(** [/class\s+([A-Za-z0-9_$]+)\{type=\x22tmux\x22/] *)
Definition tmuxClassRe : regex :=
  [Lit (js "class"); Many1 is_space; Capture1 is_ident;
   Lit (js "{type=" ++ quoted "tmux")].

(** [/\[BackendRegistry\] Selected: tmux \(running inside tmux session\)\x22\);let (\w+)=(\w+)\(\);return (\w+)=\1,(\w+)=\{backend:\1,isNative:!0,needsIt2Setup:!1\},\4/] *)
Definition cascadeRe : regex :=
  [Lit (js "[BackendRegistry] Selected: tmux (running inside tmux session)"
        ++ dq ++ js ");let ");
   Capture1 is_word; Lit (js "="); Capture1 is_word; Lit (js "();return ");
   Capture1 is_word; Lit (js "="); Backref 1; Lit (js ",");
   Capture1 is_word; Lit (js "={backend:"); Backref 1;
   Lit (js ",isNative:!0,needsIt2Setup:!1},"); Backref 4].

(** [/\(await\s+(\w+)\(\w+,\[\x22-V\x22\]\)\)\.code===0/] *)
Definition execRe : regex :=
  [Lit (js "(await"); Many1 is_space; Capture1 is_word; Lit (js "(");
   Many1 is_word; Lit (js ",[" ++ quoted "-V" ++ js "])).code===0")].

(** [/case\x22iterm2\x22:return\s+(\w+)\(\)/] *)
Definition iterm2Re : regex :=
  [Lit (js "case" ++ quoted "iterm2" ++ js ":return"); Many1 is_space;
   Capture1 is_word; Lit (js "()")].

(** [/(\w+)\(\x22\[BackendRegistry\] Starting backend detection\.\.\.\x22\)/] *)
Definition logRe : regex :=
  [Capture1 is_word;
   Lit (js "(" ++ quoted "[BackendRegistry] Starting backend detection..."
        ++ js ")")].

(** [/insideTmux=\$\{(\w+)\(\)\}/] *)
Definition tmuxSyncRe : regex :=
  [Lit (js "insideTmux=${"); Capture1 is_word; Lit (js "()}")].

(** [/let K=await\s+\w+\(\);if\(\w+\(`$/] *)
Definition letKRe : regex :=
  [Lit (js "let K=await"); Many1 is_space; Many1 is_word; Lit (js "();if(");
   Many1 is_word; Lit (js "(`"); EndOfInput].

(** [extractMinifiedNames]: six searches, each returning [null] for the
    whole bundle when it finds nothing. *)
Definition extractMinifiedNames (code : jsstring) : option MinifiedNames :=
  match regex_match tmuxClassRe code with
  | None => None
  | Some tmuxClassMatch =>
  match regex_match cascadeRe code with
  | None => None
  | Some cascadeMatch =>
  let tmuxFactory := group cascadeMatch 2 in
  let cachedBackendRef := group cascadeMatch 3 in
  let cachedResultVar := group cascadeMatch 4 in
  match regex_match execRe code with
  | None => None
  | Some execMatch =>
  let execFn := group execMatch 1 in
  match regex_match iterm2Re code with
  | None => None
  | Some iterm2Match =>
  match regex_match logRe code with
  | None => None
  | Some logMatch =>
  match regex_match tmuxSyncRe code with
  | None => None
  | Some tmuxSyncMatch =>
      Some {| tmuxBackendClass := group tmuxClassMatch 1;
              tmuxFactory := tmuxFactory;
              iterm2Factory := group iterm2Match 1;
              cachedBackendRef := cachedBackendRef;
              cachedResultVar := cachedResultVar;
              execFn := execFn;
              logFn := group logMatch 1;
              isInsideTmuxSyncFn := group tmuxSyncMatch 1 |}
  end end end end end end.

(** ** The generated code *)

Definition ZELLIJ_DETECTION_CODE (execFn : jsstring) : jsstring :=
  join nl
    [ js "function isInsideZellijSync(){return process.env.ZELLIJ===" ++ quoted "0"
        ++ js "&&!!process.env.ZELLIJ_SESSION_NAME}";
      js "async function isInsideZellij(){return isInsideZellijSync()}";
      js "async function isZellijAvailable(){try{return(await " ++ execFn
        ++ js "(" ++ quoted "which" ++ js ",[" ++ quoted "zellij"
        ++ js "])).code===0}catch{return!1}}" ].

Definition ZELLIJ_BACKEND_CLASS (execFn logFn : jsstring) : jsstring :=
  join nl
    [ js "var zellijLockQueue=Promise.resolve();";
      js "var zellijBackendRegistered=null;";
      js "function registerZellijBackend(A){zellijBackendRegistered=A}";
      js "function createZellijBackend(){if(!zellijBackendRegistered)throw Error("
        ++ quoted "ZellijBackend not registered."
        ++ js ");return new zellijBackendRegistered}";
      join []
        [ js "class ZellijBackendImpl{type=" ++ quoted "zellij" ++ js ";displayName="
            ++ quoted "Zellij"
            ++ js ";supportsHideShow=!1;paneCount=0;_pendingRelease=null;";
          js "async isAvailable(){return isInsideZellijSync()||await isZellijAvailable()}";
          js "async isRunningInside(){return isInsideZellij()}";
          js "async createTeammatePaneInSwarmView(A,q){";
          js "let K,Y=new Promise((z)=>{K=z}),w=zellijLockQueue;zellijLockQueue=Y;await w;";
          js "try{let z=this.paneCount===0;this.paneCount++;";
          js "let H=" ++ quoted "zellij-" ++ js "+A+" ++ quoted "-"
            ++ js "+this.paneCount;";
          js "let $=await " ++ execFn ++ js "(" ++ quoted "zellij" ++ js ",["
            ++ quoted "action" ++ js "," ++ quoted "new-pane" ++ js ","
            ++ quoted "--name" ++ js ",A]);";
          js "if($.code!==0){K();throw Error("
            ++ quoted "Failed to create Zellij pane for " ++ js "+A+"
            ++ quoted ": " ++ js "+$.stderr)}";
          js "this._pendingRelease=K;";
          logFn ++ js "(" ++ quoted "[ZellijBackend] Created pane for "
            ++ js "+A+" ++ quoted ": " ++ js "+H+" ++ quoted ", isFirst="
            ++ js "+z);";
          js "await new Promise(O=>setTimeout(O,200));";
          js "return{paneId:H,isFirstTeammate:z}";
          js "}catch(z){if(this._pendingRelease){this._pendingRelease();this._pendingRelease=null}else{K()}throw z}}";
          js "async sendCommandToPane(A,q,K){";
          js "try{let Y=await " ++ execFn ++ js "(" ++ quoted "zellij" ++ js ",["
            ++ quoted "action" ++ js "," ++ quoted "write-chars" ++ js ",q]);";
          js "if(Y.code!==0)throw Error(" ++ quoted "Failed to write to Zellij pane "
            ++ js "+A+" ++ quoted ": " ++ js "+Y.stderr);";
          js "let z=await " ++ execFn ++ js "(" ++ quoted "zellij" ++ js ",["
            ++ quoted "action" ++ js "," ++ quoted "write" ++ js ","
            ++ quoted "13" ++ js "]);";
          js "if(z.code!==0)throw Error("
            ++ quoted "Failed to send Enter to Zellij pane " ++ js "+A+"
            ++ quoted ": " ++ js "+z.stderr);";
          logFn ++ js "(" ++ quoted "[ZellijBackend] Sent command to pane "
            ++ js "+A)";
          js "}finally{if(this._pendingRelease){this._pendingRelease();this._pendingRelease=null}}}";
          js "async setPaneBorderColor(A,q,K){}";
          js "async setPaneTitle(A,q,K,Y){}";
          js "async enablePaneBorderStatus(A,q){}";
          js "async rebalancePanes(A,q){" ++ logFn ++ js "("
            ++ quoted "[ZellijBackend] rebalancePanes: no-op" ++ js ")}";
          js "async killPane(A,q){" ++ logFn ++ js "("
            ++ quoted "[ZellijBackend] killPane " ++ js "+A+"
            ++ quoted ": best-effort" ++ js ");return!0}";
          js "async hidePane(A,q){return!1}";
          js "async showPane(A,q,K){return!1}}" ];
      js "registerZellijBackend(ZellijBackendImpl);" ].

(** ** The edits

    [patchCliSource] keeps four local variables: the working text and the
    three lists of the report.  Each edit reads and updates them. *)

Record EditState := {
  code : jsstring;
  applied : list jsstring;
  failed : list jsstring;
  warned : list jsstring
}.

Definition push_applied (msg : jsstring) (st : EditState) : EditState :=
  {| code := code st; applied := applied st ++ [msg];
     failed := failed st; warned := warned st |}.

Definition push_failed (msg : jsstring) (st : EditState) : EditState :=
  {| code := code st; applied := applied st;
     failed := failed st ++ [msg]; warned := warned st |}.

Definition push_warning (msg : jsstring) (st : EditState) : EditState :=
  {| code := code st; applied := applied st;
     failed := failed st; warned := warned st ++ [msg] |}.

Definition set_code (c : jsstring) (st : EditState) : EditState :=
  {| code := c; applied := applied st;
     failed := failed st; warned := warned st |}.

(** *** PATCH 1: inject the ZellijBackend class before TmuxBackend *)

Definition tmuxBackendAnchor (n : MinifiedNames) : jsstring :=
  js "class " ++ tmuxBackendClass n ++ js "{type=" ++ quoted "tmux".

Definition applied1 : jsstring :=
  js "Injected ZellijBackend class and detection functions".
Definition failed1 : jsstring :=
  js "PATCH 1: Could not find TmuxBackend class anchor".

Definition patch1 (n : MinifiedNames) (st : EditState) : EditState :=
  if includes (tmuxBackendAnchor n) (code st) then
    let insertPos := indexOf (tmuxBackendAnchor n) (code st) in
    push_applied applied1
      (set_code (slice (code st) 0 insertPos
                 ++ ZELLIJ_DETECTION_CODE (execFn n)
                 ++ nl
                 ++ ZELLIJ_BACKEND_CLASS (execFn n) (logFn n)
                 ++ nl
                 ++ slice_from (code st) insertPos) st)
  else push_failed failed1 st.

(** *** PATCH 2: insert the Zellij detection in the backend cascade *)

Definition cascadeAnchor : jsstring :=
  js "[BackendRegistry] Not in tmux or iTerm2, tmux available: ${K}`)".

Definition zellijCheck (n : MinifiedNames) : jsstring :=
  join []
    [ js "if(isInsideZellijSync()){";
      logFn n ++ js "("
        ++ quoted "[BackendRegistry] Selected: zellij (running inside Zellij session)"
        ++ js ");";
      js "let ZB=createZellijBackend();";
      js "return " ++ cachedBackendRef n ++ js "=ZB," ++ cachedResultVar n
        ++ js "={backend:ZB,isNative:!0,needsIt2Setup:!1}," ++ cachedResultVar n
        ++ js "}" ].

Definition applied2 : jsstring :=
  js "Inserted Zellij detection in backend cascade".
Definition failed2_scan : jsstring :=
  js "PATCH 2: Found cascade log message but could not locate statement start".
Definition failed2 : jsstring :=
  js "PATCH 2: Could not find cascade anchor for Zellij detection".

Definition patch2 (n : MinifiedNames) (st : EditState) : EditState :=
  if includes cascadeAnchor (code st) then
    let anchorPos := indexOf cascadeAnchor (code st) in
    let searchStart := Z.max 0 (anchorPos - 200) in
    let prefix := slice (code st) searchStart anchorPos in
    match regex_match letKRe prefix with
    | Some letKMatch =>
        let fullAnchorStart :=
          (searchStart + lastIndexOf (m_text letKMatch) prefix)%Z in
        push_applied applied2
          (set_code (slice (code st) 0 fullAnchorStart
                     ++ zellijCheck n
                     ++ slice_from (code st) fullAnchorStart) st)
    | None => push_failed failed2_scan st
    end
  else push_failed failed2 st.

(** *** PATCH 3: Zellij as external fallback before the error *)

Definition errorAnchor : jsstring :=
  js "throw h(" ++ quoted "[BackendRegistry] ERROR: No pane backend available"
  ++ js ")".

Definition zellijFallback (n : MinifiedNames) : jsstring :=
  join []
    [ js "{let ZA=await isZellijAvailable();";
      js "if(" ++ logFn n ++ js "("
        ++ quoted "[BackendRegistry] Checking zellij availability: "
        ++ js "+ZA),ZA){";
      logFn n ++ js "(" ++ quoted "[BackendRegistry] Selected: zellij (external)"
        ++ js ");";
      js "let ZB=createZellijBackend();";
      js "return " ++ cachedBackendRef n ++ js "=ZB," ++ cachedResultVar n
        ++ js "={backend:ZB,isNative:!1,needsIt2Setup:!1}," ++ cachedResultVar n
        ++ js "}}" ].

Definition applied3 : jsstring :=
  js "Added Zellij as external fallback before error".
Definition failed3 : jsstring :=
  js "PATCH 3: Could not find error anchor for Zellij fallback".

Definition patch3 (n : MinifiedNames) (st : EditState) : EditState :=
  if includes errorAnchor (code st) then
    push_applied applied3
      (set_code (replace errorAnchor (zellijFallback n ++ errorAnchor) (code st)) st)
  else push_failed failed3 st.

(** *** PATCH 4: the zellij case of getBackendByType *)

Definition backendByTypeAnchor (n : MinifiedNames) : jsstring :=
  js "case" ++ quoted "tmux" ++ js ":return " ++ tmuxFactory n
  ++ js "();case" ++ quoted "iterm2" ++ js ":return " ++ iterm2Factory n
  ++ js "()".

Definition zellijCase : jsstring :=
  js ";case" ++ quoted "zellij" ++ js ":return createZellijBackend()".

Definition applied4 : jsstring :=
  js "Added " ++ quoted "zellij" ++ js " case to getBackendByType".
Definition failed4 : jsstring :=
  js "PATCH 4: Could not find getBackendByType anchor".

Definition patch4 (n : MinifiedNames) (st : EditState) : EditState :=
  if includes (backendByTypeAnchor n) (code st) then
    push_applied applied4
      (set_code (replace (backendByTypeAnchor n)
                   (backendByTypeAnchor n ++ zellijCase) (code st)) st)
  else push_failed failed4 st.

(** *** PATCH 5: the error messages *)

Definition find1 : jsstring := js "To use agent swarms, install tmux:".
Definition replace1 : jsstring :=
  js "To use agent swarms, install tmux or start a Zellij session (zellij):".
Definition find2 : jsstring :=
  js "To use agent swarms, install tmux using your system's package manager.".
Definition replace2 : jsstring :=
  js "To use agent swarms, install tmux or Zellij using your system's package manager.".

Definition errorMsgReplacements : list (jsstring * jsstring) :=
  [ (find1, replace1); (find2, replace2) ].

Definition applied5 (find : jsstring) : jsstring :=
  js "Updated error message: " ++ dq ++ slice find 0 40 ++ js "..." ++ dq.
Definition warning5 (find : jsstring) : jsstring :=
  js "Error message not found (may already be patched): " ++ dq
  ++ slice find 0 40 ++ js "..." ++ dq.

(** [while (code.includes(find)) code = code.replace(find, replace)].
    The loop is run on fuel; [None] stands for a loop that has not left
    after [fuel] tests of its condition. *)
Fixpoint replace_while (fuel : nat) (find repl c : jsstring) : option jsstring :=
  match fuel with
  | 0 => None
  | S fuel' =>
      if includes find c then replace_while fuel' find repl (replace find repl c)
      else Some c
  end.

(** One turn of the [for] loop over [errorMsgReplacements]. *)
Definition patch5_pair (fr : jsstring * jsstring) (st : EditState)
  : option EditState :=
  let (find, repl) := fr in
  if includes find (code st) then
    match replace_while (S (List.length (code st))) find repl (code st) with
    | Some c => Some (push_applied (applied5 find) (set_code c st))
    | None => None
    end
  else Some (push_warning (warning5 find) st).

Fixpoint patch5_loop (pairs : list (jsstring * jsstring)) (st : EditState)
  : option EditState :=
  match pairs with
  | [] => Some st
  | fr :: rest =>
      match patch5_pair fr st with
      | Some st' => patch5_loop rest st'
      | None => None
      end
  end.

Definition patch5 (st : EditState) : option EditState :=
  patch5_loop errorMsgReplacements st.

(** *** PATCH 6: make isInProcessEnabled() recognize Zellij *)

Definition inProcessAnchor (n : MinifiedNames) : jsstring :=
  js "else q=!" ++ isInsideTmuxSyncFn n ++ js "()".

Definition inProcessReplacement (n : MinifiedNames) : jsstring :=
  js "else q=!" ++ isInsideTmuxSyncFn n ++ js "()&&!isInsideZellijSync()".

Definition applied6 : jsstring :=
  js "Patched isInProcessEnabled to recognize Zellij sessions".
Definition failed6 : jsstring :=
  js "PATCH 6: Could not find isInProcessEnabled anchor for Zellij check".

Definition patch6 (n : MinifiedNames) (st : EditState) : EditState :=
  if includes (inProcessAnchor n) (code st) then
    push_applied applied6
      (set_code (replace (inProcessAnchor n) (inProcessReplacement n) (code st)) st)
  else push_failed failed6 st.

(** ** patchCliSource *)

Definition notRecognized : PatchResult :=
  {| success := false; patchedSource := None; appliedPatches := [];
     failedPatches := [js "File does not appear to be Claude Code cli.js"];
     warnings := [] |}.

Definition alreadyPatchedReport : PatchResult :=
  {| success := false; patchedSource := None; appliedPatches := [];
     failedPatches := [js "File appears to already be patched with Zellij support"];
     warnings := [] |}.

Definition extractionFailed : PatchResult :=
  {| success := false; patchedSource := None; appliedPatches := [];
     failedPatches :=
       [js "Could not extract minified variable names. The cli.js structure may have changed significantly."];
     warnings := [] |}.

(** [failed.length === 0] *)
Definition no_failure (st : EditState) : bool :=
  Nat.eqb (List.length (failed st)) 0.

(** The object built by the last [return]. *)
Definition report (st : EditState) : PatchResult :=
  {| success := no_failure st;
     patchedSource := if no_failure st then Some (code st) else None;
     appliedPatches := applied st;
     failedPatches := failed st;
     warnings := warned st |}.

(** The first guard: both markers of a Claude Code cli.js. *)
Definition recognized (c : jsstring) : bool :=
  negb (negb (includes (js "BackendRegistry") c)
        || negb (includes (js "type=" ++ quoted "tmux") c)).

(** The second guard: a signature token of the injected code. *)
Definition alreadyPatched (c : jsstring) : bool :=
  includes (js "ZellijBackendImpl") c || includes (js "isInsideZellijSync") c.

Definition initial (source : jsstring) : EditState :=
  {| code := source; applied := []; failed := []; warned := [] |}.

(** The six edits, in the order of the source. *)
Definition run_edits (n : MinifiedNames) (st : EditState) : option EditState :=
  let st := patch1 n st in
  let st := patch2 n st in
  let st := patch3 n st in
  let st := patch4 n st in
  match patch5 st with
  | None => None
  | Some st =>
      let st := patch6 n st in
      Some st
  end.

Section PatchCliSource.
  (** The name extraction called by the patcher. *)
  Variable extractNames : jsstring -> option MinifiedNames.

Definition patchCliSourceWith (source : jsstring) : option PatchResult :=
    if negb (includes (js "BackendRegistry") source)
       || negb (includes (js "type=" ++ quoted "tmux") source)
    then Some notRecognized
    else if includes (js "ZellijBackendImpl") source
            || includes (js "isInsideZellijSync") source
    then Some alreadyPatchedReport
    else
      match extractNames source with
      | None => Some extractionFailed
      | Some names =>
          match run_edits names (initial source) with
          | Some st => Some (report st)
          | None => None
          end
      end.
End PatchCliSource.

(** [patchCliSource(source)].  The result is [None] only if a
    replacement loop does not leave; [patchCliSource_returns] shows that
    this never happens. *)
Definition patchCliSource (source : jsstring) : option PatchResult :=
  patchCliSourceWith extractMinifiedNames source.

(** ** The first revision of the patcher

    [src/patchCli.ts] as it stands beside the later revision: the anchors
    and the generated code carry the identifiers of Claude Code v2.1.34,
    no name is extracted and there is no sixth edit. *)

Module FixedNames.

  (** The identifiers written out in the constants of this revision. *)
Definition v2134 : MinifiedNames :=
    {| tmuxBackendClass := js "LTA";
       tmuxFactory := js "EM6";
       iterm2Factory := js "CI4";
       cachedBackendRef := js "qW1";
       cachedResultVar := js "ER";
       execFn := js "CA";
       logFn := js "h";
       isInsideTmuxSyncFn := [] |}.

Definition cascadeAnchor : jsstring :=
    js "let K=await Ts();if(h(`[BackendRegistry] Not in tmux or iTerm2, tmux available: ${K}`)".

Definition patch2 (st : EditState) : EditState :=
    if includes cascadeAnchor (code st) then
      push_applied applied2
        (set_code (replace cascadeAnchor (zellijCheck v2134 ++ cascadeAnchor)
                     (code st)) st)
    else push_failed failed2 st.

Definition run_edits (st : EditState) : option EditState :=
    let st := patch1 v2134 st in
    let st := patch2 st in
    let st := patch3 v2134 st in
    let st := patch4 v2134 st in
    patch5 st.

Definition patchCliSource (source : jsstring) : option PatchResult :=
    if negb (includes (js "BackendRegistry") source)
       || negb (includes (js "TmuxBackend") source)
    then Some notRecognized
    else if includes (js "ZellijBackendImpl") source
            || includes (js "isInsideZellijSync") source
    then Some alreadyPatchedReport
    else
      match run_edits (initial source) with
      | Some st => Some (report st)
      | None => None
      end.

End FixedNames.

(** ** index.ts: restoring from the backup

    The file system is a finite map from paths to contents.  A process
    has the file system, its two output streams and an exit status once
    [process.exit] was called. *)

Module Restore.

Record process := {
  files : gmap (list N) (list N);
  stdout : list jsstring;
  stderr : list jsstring;
  exited : option Z
}.

(** [fs.existsSync(path)] *)
Definition existsSync (fs : gmap (list N) (list N)) (path : jsstring) : bool :=
  match fs !! path with
  | Some _ => true
  | None => false
  end.

(** [fs.copyFileSync(src, dest)]: throws ([None]) without a source. *)
Definition copyFileSync (src dest : jsstring) (fs : gmap (list N) (list N))
  : option (gmap (list N) (list N)) :=
  match fs !! src with
  | Some content => Some (<[dest := content]> fs)
  | None => None
  end.

(** [removePatch(cliJsPath)]: the result and the file system after it. *)
Definition removePatch (cliJsPath : jsstring) (fs : gmap (list N) (list N))
  : option (bool * gmap (list N) (list N)) :=
  let backupPath := cliJsPath ++ js ".bak" in
  if negb (existsSync fs backupPath) then Some (false, fs)
  else
    match copyFileSync backupPath cliJsPath fs with
    | Some fs' => Some (true, fs')
    | None => None
    end.

Definition log (msg : jsstring) (p : process) : process :=
  {| files := files p; stdout := stdout p ++ [msg]; stderr := stderr p;
     exited := exited p |}.

Definition error (msg : jsstring) (p : process) : process :=
  {| files := files p; stdout := stdout p;
     stderr := stderr p ++ [js "Error: " ++ msg]; exited := exited p |}.

Definition exit (status : Z) (p : process) : process :=
  {| files := files p; stdout := stdout p; stderr := stderr p;
     exited := Some status |}.

Definition with_files (fs : gmap (list N) (list N)) (p : process) : process :=
  {| files := fs; stdout := stdout p; stderr := stderr p; exited := exited p |}.

(** [cmdUninstall(cliJsPath)] *)
Definition cmdUninstall (cliJsPath : jsstring) (p : process) : option process :=
  let p := log (js "Restoring " ++ cliJsPath ++ js " from backup...") p in
  match removePatch cliJsPath (files p) with
  | None => None
  | Some (true, fs') =>
      Some (log (js "Original cli.js restored successfully.") (with_files fs' p))
  | Some (false, fs') =>
      Some (exit 1 (error (js "No backup found at " ++ cliJsPath ++ js ".bak")
                      (with_files fs' p)))
  end.

(** A process whose only file is the target. *)
Definition lone_target : process :=
  {| files := {[ js "cli.js" := js "patched" ]}; stdout := []; stderr := [];
     exited := None |}.

End Restore.

(** ** ZellijBackend.ts: the pane serialization lock

    The promises of the lock chain are numbered: promise 0 is the
    resolved promise [lockQueue] starts with, and [acquireLock] makes a
    new one at each call.  A promise is settled once its [resolve] ran;
    [release] is the [resolve] of the caller's own promise.

    A request is one caller running [createTeammatePaneInSwarmView] and,
    when that returned a pane, [sendCommandToPane].  A request advances
    by the piece of code between two [await]s, which JavaScript runs
    without interleaving; which request advances next is not
    determined. *)

Module ZellijBackend.

(** The [await] a request is suspended at. *)
Inductive stage :=
| Waiting          (* createTeammatePaneInSwarmView: await acquireLock() *)
| Creating         (* await zellijAction(["new-pane", ...]) *)
| Settling         (* await the PANE_INIT_DELAY_MS timer *)
| Created          (* returned the pane; sendCommandToPane not yet called *)
| Writing          (* sendCommandToPane: await zellijAction(["write-chars", ...]) *)
| Entering         (* await zellijAction(["write", "13"]) *)
| Finished (ok : bool).  (* returned ([true]) or threw ([false]) *)

(** The [code] of the three [ExecResult]s a request will see. *)
Record outcomes := {
  new_pane : Z;
  write_chars : Z;
  write_enter : Z
}.

Record request := {
  prev : nat;
  next : nat;
  codes : outcomes;
  at_stage : stage
}.

Record state := {
  lockQueue : nat;
  settled : list nat;
  fresh : nat;
  paneCreationCount : nat;
  pendingRelease : option nat;
  requests : list request
}.

Definition initial : state :=
  {| lockQueue := 0; settled := [0]; fresh := 1; paneCreationCount := 0;
     pendingRelease := None; requests := [] |}.

(** [acquireLock()], up to the promise it returns: [(prev, next)]. *)
Definition acquireLock (s : state) : (nat * nat) * state :=
  let next := fresh s in
  let prev := lockQueue s in
  ((prev, next),
   {| lockQueue := next; settled := settled s; fresh := S next;
      paneCreationCount := paneCreationCount s;
      pendingRelease := pendingRelease s; requests := requests s |}).

(** A caller enters [createTeammatePaneInSwarmView]. *)
Definition call (c : outcomes) (s : state) : state :=
  let '((prev, next), s1) := acquireLock s in
  {| lockQueue := lockQueue s1; settled := settled s1; fresh := fresh s1;
     paneCreationCount := paneCreationCount s1;
     pendingRelease := pendingRelease s1;
     requests := requests s1
                 ++ [{| prev := prev; next := next; codes := c;
                        at_stage := Waiting |}] |}.

(** [release()] of the promise [k]. *)
Definition release (k : nat) (s : state) : state :=
  {| lockQueue := lockQueue s; settled := k :: settled s; fresh := fresh s;
     paneCreationCount := paneCreationCount s;
     pendingRelease := pendingRelease s; requests := requests s |}.

Definition set_pending (f : option nat) (s : state) : state :=
  {| lockQueue := lockQueue s; settled := settled s; fresh := fresh s;
     paneCreationCount := paneCreationCount s;
     pendingRelease := f; requests := requests s |}.

(** [if (this._pendingRelease) { this._pendingRelease();
    this._pendingRelease = null; }] *)
Definition release_pending (s : state) : state :=
  match pendingRelease s with
  | Some k => set_pending None (release k s)
  | None => s
  end.

(** [this._pendingRelease = release; ... this.paneCreationCount++] *)
Definition enter (r : request) (s : state) : state :=
  {| lockQueue := lockQueue s; settled := settled s; fresh := fresh s;
     paneCreationCount := S (paneCreationCount s);
     pendingRelease := Some (next r); requests := requests s |}.

Definition is_settled (k : nat) (s : state) : bool :=
  existsb (Nat.eqb k) (settled s).

(** The code a request runs when the promise it awaits is settled: the
    [await] it stops at next, and the state it leaves. *)
Definition resume (r : request) (s : state) : option (stage * state) :=
  match at_stage r with
  | Waiting =>
      if is_settled (prev r) s then Some (Creating, enter r s) else None
  | Creating =>
      if (new_pane (codes r) =? 0)%Z then Some (Settling, s)
      else Some (Finished false,
                 release_pending (set_pending None (release (next r) s)))
  | Settling => Some (Created, s)
  | Created => Some (Writing, s)
  | Writing =>
      if (write_chars (codes r) =? 0)%Z then Some (Entering, s)
      else Some (Finished false, release_pending s)
  | Entering =>
      Some (Finished (write_enter (codes r) =? 0)%Z, release_pending s)
  | Finished _ => None
  end.

Definition at_ (st : stage) (r : request) : request :=
  {| prev := prev r; next := next r; codes := codes r; at_stage := st |}.

Definition set_requests (l : list request) (s : state) : state :=
  {| lockQueue := lockQueue s; settled := settled s; fresh := fresh s;
     paneCreationCount := paneCreationCount s;
     pendingRelease := pendingRelease s; requests := l |}.

(** The request number [i] advances. *)
Definition advance (i : nat) (s : state) : option state :=
  match requests s !! i with
  | None => None
  | Some r =>
      match resume r s with
      | Some (st, s') => Some (set_requests (<[i := at_ st r]> (requests s')) s')
      | None => None
      end
  end.

(** The states of the backend: callers arrive and requests advance, in
    any order. *)
Inductive reachable : state -> Prop :=
| reach_initial : reachable initial
| reach_call c s : reachable s -> reachable (call c s)
| reach_advance i s s' : reachable s -> advance i s = Some s' -> reachable s'.

(** [n] requests advance, one after the other, and no caller arrives. *)
Inductive advances : nat -> state -> state -> Prop :=
| advances_none s : advances 0 s s
| advances_more n i s s' s'' :
    advance i s = Some s' -> advances n s' s'' -> advances (S n) s s''.

Definition finished (r : request) : Prop :=
  match at_stage r with
  | Finished _ => True
  | _ => False
  end.

(** Inside the section the lock protects. *)
Definition holding (r : request) : Prop :=
  match at_stage r with
  | Creating | Settling | Created | Writing | Entering => True
  | Waiting | Finished _ => False
  end.

Definition all_finished (s : state) : Prop :=
  forall i r, requests s !! i = Some r -> finished r.

(** The [await]s a request still has before it. *)
Definition awaits (st : stage) : nat :=
  match st with
  | Waiting => 6
  | Creating => 5
  | Settling => 4
  | Created => 3
  | Writing => 2
  | Entering => 1
  | Finished _ => 0
  end.

Definition remaining (s : state) : nat :=
  list_sum (map (fun r => awaits (at_stage r)) (requests s)).

(** The first [k] requests are finished, the request [k] waits for the
    lock or holds it, the later ones wait; the promises settled are the
    first one and those of the finished requests. *)
Definition chain (k : nat) (s : state) : Prop :=
  (forall i r, requests s !! i = Some r -> prev r = i /\ next r = S i)
  /\ lockQueue s = length (requests s)
  /\ fresh s = S (length (requests s))
  /\ (forall j, In j (settled s) <-> j <= k)
  /\ k <= length (requests s)
  /\ (forall i r, requests s !! i = Some r -> i < k -> finished r)
  /\ (forall i r, requests s !! i = Some r -> k < i -> at_stage r = Waiting)
  /\ match requests s !! k with
     | None => pendingRelease s = None
     | Some r =>
         (at_stage r = Waiting /\ pendingRelease s = None)
         \/ (holding r /\ pendingRelease s = Some (S k))
     end.

(** Three callers; the pane of the first cannot be created. *)
Definition failing : outcomes :=
  {| new_pane := 1; write_chars := 0; write_enter := 0 |}.

Definition passing : outcomes :=
  {| new_pane := 0; write_chars := 0; write_enter := 0 |}.

Definition three_callers : state :=
  call passing (call passing (call failing initial)).

(** The requests of a schedule advance in turn. *)
Fixpoint run (schedule : list nat) (s : state) : option state :=
  match schedule with
  | [] => Some s
  | i :: rest =>
      match advance i s with
      | Some s' => run rest s'
      | None => None
      end
  end.

(** [three_callers] after the schedule [0; 0; 1]: the first request
    threw, the second is creating its pane, the third waits. *)
Definition second_inside : state :=
  {| lockQueue := 3; settled := [1; 0]; fresh := 4; paneCreationCount := 2;
     pendingRelease := Some 2;
     requests :=
       [ {| prev := 0; next := 1; codes := failing;
            at_stage := Finished false |};
         {| prev := 1; next := 2; codes := passing; at_stage := Creating |};
         {| prev := 2; next := 3; codes := passing; at_stage := Waiting |} ] |}.

End ZellijBackend.

(** ** index.ts: the commands

    The commands act on a [Restore.process]: the files, the two output
    streams and the exit status.  What lies outside the program is left
    open: the UTF-8 decoding and encoding of [fs.readFileSync] and
    [fs.writeFileSync], [path.resolve], the result of [findCliJs()], and
    which revision of [patchCliSource] is imported.  A call that throws
    gives [None]; after [process.exit] nothing more is run. *)

Module Index.

Definition USAGE : jsstring :=
  join nl
    [ [];
      js "claude-code-zellij - Add Zellij terminal multiplexer support to Claude Code agent teams";
      [];
      js "Usage:";
      js "  claude-code-zellij install [path-to-cli.js]   Apply the Zellij backend patch";
      js "  claude-code-zellij uninstall [path-to-cli.js]  Restore original cli.js from backup";
      js "  claude-code-zellij check [path-to-cli.js]      Check if cli.js can be patched";
      js "  claude-code-zellij help                         Show this help message";
      [];
      js "If no path is provided, the tool will search common installation locations.";
      [];
      js "Environment:";
      js "  ZELLIJ_SESSION_NAME   Set when running inside Zellij (auto-detected)";
      js "  ZELLIJ                Set to " ++ quoted "0" ++ js " inside Zellij sessions";
      [] ].

(** A string, or no string, as a condition: [undefined], [null] and
    the empty string are false. *)
Definition truthy (s : option jsstring) : bool :=
  match s with
  | Some (_ :: _) => true
  | _ => false
  end.

(** [for (const x of l) log(`${prefix}${x}`)] *)
Definition log_each (prefix : jsstring) (l : list jsstring)
  (p : Restore.process) : Restore.process :=
  fold_left (fun p x => Restore.log (prefix ++ x) p) l p.

(** [for (const x of l) error(`${prefix}${x}`)] *)
Definition error_each (prefix : jsstring) (l : list jsstring)
  (p : Restore.process) : Restore.process :=
  fold_left (fun p x => Restore.error (prefix ++ x) p) l p.

(** [if (warnings.length > 0) { log("\nWarnings:"); for ... log(`  ! ${w}`) }] *)
Definition log_warnings (warnings : list jsstring)
  (p : Restore.process) : Restore.process :=
  if 0 <? List.length warnings then
    log_each (js "  ! ") warnings (Restore.log (nl ++ js "Warnings:") p)
  else p.

Section Commands.

Variable utf8_decode : list N -> jsstring.
Variable utf8_encode : jsstring -> list N.
Variable patchCliSource : jsstring -> option PatchResult.
Variable resolve : jsstring -> jsstring.
Variable found : option jsstring.

(** [fs.readFileSync(path, "utf-8")] *)
Definition readFileSync (path : jsstring) (fs : gmap (list N) (list N))
  : option jsstring :=
  match fs !! path with
  | Some content => Some (utf8_decode content)
  | None => None
  end.

(** [fs.writeFileSync(path, data, "utf-8")] *)
Definition writeFileSync (path data : jsstring) (fs : gmap (list N) (list N))
  : gmap (list N) (list N) :=
  <[path := utf8_encode data]> fs.

(** [resolveCliJs(providedPath)] *)
Definition resolveCliJs (providedPath : option jsstring) (p : Restore.process)
  : option jsstring * Restore.process :=
  match providedPath with
  | Some (c :: rest) =>
      let resolved := resolve (c :: rest) in
      if Restore.existsSync (Restore.files p) resolved then (Some resolved, p)
      else (None, Restore.error (js "File not found: " ++ resolved) p)
  | _ =>
      let p := Restore.log (js "Searching for Claude Code cli.js...") p in
      match found with
      | Some (c :: rest) =>
          (Some (c :: rest), Restore.log (js "Found: " ++ c :: rest) p)
      | _ =>
          (None,
           Restore.error
             (js "Could not find Claude Code cli.js. Provide the path explicitly:"
              ++ nl ++ js "  claude-code-zellij install /path/to/cli.js") p)
      end
  end.

(** The backup step of [cmdInstall]. *)
Definition backup (cliJsPath : jsstring) (p : Restore.process)
  : option Restore.process :=
  let backupPath := cliJsPath ++ js ".bak" in
  if negb (Restore.existsSync (Restore.files p) backupPath) then
    match Restore.copyFileSync cliJsPath backupPath (Restore.files p) with
    | Some fs' =>
        Some (Restore.log (js "Backup created: " ++ backupPath)
                (Restore.with_files fs' p))
    | None => None
    end
  else Some (Restore.log (js "Backup already exists: " ++ backupPath) p).

(** [cmdInstall(cliJsPath)] *)
Definition cmdInstall (cliJsPath : jsstring) (p : Restore.process)
  : option Restore.process :=
  let p := Restore.log (js "Patching " ++ cliJsPath ++ js "...") p in
  match readFileSync cliJsPath (Restore.files p) with
  | None => None
  | Some source =>
  match patchCliSource source with
  | None => None
  | Some result =>
      if negb (success result) || negb (truthy (patchedSource result)) then
        let p := Restore.error (js "Patch failed:") p in
        let p := error_each (js "  - ") (failedPatches result) p in
        let p :=
          if 0 <? List.length (appliedPatches result) then
            log_each (js "  + ") (appliedPatches result)
              (Restore.log (nl ++ js "Patches that would have been applied:") p)
          else p in
        Some (Restore.exit 1 p)
      else
        match patchedSource result, backup cliJsPath p with
        | Some patched, Some p =>
            let p :=
              Restore.with_files
                (writeFileSync cliJsPath patched (Restore.files p)) p in
            let p := Restore.log (nl ++ js "Patch applied successfully:") p in
            let p := log_each (js "  + ") (appliedPatches result) p in
            let p := log_warnings (warnings result) p in
            let p :=
              Restore.log
                (nl ++ js "Zellij backend support is now active. Run Claude Code inside a Zellij session")
                p in
            Some (Restore.log
                    (js "with CLAUDE_CODE_EXPERIMENTAL_AGENT_TEAMS=1 to use agent teams.")
                    p)
        | _, _ => None
        end
  end
  end.

(** [cmdCheck(cliJsPath)] *)
Definition cmdCheck (cliJsPath : jsstring) (p : Restore.process)
  : option Restore.process :=
  let p := Restore.log (js "Checking " ++ cliJsPath ++ js "...") p in
  match readFileSync cliJsPath (Restore.files p) with
  | None => None
  | Some source =>
      if includes (js "ZellijBackendImpl") source then
        Some (Restore.log (js "Status: Already patched with Zellij support.") p)
      else
        match patchCliSource source with
        | None => None
        | Some result =>
            let p :=
              if success result then
                log_each (js "  + ") (appliedPatches result)
                  (Restore.log (nl ++ js "Patches that will be applied:")
                     (Restore.log
                        (js "Status: Ready to patch. All anchor points found.") p))
              else
                log_each (js "  - ") (failedPatches result)
                  (Restore.log
                     (js "Status: Cannot patch. Some anchor points not found.") p)
            in
            Some (log_warnings (warnings result) p)
        end
  end.

(** [const cliJs = resolveCliJs(targetPath); if (cliJs) cmd(cliJs);] *)
Definition on_target (cmd : jsstring -> Restore.process -> option Restore.process)
  (targetPath : option jsstring) (p : Restore.process) : option Restore.process :=
  match resolveCliJs targetPath p with
  | (Some (c :: rest), p) => cmd (c :: rest) p
  | (_, p) => Some p
  end.

(** The program: [args] is [process.argv.slice(2)]. *)
Definition main (args : list jsstring) (p : Restore.process)
  : option Restore.process :=
  let command := args !! 0 in
  let targetPath := args !! 1 in
  let default :=
    let p := Restore.log USAGE p in
    match command with
    | Some (c :: rest) =>
        Some (Restore.exit 1
                (Restore.error (js "Unknown command: " ++ c :: rest) p))
    | _ => Some (Restore.exit 0 p)
    end in
  match command with
  | Some c =>
      if jseqb c (js "install") then on_target cmdInstall targetPath p
      else if jseqb c (js "uninstall") then
        on_target Restore.cmdUninstall targetPath p
      else if jseqb c (js "check") then on_target cmdCheck targetPath p
      else if jseqb c (js "help") || jseqb c (js "--help") || jseqb c (js "-h")
      then Some (Restore.log USAGE p)
      else default
  | None => default
  end.

End Commands.

End Index.

(** ** patchCli.ts: finding cli.js

    What [findCliJs] sees of the machine: the environment variables, the
    regular files with their bytes and the directories with their
    entries.  [path.join] is left open.  A call of [fs] that throws gives
    [None]. *)

Module Find.

Record disk := {
  regular : gmap (list N) (list N);
  directory : gmap (list N) (list jsstring)
}.

(** [fs.existsSync(path)] *)
Definition existsSync (d : disk) (path : jsstring) : bool :=
  match regular d !! path, directory d !! path with
  | None, None => false
  | _, _ => true
  end.

(** [fs.readdirSync(path)] *)
Definition readdirSync (d : disk) (path : jsstring) : option (list jsstring) :=
  directory d !! path.

(** [fd = fs.openSync(path, "r"); buf = Buffer.alloc(4);
    fs.readSync(fd, buf, 0, 4, 0); fs.closeSync(fd)]: the buffer. *)
Definition readHead (d : disk) (path : jsstring) : option (list N) :=
  match regular d !! path with
  | Some content => Some (firstn 4 (content ++ [0; 0; 0; 0]%N))
  | None => None
  end.

(** [a || b] for strings that may be undefined. *)
Definition or_else (a : option jsstring) (b : jsstring) : jsstring :=
  match a with
  | Some (c :: rest) => c :: rest
  | _ => b
  end.

(** The order of [Array.prototype.sort] without a comparator: by code
    units. *)
Fixpoint js_le (a b : jsstring) : bool :=
  match a, b with
  | [], _ => true
  | _ :: _, [] => false
  | x :: a', y :: b' =>
      if (x <? y)%N then true else if (x =? y)%N then js_le a' b' else false
  end.

Fixpoint insert_sorted (x : jsstring) (l : list jsstring) : list jsstring :=
  match l with
  | [] => [x]
  | y :: l' => if js_le x y then x :: y :: l' else y :: insert_sorted x l'
  end.

(** [l.sort()] *)
Fixpoint sort (l : list jsstring) : list jsstring :=
  match l with
  | [] => []
  | x :: l' => insert_sorted x (sort l')
  end.

(** [buf[0] === 0x7f && buf[1] === 0x45 && buf[2] === 0x4c && buf[3] === 0x46] *)
Definition is_elf (buf : list N) : bool :=
  ((nth 0 buf 0 =? 127) && (nth 1 buf 0 =? 69)
   && (nth 2 buf 0 =? 76) && (nth 3 buf 0 =? 70))%N.

Definition cli_js : jsstring := js "node_modules/@anthropic-ai/claude-code/cli.js".

Section FindCliJs.

Variable path_join : list jsstring -> jsstring.
Variable env : gmap (list N) (list N).
Variable d : disk.

Definition home : jsstring :=
  or_else (env !! js "HOME") (or_else (env !! js "USERPROFILE") (js "~")).

Definition nvmDir : jsstring := path_join [home; js ".nvm/versions/node"].

Definition nvm_candidates : list jsstring :=
  if existsSync d nvmDir then
    match readdirSync d nvmDir with
    | Some entries =>
        map (fun ver => path_join [nvmDir; ver; js "lib/" ++ cli_js])
          (rev (sort entries))
    | None => []
    end
  else [].

Definition npxCache : jsstring := path_join [home; js ".npm/_npx"].

Definition npx_candidates : list jsstring :=
  if existsSync d npxCache then
    match readdirSync d npxCache with
    | Some entries =>
        map (fun entry => path_join [npxCache; entry; cli_js]) entries
    | None => []
    end
  else [].

Definition candidates : list jsstring :=
  [ js "/home/linuxbrew/.linuxbrew/lib/" ++ cli_js;
    js "/opt/homebrew/lib/" ++ cli_js;
    js "/usr/local/lib/" ++ cli_js ]
  ++ nvm_candidates
  ++ [ js "/usr/lib/" ++ cli_js;
       path_join [home; js ".npm-global/lib/" ++ cli_js];
       path_join [home; cli_js] ]
  ++ npx_candidates.

(** The loop over the candidates. *)
Fixpoint first_script (l : list jsstring) : option jsstring :=
  match l with
  | [] => None
  | candidate :: rest =>
      if negb (existsSync d candidate) then first_script rest
      else
        match readHead d candidate with
        | Some buf => if is_elf buf then first_script rest else Some candidate
        | None => first_script rest
        end
  end.

Definition findCliJs : option jsstring := first_script candidates.

End FindCliJs.

End Find.

(** * Specification vocabulary

    The predicates, sample inputs and checkers the statements below are
    written with. *)

(** ** Occurrences *)

(** [occ p s]: the number of offsets of [s] at which [p] occurs. *)
Fixpoint occ (p s : jsstring) : nat :=
  (if startsWith p s then 1 else 0)
  + match s with
    | [] => 0
    | _ :: s' => occ p s'
    end.

(** The character [c] stands in [s]. *)
Definition has (c : N) (s : jsstring) : bool := existsb (N.eqb c) s.

(** Two texts that differ at an offset both have. *)
Fixpoint clash (a b : jsstring) : bool :=
  match a, b with
  | x :: a', y :: b' => negb (N.eqb x y) || clash a' b'
  | _, _ => false
  end.

(** A replacement pair whose loop removes one occurrence a turn: [f] and
    [r] begin with the same character, which stands nowhere else in
    them, they differ further on, and [r] holds no dollar. *)
Definition tame (f r : jsstring) : bool :=
  match f, r with
  | t :: f', u :: r' =>
      N.eqb t u && negb (has t f') && negb (has t r') && clash f r
      && negb (has dollar r)
  | _, _ => false
  end.

(** ** The steps of the edit phase *)

(** The entry an edit adds to a list: [x] when [b] holds, nothing
    otherwise. *)
Definition pick (b : bool) (x : jsstring) : list jsstring :=
  if b then [x] else [].

(** The anchor checks of the five structural edits, on the working text. *)
Definition anchor1 (n : MinifiedNames) (c : jsstring) : bool :=
  includes (tmuxBackendAnchor n) c.

(** The backward scan of the second edit from the first occurrence of
    its anchor. *)
Definition letK_found (c : jsstring) : bool :=
  let anchorPos := indexOf cascadeAnchor c in
  let searchStart := Z.max 0 (anchorPos - 200) in
  match regex_match letKRe (slice c searchStart anchorPos) with
  | Some _ => true
  | None => false
  end.

Definition anchor2 (c : jsstring) : bool :=
  includes cascadeAnchor c && letK_found c.

(** The failure the second edit names: the anchor is absent, or it is
    there and the statement start is not. *)
Definition failure2 (c : jsstring) : jsstring :=
  if includes cascadeAnchor c then failed2_scan else failed2.

Definition anchor3 (c : jsstring) : bool := includes errorAnchor c.

Definition anchor4 (n : MinifiedNames) (c : jsstring) : bool :=
  includes (backendByTypeAnchor n) c.

Definition anchor6 (n : MinifiedNames) (c : jsstring) : bool :=
  includes (inProcessAnchor n) c.

(** How an edit step relates the variables before and after it. *)
Definition structural_step (ok : bool) (done_msg fail_msg : jsstring)
  (st st' : EditState) : Prop :=
  applied st' = applied st ++ pick ok done_msg
  /\ failed st' = failed st ++ pick (negb ok) fail_msg
  /\ warned st' = warned st
  /\ (ok = false -> code st' = code st).

(** The same for one message replacement. *)
Definition message_step (present : bool) (find : jsstring)
  (st st' : EditState) : Prop :=
  applied st' = applied st ++ pick present (applied5 find)
  /\ failed st' = failed st
  /\ warned st' = warned st ++ pick (negb present) (warning5 find)
  /\ (present = false -> code st' = code st).

(** ** Sample program texts

    A small text with the shape of the bundled cli.js: every pattern and
    every anchor of the patcher occurs in it once. *)

Definition sample_head : jsstring :=
  js "class LTA{type=" ++ quoted "tmux" ++ js ";x(){return(await CA(Ts1,["
  ++ quoted "-V" ++ js "])).code===0}}function reg(){".

Definition sample_log : jsstring :=
  js "h(" ++ quoted "[BackendRegistry] Starting backend detection..." ++ js ");".

Definition sample_cascade : jsstring :=
  js "if(a){h(" ++ quoted "[BackendRegistry] Selected: tmux (running inside tmux session)"
  ++ js ");let Y=EM6();return qW1=Y,ER={backend:Y,isNative:!0,needsIt2Setup:!1},ER}"
  ++ js "let K=await Ts();if(h(`[BackendRegistry] Not in tmux or iTerm2, tmux available: ${K}`),K){}".

Definition sample_error : jsstring :=
  js "throw h(" ++ quoted "[BackendRegistry] ERROR: No pane backend available"
  ++ js ")}".

Definition sample_tail : jsstring :=
  js "function g(A){switch(A){case" ++ quoted "tmux" ++ js ":return EM6();case"
  ++ quoted "iterm2"
  ++ js ":return CI4()}}function p(){h(`insideTmux=${Ws()}`);if(z)q=!1;else q=!Ws();return q}".

Definition sample_message : jsstring :=
  js "To use agent swarms, install tmux: x To use agent swarms, install tmux:".

Definition sample_cli : jsstring :=
  sample_head ++ sample_log ++ sample_cascade ++ sample_error ++ sample_tail
  ++ sample_message.

(** The same text without the log statement the logger is read from. *)
Definition sample_no_log : jsstring :=
  sample_head ++ sample_cascade ++ sample_error ++ sample_tail ++ sample_message.

(** The same text without the statement that throws the final error. *)
Definition sample_no_error : jsstring :=
  sample_head ++ sample_log ++ sample_cascade ++ sample_tail ++ sample_message.

(** The names found in the samples. *)
Definition sample_names : MinifiedNames :=
  {| tmuxBackendClass := js "LTA";
     tmuxFactory := js "EM6";
     iterm2Factory := js "CI4";
     cachedBackendRef := js "qW1";
     cachedResultVar := js "ER";
     execFn := js "CA";
     logFn := js "h";
     isInsideTmuxSyncFn := js "Ws" |}.

(** ** Reports and guards *)

(** What every report satisfies. *)
Definition report_invariant (r : PatchResult) : Prop :=
  (success r = true <-> failedPatches r = [])
  /\ (patchedSource r <> None <-> success r = true).

(** A text that carries a signature token and neither marker. *)
Definition signature_only : jsstring := js "class ZellijBackendImpl{}".

(** One of the six role patterns finds nothing in [source]. *)
Definition some_role_fails (source : jsstring) : Prop :=
  regex_match tmuxClassRe source = None
  \/ regex_match cascadeRe source = None
  \/ regex_match execRe source = None
  \/ regex_match iterm2Re source = None
  \/ regex_match logRe source = None
  \/ regex_match tmuxSyncRe source = None.

(** [source] passes both guards and yields the bundle [n]. *)
Definition edit_phase (source : jsstring) (n : MinifiedNames) : Prop :=
  recognized source = true
  /\ alreadyPatched source = false
  /\ extractMinifiedNames source = Some n.

(** ** Cuts *)

(** An occurrence of [p] in [a ++ b] that begins in [a] and ends in [b]. *)
Definition straddles (p a b : jsstring) : Prop :=
  exists x y a' b', p = x ++ y /\ x <> [] /\ y <> [] /\ a = a' ++ x /\ b = y ++ b'.

(** [s.endsWith(w)] *)
Definition endsWith (w s : jsstring) : bool := startsWith (rev w) (rev s).

(** No occurrence of [p] straddles a cut whose right side begins with
    [w]: the last character of [p] is not in [w], and [w] does not occur
    in [p] past its first character. *)
Definition clear_before (p w : jsstring) : bool :=
  negb (has (List.last p 0%N) w) && negb (includes w (List.tl p)).

(** No occurrence of [p] straddles a cut whose left side ends with [w]:
    the first character of [p] is not in [w], and [w] does not occur in
    [p] before its last character. *)
Definition clear_after (p w : jsstring) : bool :=
  negb (has (List.hd 0%N p) w) && negb (includes w (List.removelast p)).

(** ** Templates

    A template is a list of characters and holes; [inst rho t] fills the
    hole [k] with [rho k]. *)

Inductive tok :=
| Ch (c : N)
| Nm (k : nat).

Fixpoint inst (rho : nat -> jsstring) (t : list tok) : jsstring :=
  match t with
  | [] => []
  | Ch c :: t' => c :: inst rho t'
  | Nm k :: t' => rho k ++ inst rho t'
  end.

(** A fixed text as a template. *)
Definition lit (s : jsstring) : list tok := List.map Ch s.

(** [may_prefix v t]: [v] may begin some instance of [t]; a hole may
    hold anything. *)
Fixpoint may_prefix (v : jsstring) (t : list tok) : bool :=
  match v, t with
  | [], _ => true
  | _ :: _, [] => false
  | c :: v', Ch d :: t' => N.eqb c d && may_prefix v' t'
  | _ :: _, Nm _ :: _ => true
  end.

(** [scan u h v before t]: at no character [h] of [t] can [u] end just
    before it and [v] begin just after it.  [before] is what was
    scanned, last token first. *)
Fixpoint scan (u : jsstring) (h : N) (v : jsstring) (before t : list tok) : bool :=
  match t with
  | [] => true
  | tk :: t' =>
      match tk with
      | Ch c =>
          if N.eqb c h
          then negb (may_prefix (rev u) before && may_prefix v t')
          else true
      | Nm _ => true
      end
      && scan u h v (tk :: before) t'
  end.

(** The pattern cut at its first character that no name can hold. *)
Fixpoint split_hard (p : jsstring) : option (jsstring * N * jsstring) :=
  match p with
  | [] => None
  | c :: p' =>
      if is_ident c then
        match split_hard p' with
        | Some (u, h, v) => Some (c :: u, h, v)
        | None => None
        end
      else Some ([], c, p')
  end.

(** [absent p t]: a check that [p] occurs in no instance of [t]. *)
Definition absent (p : jsstring) (t : list tok) : bool :=
  match split_hard p with
  | Some (u, h, v) => scan u h v [] t
  | None => false
  end.

(** The fixed characters of a template. *)
Fixpoint fixed_chars (t : list tok) : jsstring :=
  match t with
  | [] => []
  | Ch c :: t' => c :: fixed_chars t'
  | Nm _ :: t' => fixed_chars t'
  end.

(** Every name is made of identifier characters. *)
Definition ident_names (rho : nat -> jsstring) : Prop :=
  forall k, forallb is_ident (rho k) = true.

(** ** Matches *)

(** [shape r caps s caps' rest]: [s] is a text matched by [r] followed
    by [rest]; [caps'] is [caps] and the runs the capture groups took. *)
Fixpoint shape (r : regex) (caps : list jsstring) (s : jsstring)
  (caps' : list jsstring) (rest : jsstring) : Prop :=
  match r with
  | [] => caps' = caps /\ rest = s
  | Lit l :: r' => exists s', s = l ++ s' /\ shape r' caps s' caps' rest
  | Many1 cls :: r' =>
      exists w s', w <> [] /\ forallb cls w = true /\ s = w ++ s'
                   /\ shape r' caps s' caps' rest
  | Capture1 cls :: r' =>
      exists w s', w <> [] /\ forallb cls w = true /\ s = w ++ s'
                   /\ shape r' (caps ++ [w]) s' caps' rest
  | Backref n :: r' =>
      exists s', s = nth (n - 1) caps [] ++ s' /\ shape r' caps s' caps' rest
  | EndOfInput :: r' => s = [] /\ shape r' caps [] caps' rest
  end.

(** A name of the bundle: a run of word characters that is not empty. *)
Definition word (w : jsstring) : Prop := w <> [] /\ forallb is_word w = true.

(** ** The templates of the patcher *)

(** The names of the bundle [n] the templates use, by number. *)
Definition env (n : MinifiedNames) (k : nat) : jsstring :=
  match k with
  | 0 => execFn n
  | 1 => logFn n
  | 2 => cachedBackendRef n
  | 3 => cachedResultVar n
  | 4 => tmuxFactory n
  | 5 => iterm2Factory n
  | 6 => isInsideTmuxSyncFn n
  | _ => []
  end.

(** The text the first edit inserts. *)
Definition injected (n : MinifiedNames) : jsstring :=
  ZELLIJ_DETECTION_CODE (execFn n) ++ nl
  ++ ZELLIJ_BACKEND_CLASS (execFn n) (logFn n) ++ nl.

(** [must_prefix w t]: every instance of [t] begins with [w]. *)
Fixpoint must_prefix (w : jsstring) (t : list tok) : bool :=
  match w, t with
  | [], _ => true
  | c :: w', Ch d :: t' => N.eqb c d && must_prefix w' t'
  | _, _ => false
  end.

(** [must_suffix w t]: every instance of [t] ends with [w]. *)
Definition must_suffix (w : jsstring) (t : list tok) : bool :=
  must_prefix (rev w) (rev t).

(** The names the templates use are words. *)
Definition word_names (n : MinifiedNames) : Prop :=
  word (tmuxFactory n) /\ word (iterm2Factory n)
  /\ word (cachedBackendRef n) /\ word (cachedResultVar n)
  /\ word (execFn n) /\ word (logFn n) /\ word (isInsideTmuxSyncFn n).

(** What is checked of an inserted text [t] against a pattern [p]: [p]
    does not occur in it, and straddles neither of its ends, which are
    [wl] and [wr]. *)
Definition inert (p wl wr : jsstring) (t : list tok) : bool :=
  absent p t && must_prefix wl t && must_suffix wr t
  && clear_before p wl && clear_after p wr.

(** ** The edits as functions of the working text *)

Definition text1 (n : MinifiedNames) (c : jsstring) : jsstring :=
  code (patch1 n (initial c)).

Definition text2 (n : MinifiedNames) (c : jsstring) : jsstring :=
  code (patch2 n (initial c)).

Definition text3 (n : MinifiedNames) (c : jsstring) : jsstring :=
  code (patch3 n (initial c)).

Definition text4 (n : MinifiedNames) (c : jsstring) : jsstring :=
  code (patch4 n (initial c)).

Definition text6 (n : MinifiedNames) (c : jsstring) : jsstring :=
  code (patch6 n (initial c)).

(** The text the sixth edit adds after its anchor. *)
Definition zellijConjunct : jsstring := js "&&!isInsideZellijSync()".

(** The two markers of the recognition guard. *)
Definition typeTmux : jsstring := js "type=" ++ quoted "tmux".

Definition registryTag : jsstring := js "BackendRegistry".

(** The checks [clear_before] and [clear_after] for a pattern that is a
    template: they hold of every instance. *)
Definition tclear_before (t : list tok) (w : jsstring) : bool :=
  match t, rev t with
  | Ch _ :: t', Ch l :: _ => negb (has l w) && absent w t'
  | _, _ => false
  end.

(** As [tclear_before], for a cut whose left side ends with [w]. *)
Definition tclear_after (t : list tok) (w : jsstring) : bool :=
  match t, rev t with
  | Ch f :: _, Ch _ :: rt => negb (has f w) && absent w (rev rt)
  | _, _ => false
  end.

(** A pattern [p] neither occurs in the literal [f] nor straddles its
    ends, which are [To ] and [wr]. *)
Definition apart (p f wr : jsstring) : bool :=
  negb (includes p f) && clear_before p (js "To ") && clear_after p wr.

(** The bundle is one that [extractMinifiedNames] can return. *)
Definition good_names (n : MinifiedNames) : Prop :=
  word_names n /\ forallb is_ident (tmuxBackendClass n) = true.

(** The anchors of the five structural edits, all in [s]. *)
Definition all_anchors (n : MinifiedNames) (s : jsstring) : bool :=
  anchor1 n s && anchor2 s && anchor3 s && anchor4 n s && anchor6 n s.

(** A literal [f] against the cuts and the inserted texts of the first
    four edits. *)
Definition literal_clear (f : jsstring) : bool :=
  clear_before f (js "class ") && clear_before f (js "let ")
  && clear_before f (js "throw ") && clear_after f (js ")")
  && negb (includes f zellijCase).

(** What the templates must satisfy for the literal [f]. *)
Definition literal_inert (f : jsstring) (n : MinifiedNames) : Prop :=
  (exists t, injected n = inst (env n) t /\ inert f (js "function ") nl t = true)
  /\ (exists t, zellijCheck n = inst (env n) t /\ inert f (js "if(") (js "}") t = true)
  /\ (exists t, zellijFallback n = inst (env n) t
                /\ inert f (js "{let ") (js "}}") t = true).

(** The outcome of the five structural edits on [s]: each anchor is
    checked on the text left by the structural edits before it. *)
Definition structural_ok (n : MinifiedNames) (s : jsstring) : bool :=
  let c1 := text1 n s in
  let c2 := text2 n c1 in
  let c3 := text3 n c2 in
  let c4 := text4 n c3 in
  anchor1 n s && anchor2 c1 && anchor3 c2 && anchor4 n c3 && anchor6 n c4.

(** The failures the five structural edits report on [s], in order. *)
Definition structural_failures (n : MinifiedNames) (s : jsstring) : list jsstring :=
  let c1 := text1 n s in
  let c2 := text2 n c1 in
  let c3 := text3 n c2 in
  let c4 := text4 n c3 in
  pick (negb (anchor1 n s)) failed1
  ++ pick (negb (anchor2 c1)) (failure2 c1)
  ++ pick (negb (anchor3 c2)) failed3
  ++ pick (negb (anchor4 n c3)) failed4
  ++ pick (negb (anchor6 n c4)) failed6.

(** The sample text without the two messages. *)
Definition sample_plain : jsstring :=
  sample_head ++ sample_log ++ sample_cascade ++ sample_error ++ sample_tail.

(** ** The first revision, the commands, the search and the counter *)


(** A regular file that does not begin with the four bytes of the ELF
    magic number. *)
Definition script (d : Find.disk) (path : jsstring) : Prop :=
  exists content,
    Find.regular d !! path = Some content
    /\ firstn 4 content <> [127; 69; 76; 70]%N.

(** The counter when the request [k] is the first that is not finished:
    it has counted the finished requests, and the request [k] once it
    holds the lock. *)
Definition counted (k : nat) (s : ZellijBackend.state) : Prop :=
  ZellijBackend.paneCreationCount s
  = match ZellijBackend.requests s !! k with
    | Some r =>
        match ZellijBackend.at_stage r with
        | ZellijBackend.Waiting => k
        | _ => S k
        end
    | None => k
    end.

(** The lock after the first of three callers threw: the second has not
    taken it yet. *)
Definition first_threw : ZellijBackend.state :=
  {| ZellijBackend.lockQueue := 3; ZellijBackend.settled := [1; 0];
     ZellijBackend.fresh := 4; ZellijBackend.paneCreationCount := 1;
     ZellijBackend.pendingRelease := None;
     ZellijBackend.requests :=
       [ {| ZellijBackend.prev := 0; ZellijBackend.next := 1;
            ZellijBackend.codes := ZellijBackend.failing;
            ZellijBackend.at_stage := ZellijBackend.Finished false |};
         {| ZellijBackend.prev := 1; ZellijBackend.next := 2;
            ZellijBackend.codes := ZellijBackend.passing;
            ZellijBackend.at_stage := ZellijBackend.Waiting |};
         {| ZellijBackend.prev := 2; ZellijBackend.next := 3;
            ZellijBackend.codes := ZellijBackend.passing;
            ZellijBackend.at_stage := ZellijBackend.Waiting |} ] |}.

(** The sample text with the marker of the first revision. *)
Definition sample_first : jsstring := js "/*TmuxBackend*/" ++ sample_cli.

(** A process whose only file is the sample text, one code unit a
    byte. *)
Definition sample_process : Restore.process :=
  {| Restore.files := {[ js "cli.js" := sample_cli ]}; Restore.stdout := [];
     Restore.stderr := []; Restore.exited := None |}.


(** A process with a backup and no target. *)
Definition lone_backup : Restore.process :=
  {| Restore.files := {[ js "cli.js.bak" := js "original" ]};
     Restore.stdout := []; Restore.stderr := []; Restore.exited := None |}.

(** A machine with two versions of node under nvm and nothing else. *)
Definition two_versions : Find.disk :=
  {| Find.regular := empty;
     Find.directory :=
       {[ js "~/.nvm/versions/node" := [js "v18.0.0"; js "v9.0.0"] ]} |}.

(** One of the two revisions of the patcher. *)
Definition revision (patch : jsstring -> option PatchResult) : Prop :=
  patch = patchCliSource \/ patch = FixedNames.patchCliSource.

(** * Properties *)

(** ** Facts about the string primitives *)

Lemma startsWith_app (p t : jsstring) : startsWith p (p ++ t) = true.
Proof.
  induction p as [|x p IH]; simpl; [reflexivity|].
  now rewrite N.eqb_refl, IH.
Qed.

Lemma startsWith_inv (p s : jsstring) :
  startsWith p s = true -> s = p ++ skipn (List.length p) s.
Proof.
  revert s; induction p as [|x p IH]; intros s H; simpl in *; [reflexivity|].
  destruct s as [|y s]; [discriminate|].
  apply andb_prop in H as [Hxy Hp]. apply N.eqb_eq in Hxy. subst y.
  simpl. f_equal. now apply IH.
Qed.

Lemma startsWith_iff (p s : jsstring) :
  startsWith p s = true <-> exists t, s = p ++ t.
Proof.
  split.
  - intros H. eexists. now apply startsWith_inv.
  - intros [t ->]. apply startsWith_app.
Qed.

Lemma startsWith_length (p s : jsstring) :
  startsWith p s = true -> List.length p <= List.length s.
Proof.
  intros H. apply startsWith_iff in H as [t ->]. rewrite length_app. lia.
Qed.

(** The offset returned by [find_first] splits the text around the first
    occurrence. *)
Lemma find_first_split (p s : jsstring) (i : nat) :
  find_first p s = Some i ->
  s = firstn i s ++ p ++ skipn (i + List.length p) s /\ List.length (firstn i s) = i.
Proof.
  revert i; induction s as [|c s IH]; intros i H; simpl in H.
  - destruct (startsWith p []) eqn:E; [|discriminate].
    injection H as <-. apply startsWith_inv in E. simpl in *. split; [|reflexivity].
    destruct p; [reflexivity | discriminate].
  - destruct (startsWith p (c :: s)) eqn:E.
    + injection H as <-. split; [|reflexivity]. simpl firstn.
      now apply startsWith_inv in E.
    + destruct (find_first p s) as [j|] eqn:F; [|discriminate].
      injection H as <-. destruct (IH j eq_refl) as [IH1 IH2].
      simpl. split; [now rewrite <- IH1 | now rewrite IH2].
Qed.

Lemma find_first_app (a p b : jsstring) :
  exists i, find_first p (a ++ p ++ b) = Some i /\ i <= List.length a.
Proof.
  induction a as [|c a IH]; simpl.
  - exists 0. split; [|lia].
    destruct (p ++ b) eqn:E.
    + simpl. destruct p; [reflexivity | discriminate].
    + simpl. rewrite <- E. now rewrite startsWith_app.
  - destruct (startsWith p (c :: a ++ p ++ b)).
    + exists 0. split; [reflexivity | lia].
    + destruct IH as [i [-> Hi]]. exists (S i). split; [reflexivity | lia].
Qed.

(** [includes] is the existence of an occurrence. *)
Lemma includes_iff (p s : jsstring) :
  includes p s = true <-> exists a b, s = a ++ p ++ b.
Proof.
  unfold includes. split.
  - destruct (find_first p s) as [i|] eqn:F; [|discriminate]. intros _.
    apply find_first_split in F as [F _]. eauto.
  - intros (a & b & ->). now destruct (find_first_app a p b) as [i [-> _]].
Qed.

Lemma includes_app_l (p a b : jsstring) :
  includes p a = true -> includes p (a ++ b) = true.
Proof.
  rewrite !includes_iff. intros (x & y & ->). exists x, (y ++ b).
  now rewrite <- !app_assoc.
Qed.

Lemma includes_app_r (p a b : jsstring) :
  includes p b = true -> includes p (a ++ b) = true.
Proof.
  rewrite !includes_iff. intros (x & y & ->). exists (a ++ x), y.
  now rewrite <- !app_assoc.
Qed.

Lemma includes_self_mid (p a b : jsstring) : includes p (a ++ p ++ b) = true.
Proof. apply includes_iff. eauto. Qed.

Lemma includes_find_first (p s : jsstring) :
  includes p s = true -> exists i, find_first p s = Some i.
Proof.
  unfold includes. destruct (find_first p s); [eauto | discriminate].
Qed.

Lemma firstn_min_length {A} (l : list A) (i : nat) :
  firstn (Nat.min i (List.length l)) l = firstn i l.
Proof.
  destruct (Nat.le_gt_cases i (List.length l)) as [H|H].
  - now rewrite Nat.min_l.
  - rewrite Nat.min_r by lia. now rewrite !firstn_all2 by lia.
Qed.

Lemma slice_prefix (s : jsstring) (i : nat) :
  slice s 0 (Z.of_nat i) = firstn i s.
Proof.
  unfold slice, rel_index. simpl.
  destruct (Z.of_nat i <? 0)%Z eqn:E; [apply Z.ltb_lt in E; lia|].
  assert (H0 : Z.to_nat (Z.min 0 (Z.of_nat (List.length s))) = 0) by lia.
  assert (H1 : Z.to_nat (Z.min (Z.of_nat i) (Z.of_nat (List.length s))
                         - Z.min 0 (Z.of_nat (List.length s)))
               = Nat.min i (List.length s)) by lia.
  rewrite H0, H1. simpl. apply firstn_min_length.
Qed.

Lemma slice_suffix (s : jsstring) (i : nat) :
  slice_from s (Z.of_nat i) = skipn i s.
Proof.
  unfold slice_from, slice, rel_index.
  destruct (Z.of_nat i <? 0)%Z eqn:E; [apply Z.ltb_lt in E; lia|].
  destruct (Z.of_nat (List.length s) <? 0)%Z eqn:E'; [apply Z.ltb_lt in E'; lia|].
  assert (H0 : Z.to_nat (Z.min (Z.of_nat i) (Z.of_nat (List.length s)))
               = Nat.min i (List.length s)) by lia.
  assert (H1 : Z.to_nat (Z.min (Z.of_nat (List.length s)) (Z.of_nat (List.length s))
                         - Z.min (Z.of_nat i) (Z.of_nat (List.length s)))
               = List.length s - Nat.min i (List.length s)) by lia.
  rewrite H0, H1.
  destruct (Nat.le_gt_cases i (List.length s)) as [H|H].
  - rewrite Nat.min_l by lia. apply firstn_all2. rewrite length_skipn. lia.
  - rewrite Nat.min_r by lia. rewrite Nat.sub_diag.
    rewrite (skipn_all2 (n:=i)) by lia. reflexivity.
Qed.

(** A replacement text without a dollar stands for itself. *)
Lemma getSubstitution_plain (m b a repl : jsstring) :
  ~ In dollar repl -> getSubstitution m b a repl = repl.
Proof.
  induction repl as [|c r IH]; intros H; simpl; [reflexivity|].
  assert (Hc : N.eqb c dollar = false).
  { apply N.eqb_neq. intros ->. apply H. now left. }
  rewrite Hc. f_equal. apply IH. intros Hi. apply H. now right.
Qed.

Lemma replace_plain (p repl s : jsstring) (i : nat) :
  ~ In dollar repl -> find_first p s = Some i ->
  replace p repl s = firstn i s ++ repl ++ skipn (i + List.length p) s.
Proof.
  intros Hd F. unfold replace. rewrite F. now rewrite getSubstitution_plain.
Qed.

(** ** Counting occurrences: the replacement loops leave

    [occ p s] is the number of offsets of [s] at which [p] occurs.  One
    turn of [while (code.includes(find)) code = code.replace(find, r)]
    removes exactly one occurrence when [find] and [r] begin with the
    same character, that character stands nowhere else in them, and [r]
    does not begin with [find]: so the loop leaves after as many turns
    as [find] has occurrences. *)

Lemma has_false (c : N) (s : jsstring) : has c s = false <-> ~ In c s.
Proof.
  unfold has. induction s as [|x s IH]; simpl.
  - tauto.
  - rewrite orb_false_iff, IH, N.eqb_neq. split.
    + intros [H1 H2] [H|H]; [now subst | tauto].
    + intros H. split; [intros ->; now apply H; left | intros Hi; apply H; now right].
Qed.

Lemma has_true (c : N) (s : jsstring) : has c s = true <-> In c s.
Proof.
  destruct (has c s) eqn:E.
  - split; [intros _ | reflexivity].
    unfold has in E. apply existsb_exists in E as (x & Hx & Hc).
    apply N.eqb_eq in Hc. now subst.
  - apply has_false in E. split; [discriminate | tauto].
Qed.

Lemma has_app (c : N) (a b : jsstring) : has c (a ++ b) = has c a || has c b.
Proof. unfold has. apply existsb_app. Qed.

Lemma clash_startsWith (a b x : jsstring) :
  clash a b = true -> startsWith a (b ++ x) = false.
Proof.
  revert b; induction a as [|y a IH]; intros [|z b] H; simpl in *; try discriminate.
  destruct (N.eqb y z); simpl in *; [now apply IH | reflexivity].
Qed.

Lemma occ_zero_includes (p s : jsstring) :
  occ p s = 0 <-> includes p s = false.
Proof.
  unfold includes. induction s as [|c s IH]; simpl.
  - destruct (startsWith p []); simpl; split; (discriminate || reflexivity).
  - destruct (startsWith p (c :: s)); simpl.
    + split; discriminate.
    + rewrite IH. destruct (find_first p s); simpl; tauto.
Qed.

Lemma occ_le_length (p s : jsstring) :
  p <> [] -> occ p s <= List.length s.
Proof.
  intros Hp. induction s as [|c s IH]; simpl.
  - destruct p; [congruence | simpl; lia].
  - destruct (startsWith p (c :: s)); simpl; [|lia].
    enough (occ p s < S (List.length s)) by lia.
    (* an occurrence at offset 0 leaves at most [length s] further offsets *)
    clear IH. induction s as [|d s IH]; simpl.
    + destruct p as [|x [|y p]]; simpl; try congruence; lia.
    + destruct (startsWith p (d :: s)); simpl; lia.
Qed.

Section TameReplacement.
  Variables (t : N) (f' r' : jsstring).
  Hypothesis t_not_in_f : ~ In t f'.
  Hypothesis t_not_in_r : ~ In t r'.
  Hypothesis f_r_clash : clash (t :: f') (t :: r') = true.
  Hypothesis r_plain : ~ In dollar (t :: r').

  (** A pattern without [t] cannot tell what follows a [t]. *)
Lemma startsWith_stop (p a x y : jsstring) :
    ~ In t p -> startsWith p (a ++ t :: x) = startsWith p (a ++ t :: y).
  Proof.
    revert a; induction p as [|c p IH]; intros a Hp; [reflexivity|].
    destruct a as [|d a]; simpl.
    - assert (E : N.eqb c t = false).
      { apply N.eqb_neq. intros ->. apply Hp. now left. }
      now rewrite E.
    - rewrite (IH a); [reflexivity|]. intros Hi. apply Hp. now right.
  Qed.

Lemma occ_skip (x b : jsstring) :
    ~ In t x -> occ (t :: f') (x ++ b) = occ (t :: f') b.
  Proof.
    induction x as [|c x IH]; intros Hx; [reflexivity|].
    change ((c :: x) ++ b) with (c :: (x ++ b)).
    cbn [occ startsWith].
    assert (E : N.eqb t c = false).
    { apply N.eqb_neq. intros ->. apply Hx. now left. }
    rewrite E. simpl. apply IH. intros Hi. apply Hx. now right.
  Qed.

Lemma occ_find (b : jsstring) :
    occ (t :: f') ((t :: f') ++ b) = S (occ (t :: f') b).
  Proof.
    change ((t :: f') ++ b) with (t :: (f' ++ b)).
    cbn [occ]. change (t :: f' ++ b) with ((t :: f') ++ b).
    rewrite startsWith_app. simpl. f_equal. now apply occ_skip.
  Qed.

Lemma occ_repl (b : jsstring) :
    occ (t :: f') ((t :: r') ++ b) = occ (t :: f') b.
  Proof.
    change ((t :: r') ++ b) with (t :: (r' ++ b)).
    cbn [occ]. change (t :: r' ++ b) with ((t :: r') ++ b).
    rewrite clash_startsWith by exact f_r_clash. simpl. now apply occ_skip.
  Qed.

  (** Replacing the first occurrence removes one occurrence. *)
Lemma occ_replace_first (s : jsstring) (i : nat) :
    find_first (t :: f') s = Some i ->
    S (occ (t :: f')
         (firstn i s ++ (t :: r') ++ skipn (i + List.length (t :: f')) s))
    = occ (t :: f') s.
  Proof.
    revert i; induction s as [|c s IH]; intros i F.
    - simpl in F. discriminate.
    - cbn [find_first] in F.
      destruct (startsWith (t :: f') (c :: s)) eqn:E.
      + injection F as <-. cbn [firstn app Nat.add].
        rewrite (startsWith_inv _ _ E) at 2.
        change (t :: r' ++ ?x) with ((t :: r') ++ x).
        now rewrite occ_repl, occ_find.
      + destruct (find_first (t :: f') s) as [j|] eqn:F'; [|discriminate].
        injection F as <-. specialize (IH j eq_refl).
        cbn [firstn app Nat.add]. cbn [occ]. rewrite E.
        change (S j + List.length (t :: f')) with (S (j + List.length (t :: f'))).
        cbn [skipn].
        assert (E2 : startsWith (t :: f')
                       (c :: firstn j s ++ (t :: r')
                             ++ skipn (j + List.length (t :: f')) s) = false).
        { cbn [startsWith] in E |- *.
          destruct (N.eqb t c); [|reflexivity]. simpl in E |- *.
          rewrite <- E.
          destruct (find_first_split _ _ _ F') as [Hs _].
          rewrite Hs at 3.
          change ((t :: r') ++ ?x) with (t :: (r' ++ x)).
          change ((t :: f') ++ ?x) with (t :: (f' ++ x)).
          now apply startsWith_stop. }
        cbn [app] in E2, IH |- *. rewrite E2. simpl. simpl in IH. lia.
  Qed.

  (** The loop leaves, with the pattern gone, once the fuel exceeds the
      number of occurrences. *)
Lemma replace_while_leaves (fuel : nat) (c : jsstring) :
    occ (t :: f') c < fuel ->
    exists c', replace_while fuel (t :: f') (t :: r') c = Some c'
               /\ includes (t :: f') c' = false.
  Proof.
    revert c; induction fuel as [|fuel IH]; intros c H; [lia|].
    cbn [replace_while]. destruct (includes (t :: f') c) eqn:E.
    - destruct (includes_find_first _ _ E) as [i F].
      rewrite (replace_plain _ _ _ i r_plain F).
      apply IH. pose proof (occ_replace_first c i F). lia.
    - now exists c.
  Qed.
End TameReplacement.

Lemma tame_replace_while (f r c : jsstring) :
  tame f r = true ->
  exists c', replace_while (S (List.length c)) f r c = Some c'
             /\ includes f c' = false.
Proof.
  destruct f as [|t f']; [discriminate|]. destruct r as [|u r']; [discriminate|].
  unfold tame. rewrite !andb_true_iff, !negb_true_iff.
  intros [[[[Htu Hf] Hr] Hc] Hd]. apply N.eqb_eq in Htu. subst u.
  apply replace_while_leaves.
  - now apply has_false.
  - now apply has_false.
  - exact Hc.
  - now apply has_false.
  - pose proof (occ_le_length (t :: f') c). assert (t :: f' <> []) by discriminate.
    specialize (H H0). lia.
Qed.

(** An invariant of the working text is kept by the loop when each
    replacement keeps it. *)
Lemma replace_while_invariant (P : jsstring -> Prop) (f r : jsstring) :
  (forall x, P x -> includes f x = true -> P (replace f r x)) ->
  forall fuel c c', P c -> replace_while fuel f r c = Some c' -> P c'.
Proof.
  intros Hstep. induction fuel as [|fuel IH]; intros c c' Hc H; [discriminate|].
  cbn [replace_while] in H. destruct (includes f c) eqn:E.
  - eapply IH; [|exact H]. now apply Hstep.
  - now injection H as <-.
Qed.

Lemma tame_find1 : tame find1 replace1 = true.
Proof. vm_compute. reflexivity. Qed.

Lemma tame_find2 : tame find2 replace2 = true.
Proof. vm_compute. reflexivity. Qed.

(** ** What one edit does to the report

    [pick b x] is the entry an edit adds to a list: [x] when [b] holds,
    nothing otherwise. *)

Lemma patch1_step (n : MinifiedNames) (st : EditState) :
  structural_step (anchor1 n (code st)) applied1 failed1 st (patch1 n st).
Proof.
  unfold structural_step, patch1, anchor1.
  destruct (includes (tmuxBackendAnchor n) (code st)); simpl;
    rewrite ?app_nil_r; repeat split; congruence.
Qed.

Lemma patch2_step (n : MinifiedNames) (st : EditState) :
  structural_step (anchor2 (code st)) applied2 (failure2 (code st))
    st (patch2 n st).
Proof.
  unfold structural_step, patch2, anchor2, failure2, letK_found.
  destruct (includes cascadeAnchor (code st)); simpl.
  - destruct (regex_match letKRe _); simpl;
      rewrite ?app_nil_r; repeat split; congruence.
  - rewrite ?app_nil_r; repeat split; congruence.
Qed.

Lemma patch3_step (n : MinifiedNames) (st : EditState) :
  structural_step (anchor3 (code st)) applied3 failed3 st (patch3 n st).
Proof.
  unfold structural_step, patch3, anchor3.
  destruct (includes errorAnchor (code st)); simpl;
    rewrite ?app_nil_r; repeat split; congruence.
Qed.

Lemma patch4_step (n : MinifiedNames) (st : EditState) :
  structural_step (anchor4 n (code st)) applied4 failed4 st (patch4 n st).
Proof.
  unfold structural_step, patch4, anchor4.
  destruct (includes (backendByTypeAnchor n) (code st)); simpl;
    rewrite ?app_nil_r; repeat split; congruence.
Qed.

Lemma patch6_step (n : MinifiedNames) (st : EditState) :
  structural_step (anchor6 n (code st)) applied6 failed6 st (patch6 n st).
Proof.
  unfold structural_step, patch6, anchor6.
  destruct (includes (inProcessAnchor n) (code st)); simpl;
    rewrite ?app_nil_r; repeat split; congruence.
Qed.

(** One message replacement always returns, and leaves no occurrence of
    its literal. *)
Lemma patch5_pair_step (f r : jsstring) (st : EditState) :
  tame f r = true ->
  exists st', patch5_pair (f, r) st = Some st'
              /\ message_step (includes f (code st)) f st st'
              /\ includes f (code st') = false.
Proof.
  intros Ht. unfold patch5_pair, message_step.
  destruct (includes f (code st)) eqn:E.
  - destruct (tame_replace_while f r (code st) Ht) as (c' & -> & Hc').
    eexists. split; [reflexivity|]. simpl. rewrite ?app_nil_r.
    repeat split; try congruence.
  - eexists. split; [reflexivity|]. simpl. rewrite ?app_nil_r.
    repeat split; try congruence.
Qed.

Lemma patch5_steps (st : EditState) :
  exists mid st', patch5_pair (find1, replace1) st = Some mid
    /\ patch5_pair (find2, replace2) mid = Some st'
    /\ patch5 st = Some st'
    /\ message_step (includes find1 (code st)) find1 st mid
    /\ message_step (includes find2 (code mid)) find2 mid st'.
Proof.
  destruct (patch5_pair_step find1 replace1 st tame_find1) as (mid & H1 & S1 & _).
  destruct (patch5_pair_step find2 replace2 mid tame_find2) as (st' & H2 & S2 & _).
  exists mid, st'. repeat split; try assumption; try apply S1; try apply S2.
  unfold patch5, errorMsgReplacements. cbn [patch5_loop]. now rewrite H1, H2.
Qed.

(** The edit phase always returns. *)
Lemma run_edits_returns (n : MinifiedNames) (st : EditState) :
  exists st5, patch5 (patch4 n (patch3 n (patch2 n (patch1 n st)))) = Some st5
              /\ run_edits n st = Some (patch6 n st5).
Proof.
  destruct (patch5_steps (patch4 n (patch3 n (patch2 n (patch1 n st)))))
    as (mid & st5 & _ & _ & H & _).
  exists st5. split; [exact H|]. unfold run_edits. now rewrite H.
Qed.

(** [patchCliSource] returns a report on every input. *)
Lemma patchCliSourceWith_returns
  (extract : jsstring -> option MinifiedNames) (source : jsstring) :
  exists r, patchCliSourceWith extract source = Some r.
Proof.
  unfold patchCliSourceWith.
  destruct (negb _ || negb _); [eauto|].
  destruct (_ || _); [eauto|].
  destruct (extract source) as [n|]; [|eauto].
  destruct (run_edits_returns n (initial source)) as (st5 & _ & ->). eauto.
Qed.

Lemma patchCliSource_returns (source : jsstring) :
  exists r, patchCliSource source = Some r.
Proof. apply patchCliSourceWith_returns. Qed.

(** The three outcomes before the edit phase, and the edit phase. *)
Lemma patchCliSource_not_recognized (source : jsstring) :
  recognized source = false -> patchCliSource source = Some notRecognized.
Proof.
  unfold recognized, patchCliSource, patchCliSourceWith. intros H.
  apply negb_false_iff in H. now rewrite H.
Qed.

Lemma patchCliSource_already (source : jsstring) :
  recognized source = true -> alreadyPatched source = true ->
  patchCliSource source = Some alreadyPatchedReport.
Proof.
  unfold recognized, alreadyPatched, patchCliSource, patchCliSourceWith.
  intros H1 H2. apply negb_true_iff in H1. now rewrite H1, H2.
Qed.

Lemma patchCliSource_no_names (source : jsstring) :
  recognized source = true -> alreadyPatched source = false ->
  extractMinifiedNames source = None ->
  patchCliSource source = Some extractionFailed.
Proof.
  unfold recognized, alreadyPatched, patchCliSource, patchCliSourceWith.
  intros H1 H2 H3. apply negb_true_iff in H1. now rewrite H1, H2, H3.
Qed.

Lemma patchCliSource_edits (source : jsstring) (n : MinifiedNames) :
  recognized source = true -> alreadyPatched source = false ->
  extractMinifiedNames source = Some n ->
  patchCliSource source = option_map report (run_edits n (initial source)).
Proof.
  unfold recognized, alreadyPatched, patchCliSource, patchCliSourceWith.
  intros H1 H2 H3. apply negb_true_iff in H1. rewrite H1, H2, H3.
  now destruct (run_edits n (initial source)).
Qed.

(** ** The report invariant *)

Lemma report_invariant_report (st : EditState) : report_invariant (report st).
Proof.
  unfold report_invariant, report, no_failure. simpl.
  destruct (failed st) as [|x l]; simpl; split; split;
    (congruence || discriminate || reflexivity || tauto).
Qed.

Lemma report_invariant_early (msg : jsstring) :
  report_invariant
    {| success := false; patchedSource := None; appliedPatches := [];
       failedPatches := [msg]; warnings := [] |}.
Proof.
  unfold report_invariant. simpl. split; split; (congruence || discriminate).
Qed.

Lemma FixedNames_returns (source : jsstring) :
  exists r, FixedNames.patchCliSource source = Some r /\ report_invariant r.
Proof.
  unfold FixedNames.patchCliSource.
  destruct (negb _ || negb _).
  { eexists. split; [reflexivity | apply report_invariant_early]. }
  destruct (_ || _).
  { eexists. split; [reflexivity | apply report_invariant_early]. }
  unfold FixedNames.run_edits.
  destruct (patch5_steps
              (patch4 FixedNames.v2134
                 (patch3 FixedNames.v2134
                    (FixedNames.patch2 (patch1 FixedNames.v2134 (initial source))))))
    as (mid & st' & _ & _ & -> & _).
  eexists. split; [reflexivity | apply report_invariant_report].
Qed.

(** C2. For every input the report of [patchCliSource] (of either
    revision) has [success] true exactly when [failedPatches] is empty,
    and a patched text exactly when [success] is true. *)
Theorem report_success_iff_no_failure (source : jsstring) :
  (exists r, patchCliSource source = Some r /\ report_invariant r)
  /\ (exists r, FixedNames.patchCliSource source = Some r /\ report_invariant r).
Proof.
  split; [|apply FixedNames_returns].
  unfold patchCliSource, patchCliSourceWith.
  destruct (negb _ || negb _).
  { eexists. split; [reflexivity | apply report_invariant_early]. }
  destruct (_ || _).
  { eexists. split; [reflexivity | apply report_invariant_early]. }
  destruct (extractMinifiedNames source) as [n|].
  - destruct (run_edits_returns n (initial source)) as (st5 & _ & ->).
    eexists. split; [reflexivity | apply report_invariant_report].
  - eexists. split; [reflexivity | apply report_invariant_early].
Qed.

(** ** The order of the guards *)

(** C3, as stated, fails: on a text with a signature token and without
    the markers the patcher reports "not recognized", not "already
    patched". *)
Lemma already_patched_not_first :
  alreadyPatched signature_only = true
  /\ recognized signature_only = false
  /\ patchCliSource signature_only = Some notRecognized
  /\ patchCliSource signature_only <> Some alreadyPatchedReport.
Proof.
  repeat split; try (vm_compute; reflexivity).
  vm_compute. discriminate.
Qed.

(** C3, amended. The recognition check comes first: a text with a
    signature token is reported as already patched when it has both
    markers, and as not recognized when it lacks one. *)
Theorem recognition_check_first (source : jsstring) :
  alreadyPatched source = true ->
  patchCliSource source
  = Some (if recognized source then alreadyPatchedReport else notRecognized).
Proof.
  intros H. destruct (recognized source) eqn:R.
  - now apply patchCliSource_already.
  - now apply patchCliSource_not_recognized.
Qed.

Lemma recognition_check_first_witness :
  alreadyPatched signature_only = true
  /\ patchCliSource signature_only
     = Some (if recognized signature_only then alreadyPatchedReport
             else notRecognized).
Proof.
  split; [vm_compute; reflexivity|].
  apply (recognition_check_first signature_only). vm_compute. reflexivity.
Defined.

(** ** Extraction is all or nothing *)

Lemma extract_some_all_match (source : jsstring) (n : MinifiedNames) :
  extractMinifiedNames source = Some n ->
  exists m1 m2 m3 m4 m5 m6,
    regex_match tmuxClassRe source = Some m1
    /\ regex_match cascadeRe source = Some m2
    /\ regex_match execRe source = Some m3
    /\ regex_match iterm2Re source = Some m4
    /\ regex_match logRe source = Some m5
    /\ regex_match tmuxSyncRe source = Some m6
    /\ n = {| tmuxBackendClass := group m1 1;
              tmuxFactory := group m2 2;
              iterm2Factory := group m4 1;
              cachedBackendRef := group m2 3;
              cachedResultVar := group m2 4;
              execFn := group m3 1;
              logFn := group m5 1;
              isInsideTmuxSyncFn := group m6 1 |}.
Proof.
  unfold extractMinifiedNames.
  destruct (regex_match tmuxClassRe source) as [m1|]; [|discriminate].
  destruct (regex_match cascadeRe source) as [m2|]; [|discriminate].
  destruct (regex_match execRe source) as [m3|]; [|discriminate].
  destruct (regex_match iterm2Re source) as [m4|]; [|discriminate].
  destruct (regex_match logRe source) as [m5|]; [|discriminate].
  destruct (regex_match tmuxSyncRe source) as [m6|]; [|discriminate].
  intros H. injection H as <-. exists m1, m2, m3, m4, m5, m6.
  repeat split; reflexivity.
Qed.

(** C5. When one of the six role patterns finds nothing, no bundle is
    returned, and the patcher makes no edit: its report has no applied
    patch, no warning and no patched text, and past the two guards it is
    the extraction failure. *)
Theorem extraction_all_or_nothing (source : jsstring) :
  some_role_fails source ->
  extractMinifiedNames source = None
  /\ exists r, patchCliSource source = Some r
      /\ success r = false /\ patchedSource r = None
      /\ appliedPatches r = [] /\ warnings r = []
      /\ (recognized source = true -> alreadyPatched source = false ->
          r = extractionFailed).
Proof.
  intros H.
  assert (E : extractMinifiedNames source = None).
  { destruct (extractMinifiedNames source) as [n|] eqn:E; [|reflexivity].
    destruct (extract_some_all_match _ _ E)
      as (m1 & m2 & m3 & m4 & m5 & m6 & H1 & H2 & H3 & H4 & H5 & H6 & _).
    unfold some_role_fails in H. rewrite H1, H2, H3, H4, H5, H6 in H.
    repeat (destruct H as [H|H]; [discriminate|]). discriminate. }
  split; [exact E|].
  destruct (recognized source) eqn:R.
  - destruct (alreadyPatched source) eqn:A.
    + exists alreadyPatchedReport. rewrite patchCliSource_already by assumption.
      repeat split; try reflexivity. discriminate.
    + exists extractionFailed. rewrite patchCliSource_no_names by assumption.
      repeat split; reflexivity.
  - exists notRecognized. rewrite patchCliSource_not_recognized by assumption.
    repeat split; try reflexivity. discriminate.
Qed.

Lemma extraction_all_or_nothing_witness :
  some_role_fails sample_no_log
  /\ extractMinifiedNames sample_no_log = None
  /\ exists r, patchCliSource sample_no_log = Some r
      /\ success r = false /\ patchedSource r = None
      /\ appliedPatches r = [] /\ warnings r = []
      /\ (recognized sample_no_log = true -> alreadyPatched sample_no_log = false ->
          r = extractionFailed).
Proof.
  assert (H : some_role_fails sample_no_log).
  { unfold some_role_fails. do 4 right. left. vm_compute. reflexivity. }
  split; [exact H|]. exact (extraction_all_or_nothing sample_no_log H).
Defined.

(** ** A text without the markers is refused before extraction *)

(** C6. A text that lacks one of the two markers is reported as not
    recognized, with no success and no patched text, whatever the name
    extraction would do on it: the extraction is a parameter of
    [patchCliSourceWith], and the result does not depend on it. *)
Theorem not_recognized_before_extraction
  (extract : jsstring -> option MinifiedNames) (source : jsstring) :
  includes (js "BackendRegistry") source = false
  \/ includes (js "type=" ++ quoted "tmux") source = false ->
  patchCliSourceWith extract source = Some notRecognized
  /\ patchCliSource source = Some notRecognized
  /\ success notRecognized = false
  /\ patchedSource notRecognized = None.
Proof.
  intros H.
  assert (G : negb (includes (js "BackendRegistry") source)
              || negb (includes (js "type=" ++ quoted "tmux") source) = true).
  { destruct H as [-> | ->]; simpl; [reflexivity | apply orb_true_r]. }
  unfold patchCliSource, patchCliSourceWith. rewrite G. repeat split.
Qed.

Lemma not_recognized_before_extraction_witness :
  (includes (js "BackendRegistry") signature_only = false
   \/ includes (js "type=" ++ quoted "tmux") signature_only = false)
  /\ patchCliSourceWith (fun _ => None) signature_only = Some notRecognized
  /\ patchCliSource signature_only = Some notRecognized
  /\ success notRecognized = false
  /\ patchedSource notRecognized = None.
Proof.
  assert (H : includes (js "BackendRegistry") signature_only = false
              \/ includes (js "type=" ++ quoted "tmux") signature_only = false).
  { left. vm_compute. reflexivity. }
  split; [exact H|].
  exact (not_recognized_before_extraction (fun _ => None) signature_only H).
Defined.

(** ** The edit phase *)

Lemma sample_edit_phase : edit_phase sample_cli sample_names.
Proof. repeat split; vm_compute; reflexivity. Qed.

Lemma sample_no_error_edit_phase : edit_phase sample_no_error sample_names.
Proof. repeat split; vm_compute; reflexivity. Qed.

(** The run of the six edits from [source]: the states between them. *)
Lemma edit_phase_chain (source : jsstring) (n : MinifiedNames) :
  edit_phase source n ->
  exists mid st5,
    let st0 := initial source in
    let st1 := patch1 n st0 in
    let st2 := patch2 n st1 in
    let st3 := patch3 n st2 in
    let st4 := patch4 n st3 in
    let st6 := patch6 n st5 in
    patch5_pair (find1, replace1) st4 = Some mid
    /\ patch5_pair (find2, replace2) mid = Some st5
    /\ patch5 st4 = Some st5
    /\ patchCliSource source = Some (report st6)
    /\ message_step (includes find1 (code st4)) find1 st4 mid
    /\ message_step (includes find2 (code mid)) find2 mid st5.
Proof.
  intros (R & A & E).
  destruct (patch5_steps (patch4 n (patch3 n (patch2 n (patch1 n (initial source))))))
    as (mid & st5 & H1 & H2 & H & S1 & S2).
  exists mid, st5. cbv zeta. repeat split; try assumption; try apply S1; try apply S2.
  rewrite (patchCliSource_edits source n R A E). unfold run_edits. now rewrite H.
Qed.

(** C7. Past the guards and the extraction every edit is attempted, in
    order, on the text its predecessor left.  An edit whose anchor check
    fails adds its named failure to [failed] and changes nothing else:
    the working text, [applied] and the warnings are as before it. *)
Theorem failed_edit_changes_nothing (source : jsstring) (n : MinifiedNames) :
  edit_phase source n ->
  exists st5,
    let st0 := initial source in
    let st1 := patch1 n st0 in
    let st2 := patch2 n st1 in
    let st3 := patch3 n st2 in
    let st4 := patch4 n st3 in
    let st6 := patch6 n st5 in
    patch5 st4 = Some st5
    /\ patchCliSource source = Some (report st6)
    /\ structural_step (anchor1 n (code st0)) applied1 failed1 st0 st1
    /\ structural_step (anchor2 (code st1)) applied2 (failure2 (code st1)) st1 st2
    /\ structural_step (anchor3 (code st2)) applied3 failed3 st2 st3
    /\ structural_step (anchor4 n (code st3)) applied4 failed4 st3 st4
    /\ failed st5 = failed st4
    /\ structural_step (anchor6 n (code st5)) applied6 failed6 st5 st6.
Proof.
  intros H. destruct (edit_phase_chain source n H)
    as (mid & st5 & _ & _ & H5 & Hr & S1 & S2).
  exists st5. cbv zeta. repeat split; try assumption;
    try apply patch1_step; try apply patch2_step; try apply patch3_step;
    try apply patch4_step; try apply patch6_step.
  destruct S1 as (_ & F1 & _), S2 as (_ & F2 & _). congruence.
Qed.

Lemma failed_edit_changes_nothing_witness :
  edit_phase sample_no_error sample_names
  /\ exists st5,
    let st0 := initial sample_no_error in
    let st1 := patch1 sample_names st0 in
    let st2 := patch2 sample_names st1 in
    let st3 := patch3 sample_names st2 in
    let st4 := patch4 sample_names st3 in
    let st6 := patch6 sample_names st5 in
    patch5 st4 = Some st5
    /\ patchCliSource sample_no_error = Some (report st6)
    /\ structural_step (anchor1 sample_names (code st0)) applied1 failed1 st0 st1
    /\ structural_step (anchor2 (code st1)) applied2 (failure2 (code st1)) st1 st2
    /\ structural_step (anchor3 (code st2)) applied3 failed3 st2 st3
    /\ structural_step (anchor4 sample_names (code st3)) applied4 failed4 st3 st4
    /\ failed st5 = failed st4
    /\ structural_step (anchor6 sample_names (code st5)) applied6 failed6 st5 st6.
Proof.
  assert (H : edit_phase sample_no_error sample_names).
  { repeat split; vm_compute; reflexivity. }
  split; [exact H|].
  exact (failed_edit_changes_nothing sample_no_error sample_names H).
Defined.

(** C10. Past the guards and the extraction the report has seven
    entries: each of the five structural edits is in [appliedPatches] or
    in [failedPatches], each of the two message replacements is in
    [appliedPatches] or in [warnings], and nothing else is listed. *)
Theorem report_has_seven_entries (source : jsstring) (n : MinifiedNames) :
  edit_phase source n ->
  exists r b1 b2 b3 b4 m1 m2 b6 f2,
    patchCliSource source = Some r
    /\ (f2 = failed2 \/ f2 = failed2_scan)
    /\ appliedPatches r
       = pick b1 applied1 ++ pick b2 applied2 ++ pick b3 applied3
         ++ pick b4 applied4 ++ pick m1 (applied5 find1)
         ++ pick m2 (applied5 find2) ++ pick b6 applied6
    /\ failedPatches r
       = pick (negb b1) failed1 ++ pick (negb b2) f2 ++ pick (negb b3) failed3
         ++ pick (negb b4) failed4 ++ pick (negb b6) failed6
    /\ warnings r
       = pick (negb m1) (warning5 find1) ++ pick (negb m2) (warning5 find2)
    /\ List.length (appliedPatches r) + List.length (failedPatches r)
       + List.length (warnings r) = 7.
Proof.
  intros H. destruct (edit_phase_chain source n H)
    as (mid & st5 & _ & _ & _ & Hr & S5a & S5b).
  cbv zeta in Hr, S5a, S5b.
  set (st0 := initial source) in *.
  pose proof (patch1_step n st0) as S1. set (st1 := patch1 n st0) in *.
  pose proof (patch2_step n st1) as S2. set (st2 := patch2 n st1) in *.
  pose proof (patch3_step n st2) as S3. set (st3 := patch3 n st2) in *.
  pose proof (patch4_step n st3) as S4. set (st4 := patch4 n st3) in *.
  pose proof (patch6_step n st5) as S6. set (st6 := patch6 n st5) in *.
  destruct S1 as (A1 & F1 & W1 & _), S2 as (A2 & F2 & W2 & _),
           S3 as (A3 & F3 & W3 & _), S4 as (A4 & F4 & W4 & _),
           S5a as (A5a & F5a & W5a & _), S5b as (A5b & F5b & W5b & _),
           S6 as (A6 & F6 & W6 & _).
  exists (report st6), (anchor1 n (code st0)), (anchor2 (code st1)),
    (anchor3 (code st2)), (anchor4 n (code st3)), (includes find1 (code st4)),
    (includes find2 (code mid)), (anchor6 n (code st5)), (failure2 (code st1)).
  assert (EA : applied st6
               = pick (anchor1 n (code st0)) applied1
                 ++ pick (anchor2 (code st1)) applied2
                 ++ pick (anchor3 (code st2)) applied3
                 ++ pick (anchor4 n (code st3)) applied4
                 ++ pick (includes find1 (code st4)) (applied5 find1)
                 ++ pick (includes find2 (code mid)) (applied5 find2)
                 ++ pick (anchor6 n (code st5)) applied6).
  { rewrite A6, A5b, A5a, A4, A3, A2, A1. simpl. now rewrite <- !app_assoc. }
  assert (EF : failed st6
               = pick (negb (anchor1 n (code st0))) failed1
                 ++ pick (negb (anchor2 (code st1))) (failure2 (code st1))
                 ++ pick (negb (anchor3 (code st2))) failed3
                 ++ pick (negb (anchor4 n (code st3))) failed4
                 ++ pick (negb (anchor6 n (code st5))) failed6).
  { rewrite F6, F5b, F5a, F4, F3, F2, F1. simpl. now rewrite <- !app_assoc. }
  assert (EW : warned st6
               = pick (negb (includes find1 (code st4))) (warning5 find1)
                 ++ pick (negb (includes find2 (code mid))) (warning5 find2)).
  { rewrite W6, W5b, W5a, W4, W3, W2, W1. reflexivity. }
  split; [exact Hr|]. split.
  { unfold failure2. destruct (includes cascadeAnchor (code st1)); tauto. }
  cbn [report appliedPatches failedPatches warnings].
  split; [exact EA|]. split; [exact EF|]. split; [exact EW|].
  rewrite EA, EF, EW.
  destruct (anchor1 n (code st0)), (anchor2 (code st1)), (anchor3 (code st2)),
    (anchor4 n (code st3)), (includes find1 (code st4)),
    (includes find2 (code mid)), (anchor6 n (code st5)); reflexivity.
Qed.

Lemma report_has_seven_entries_witness :
  edit_phase sample_cli sample_names
  /\ exists r b1 b2 b3 b4 m1 m2 b6 f2,
    patchCliSource sample_cli = Some r
    /\ (f2 = failed2 \/ f2 = failed2_scan)
    /\ appliedPatches r
       = pick b1 applied1 ++ pick b2 applied2 ++ pick b3 applied3
         ++ pick b4 applied4 ++ pick m1 (applied5 find1)
         ++ pick m2 (applied5 find2) ++ pick b6 applied6
    /\ failedPatches r
       = pick (negb b1) failed1 ++ pick (negb b2) f2 ++ pick (negb b3) failed3
         ++ pick (negb b4) failed4 ++ pick (negb b6) failed6
    /\ warnings r
       = pick (negb m1) (warning5 find1) ++ pick (negb m2) (warning5 find2)
    /\ List.length (appliedPatches r) + List.length (failedPatches r)
       + List.length (warnings r) = 7.
Proof.
  assert (H : edit_phase sample_cli sample_names).
  { repeat split; vm_compute; reflexivity. }
  split; [exact H|].
  exact (report_has_seven_entries sample_cli sample_names H).
Defined.

(** ** Occurrences across a cut

    An edit inserts text at a cut [a | b] of the working text.  An
    occurrence of an anchor in [a ++ b] lies in [a], lies in [b], or
    straddles the cut; only one that straddles the cut is lost by the
    insertion, and only one that touches the inserted text is new. *)

Lemma endsWith_iff (w s : jsstring) :
  endsWith w s = true <-> exists u, s = u ++ w.
Proof.
  unfold endsWith. rewrite startsWith_iff. split.
  - intros [t H]. exists (rev t).
    rewrite <- (rev_involutive s), H, rev_app_distr. now rewrite rev_involutive.
  - intros [u ->]. exists (rev u). now rewrite rev_app_distr.
Qed.

Lemma includes_app_cases (p a b : jsstring) :
  includes p (a ++ b) = true ->
  includes p a = true \/ includes p b = true \/ straddles p a b.
Proof.
  intros H. apply includes_iff in H as (u & v & E).
  apply app_eq_app in E as [l [[Ha El] | [Hu Eb]]].
  - apply app_eq_app in El as [k [[Hp Hb] | [Hl Hv]]].
    + destruct l as [|l0 l].
      { right. left. simpl in Hp. subst k. apply includes_iff.
        exists [], v. now rewrite Hb. }
      destruct k as [|k0 k].
      { left. rewrite app_nil_r in Hp. subst p. apply includes_iff.
        exists u, []. now rewrite app_nil_r. }
      right. right. exists (l0 :: l), (k0 :: k), u, v.
      repeat split; try assumption; discriminate.
    + left. apply includes_iff. exists u, k. now rewrite Ha, Hl.
  - right. left. apply includes_iff. exists l, v. exact Eb.
Qed.

Lemma last_in_suffix (x y : jsstring) :
  y <> [] -> In (List.last (x ++ y) 0%N) y.
Proof.
  intros Hy. destruct (exists_last Hy) as (y' & z & ->).
  rewrite app_assoc, last_last. apply in_or_app. right. now left.
Qed.

Lemma hd_in_prefix (x y : jsstring) : x <> [] -> In (List.hd 0%N (x ++ y)) x.
Proof. destruct x; [congruence | intros _; now left]. Qed.

Lemma clear_before_sound (p w a b' : jsstring) :
  clear_before p w = true -> ~ straddles p a (w ++ b').
Proof.
  unfold clear_before. rewrite andb_true_iff, !negb_true_iff. intros [Hl Hw].
  intros (x & y & a' & b'' & Hp & Hx & Hy & Ha & Hb).
  apply app_eq_app in Hb as [l [[E1 E2] | [E1 E2]]].
  - (* [y] is a prefix of [w]: the last character of [p] is in [w] *)
    apply has_false in Hl. apply Hl. rewrite Hp, E1.
    apply in_or_app. left. now apply last_in_suffix.
  - (* [w] is a prefix of [y]: it occurs in [p] past the first character *)
    assert (H : includes w (List.tl p) = true).
    { rewrite Hp, E1. destruct x as [|x0 x]; [congruence|]. simpl.
      apply includes_iff. exists x, l. reflexivity. }
    congruence.
Qed.

Lemma clear_after_sound (p w a' b : jsstring) :
  clear_after p w = true -> ~ straddles p (a' ++ w) b.
Proof.
  unfold clear_after. rewrite andb_true_iff, !negb_true_iff. intros [Hh Hw].
  intros (x & y & a'' & b' & Hp & Hx & Hy & Ha & Hb).
  apply app_eq_app in Ha as [l [[E1 E2] | [E1 E2]]].
  - (* [w] is a suffix of [x] *)
    assert (H : includes w (List.removelast p) = true).
    { rewrite Hp, E2, <- app_assoc. rewrite removelast_app.
      2:{ destruct w; simpl; [assumption | discriminate]. }
      rewrite removelast_app by assumption.
      apply includes_iff. exists l, (List.removelast y). reflexivity. }
    congruence.
  - (* [x] is a suffix of [w] *)
    apply has_false in Hh. apply Hh. rewrite Hp, E2.
    apply in_or_app. right. now apply hd_in_prefix.
Qed.

(** An occurrence that does not straddle the cut survives an insertion. *)
Lemma insertion_keeps (p a ins b : jsstring) :
  ~ straddles p a b ->
  includes p (a ++ b) = true -> includes p (a ++ ins ++ b) = true.
Proof.
  intros Hs H. apply includes_app_cases in H as [H | [H | H]].
  - now apply includes_app_l.
  - apply includes_app_r. now apply includes_app_r.
  - contradiction.
Qed.

(** An insertion adds no occurrence when none lies in the inserted text
    and none straddles its two ends. *)
Lemma insertion_adds_nothing (p a ins b : jsstring) :
  includes p ins = false ->
  ~ straddles p a (ins ++ b) ->
  ~ straddles p ins b ->
  includes p (a ++ ins ++ b) = true -> includes p (a ++ b) = true.
Proof.
  intros Hi Hl Hr H. apply includes_app_cases in H as [H | [H | H]].
  - now apply includes_app_l.
  - apply includes_app_cases in H as [H | [H | H]].
    + congruence.
    + now apply includes_app_r.
    + contradiction.
  - contradiction.
Qed.

Lemma insertion_neutral (p a ins b : jsstring) :
  ~ straddles p a b ->
  includes p ins = false ->
  ~ straddles p a (ins ++ b) ->
  ~ straddles p ins b ->
  includes p (a ++ ins ++ b) = includes p (a ++ b).
Proof.
  intros H1 H2 H3 H4.
  destruct (includes p (a ++ b)) eqn:E.
  - now apply insertion_keeps.
  - destruct (includes p (a ++ ins ++ b)) eqn:E'; [|reflexivity].
    rewrite <- E. symmetry. now apply (insertion_adds_nothing p a ins b).
Qed.

(** A character outside [p] separates the occurrences of [p]. *)
Lemma includes_delimiter (p x y : jsstring) (d : N) :
  has d p = false ->
  includes p (x ++ d :: y) = includes p x || includes p y.
Proof.
  intros Hd. apply has_false in Hd.
  destruct (includes p x) eqn:Ex; simpl.
  { now apply includes_app_l. }
  destruct (includes p y) eqn:Ey.
  { apply includes_app_r. change (d :: y) with ([d] ++ y). now apply includes_app_r. }
  destruct (includes p (x ++ d :: y)) eqn:E; [|reflexivity].
  exfalso. apply includes_app_cases in E as [E | [E | E]].
  - congruence.
  - change (d :: y) with ([d] ++ y) in E.
    apply includes_app_cases in E as [E | [E | E]].
    + apply includes_iff in E as (u & v & E).
      destruct p as [|p0 p].
      { assert (includes [] x = true) by (apply includes_iff; now exists [], x).
        congruence. }
      destruct u as [|u0 u]; simpl in E.
      * injection E as -> _. apply Hd. now left.
      * injection E as _ E. destruct u; discriminate.
    + congruence.
    + destruct E as (x' & y' & a' & b' & Hp & Hx & Hy & Ha & _).
      apply Hd. rewrite Hp. apply in_or_app. left.
      destruct a' as [|a0 a']; simpl in Ha.
      * subst x'. now left.
      * injection Ha as _ Ha. destruct a'; [|discriminate].
        simpl in Ha. congruence.
  - destruct E as (x' & y' & a' & b' & Hp & Hx & Hy & _ & Hb).
    apply Hd. rewrite Hp. apply in_or_app. right.
    destruct y' as [|y0 y']; [congruence|]. injection Hb as -> _. now left.
Qed.

(** A text that lacks a character of [p] has no occurrence of [p]. *)
Lemma includes_missing (p s : jsstring) (c : N) :
  has c p = true -> has c s = false -> includes p s = false.
Proof.
  intros Hp Hs. destruct (includes p s) eqn:E; [|reflexivity].
  apply includes_iff in E as (a & b & ->).
  rewrite !has_app, Hp in Hs. simpl in Hs. now rewrite orb_true_r in Hs.
Qed.

(** ** Texts with holes

    The generated code and three anchors are template literals: fixed
    characters around extracted names.  A template is a list of
    characters and holes; [inst rho t] fills hole [k] with [rho k]. *)

Lemma inst_app (rho : nat -> jsstring) (t1 t2 : list tok) :
  inst rho (t1 ++ t2) = inst rho t1 ++ inst rho t2.
Proof.
  induction t1 as [|[c|k] t1 IH]; simpl; [reflexivity| |].
  - now rewrite IH.
  - now rewrite IH, app_assoc.
Qed.

Lemma inst_lit (rho : nat -> jsstring) (s : jsstring) : inst rho (lit s) = s.
Proof. induction s as [|c s IH]; simpl; [reflexivity | now rewrite IH]. Qed.

Lemma inst_name (rho : nat -> jsstring) (k : nat) : inst rho [Nm k] = rho k.
Proof. simpl. apply app_nil_r. Qed.

Lemma split_hard_spec (p u v : jsstring) (h : N) :
  split_hard p = Some (u, h, v) -> p = u ++ h :: v /\ is_ident h = false.
Proof.
  revert u; induction p as [|c p IH]; intros u H; simpl in H; [discriminate|].
  destruct (is_ident c) eqn:E.
  - destruct (split_hard p) as [[[u' h'] v']|]; [|discriminate].
    injection H as <- <- <-. destruct (IH u' eq_refl) as [-> Hh].
    now split.
  - injection H as <- <- <-. now split.
Qed.

Lemma ident_names_no_hard (rho : nat -> jsstring) (k : nat) (h : N) :
  ident_names rho -> is_ident h = false -> ~ In h (rho k).
Proof.
  intros Hr Hh Hi. specialize (Hr k). rewrite forallb_forall in Hr.
  apply Hr in Hi. congruence.
Qed.

(** A character that no name can hold is a character of the template. *)
Lemma inst_split_hard (rho : nat -> jsstring) (h : N) (t : list tok) (X Y : jsstring) :
  ident_names rho -> is_ident h = false ->
  inst rho t = X ++ h :: Y ->
  exists t1 t2, t = t1 ++ Ch h :: t2 /\ X = inst rho t1 /\ Y = inst rho t2.
Proof.
  intros Hr Hh. revert X; induction t as [|[c|k] t IH]; intros X E; simpl in E.
  - destruct X; discriminate.
  - destruct X as [|x X]; simpl in E.
    + injection E as -> <-. exists [], t. now repeat split.
    + injection E as -> E. destruct (IH X E) as (t1 & t2 & -> & -> & ->).
      exists (Ch x :: t1), t2. now repeat split.
  - apply app_eq_app in E as [l [[E1 E2] | [E1 E2]]].
    + (* [rho k = X ++ l] and [h :: Y = l ++ inst rho t] *)
      destruct l as [|l0 l]; simpl in E2.
      * rewrite app_nil_r in E1. subst X.
        destruct (IH [] (eq_sym E2)) as (t1 & t2 & -> & E3 & ->).
        exists (Nm k :: t1), t2. simpl. rewrite <- E3, app_nil_r. now repeat split.
      * injection E2 as <- _. exfalso.
        apply (ident_names_no_hard rho k h Hr Hh). rewrite E1.
        apply in_or_app. right. now left.
    + destruct (IH l E2) as (t1 & t2 & -> & -> & ->).
      exists (Nm k :: t1), t2. simpl. now repeat split.
Qed.

Lemma may_prefix_sound (rho : nat -> jsstring) (v : jsstring) (t : list tok) :
  startsWith v (inst rho t) = true -> may_prefix v t = true.
Proof.
  revert v; induction t as [|[c|k] t IH]; intros [|x v] H; simpl in *;
    try reflexivity; try discriminate.
  apply andb_prop in H as [H1 H2]. rewrite H1. simpl. now apply IH.
Qed.

Lemma may_suffix_sound (rho : nat -> jsstring) (u : jsstring) (t : list tok) :
  endsWith u (inst rho t) = true -> may_prefix (rev u) (rev t) = true.
Proof.
  revert u; induction t as [|tk t IH] using rev_ind; intros u H.
  - apply endsWith_iff in H as [w H]. simpl in H.
    symmetry in H. apply app_eq_nil in H as [_ ->]. reflexivity.
  - rewrite rev_app_distr. simpl.
    destruct u as [|u0 u'] using rev_ind; [reflexivity|]. clear IHu'.
    rewrite rev_app_distr. simpl. destruct tk as [c|k]; [|reflexivity].
    apply endsWith_iff in H as [w H]. rewrite inst_app in H. simpl in H.
    rewrite app_assoc in H. apply app_inj_tail in H as [H ->].
    rewrite N.eqb_refl. simpl. apply IH. apply endsWith_iff. now exists w.
Qed.

Lemma scan_at (u v : jsstring) (h : N) (t1 t2 before : list tok) :
  scan u h v before (t1 ++ Ch h :: t2) = true ->
  may_prefix (rev u) (rev t1 ++ before) && may_prefix v t2 = false.
Proof.
  revert before; induction t1 as [|tk t1 IH]; intros before H; simpl in H.
  - rewrite N.eqb_refl in H. apply andb_prop in H as [H _].
    now apply negb_true_iff in H.
  - apply andb_prop in H as [_ H]. apply IH in H.
    simpl. now rewrite <- app_assoc.
Qed.

(** The check is sound: a pattern it declares absent occurs in no
    instance of the template by names made of identifier characters. *)
Theorem absent_sound (rho : nat -> jsstring) (p : jsstring) (t : list tok) :
  ident_names rho -> absent p t = true -> includes p (inst rho t) = false.
Proof.
  intros Hr H. unfold absent in H.
  destruct (split_hard p) as [[[u h] v]|] eqn:S; [|discriminate].
  apply split_hard_spec in S as [-> Hh].
  destruct (includes (u ++ h :: v) (inst rho t)) eqn:E; [|reflexivity].
  exfalso. apply includes_iff in E as (X & Y & E).
  rewrite <- app_assoc in E. simpl in E. rewrite app_assoc in E.
  destruct (inst_split_hard rho h t _ _ Hr Hh E) as (t1 & t2 & -> & E1 & E2).
  apply scan_at in H. rewrite app_nil_r in H.
  assert (H1 : may_prefix (rev u) (rev t1) = true).
  { apply (may_suffix_sound rho). apply endsWith_iff. now exists X. }
  assert (H2 : may_prefix v t2 = true).
  { apply (may_prefix_sound rho). rewrite <- E2. apply startsWith_app. }
  rewrite H1, H2 in H. discriminate.
Qed.

(** A character that no name can hold and that the template does not
    have is in no instance. *)
Lemma has_inst (rho : nat -> jsstring) (c : N) (t : list tok) :
  ident_names rho -> is_ident c = false -> has c (fixed_chars t) = false ->
  has c (inst rho t) = false.
Proof.
  intros Hr Hc. induction t as [|[d|k] t IH]; simpl; intros H.
  - reflexivity.
  - apply orb_false_iff in H as [H1 H2]. rewrite H1. simpl. now apply IH.
  - rewrite has_app, (IH H), orb_false_r. apply has_false.
    now apply ident_names_no_hard.
Qed.

(** ** What a match looks like

    [shape r caps s caps' rest]: [s] is a text matched by [r] followed
    by [rest], where each repetition took a run of its class that is not
    empty and each capture group recorded its run. *)

Lemma greedy1_sound {R : Type} (cls : N -> bool)
  (k : jsstring -> jsstring -> option R) (taken s : jsstring) (res : R) :
  forallb cls taken = true ->
  greedy1 cls k taken s = Some res ->
  exists w s', s = w ++ s' /\ forallb cls (taken ++ w) = true
               /\ taken ++ w <> [] /\ k (taken ++ w) s' = Some res.
Proof.
  revert taken; induction s as [|c s IH]; intros taken Ht H; cbn [greedy1] in H.
  - destruct taken as [|t0 taken]; [discriminate|].
    exists [], []. rewrite !app_nil_r. repeat split; try assumption. discriminate.
  - assert (Stop : match taken with [] => None | _ :: _ => k taken (c :: s) end = Some res ->
                   exists w s', c :: s = w ++ s' /\ forallb cls (taken ++ w) = true
                                /\ taken ++ w <> [] /\ k (taken ++ w) s' = Some res).
    { intros H'. destruct taken as [|t0 taken]; [discriminate|].
      exists [], (c :: s). rewrite !app_nil_r. repeat split; try assumption. discriminate. }
    destruct (cls c) eqn:Ec; [|now apply Stop].
    destruct (greedy1 cls k (taken ++ [c]) s) as [r|] eqn:G; [|now apply Stop].
    injection H as ->.
    assert (Ht' : forallb cls (taken ++ [c]) = true).
    { rewrite forallb_app, Ht. simpl. now rewrite Ec. }
    destruct (IH _ Ht' G) as (w & s' & -> & Hw & Hn & Hk).
    exists (c :: w), s'. rewrite <- app_assoc in Hw, Hn, Hk. simpl in Hw, Hn, Hk.
    now repeat split.
Qed.

Lemma match_here_shape (r : regex) (caps : list jsstring) (s : jsstring)
  (caps' : list jsstring) (rest : jsstring) :
  match_here r caps s = Some (caps', rest) -> shape r caps s caps' rest.
Proof.
  revert caps s; induction r as [|a r IH]; intros caps s H; cbn [match_here] in H.
  - injection H as <- <-. now split.
  - destruct a as [l|cls|cls|n|]; cbn [shape].
    + destruct (startsWith l s) eqn:E; [|discriminate].
      exists (skipn (List.length l) s). split; [now apply startsWith_inv | now apply IH].
    + apply greedy1_sound in H; [|reflexivity].
      destruct H as (w & s' & -> & Hw & Hn & Hk). simpl in Hw, Hn.
      exists w, s'. repeat split; try assumption. now apply IH.
    + apply greedy1_sound in H; [|reflexivity].
      destruct H as (w & s' & -> & Hw & Hn & Hk). simpl in Hw, Hn, Hk.
      exists w, s'. repeat split; try assumption. now apply IH.
    + destruct (startsWith (nth (n - 1) caps []) s) eqn:E; [|discriminate].
      exists (skipn (List.length (nth (n - 1) caps [])) s).
      split; [now apply startsWith_inv | now apply IH].
    + destruct s; [|discriminate]. split; [reflexivity | now apply IH].
Qed.

Lemma shape_rest (r : regex) (caps : list jsstring) (s : jsstring)
  (caps' : list jsstring) (rest : jsstring) :
  shape r caps s caps' rest -> exists consumed, s = consumed ++ rest.
Proof.
  revert caps s; induction r as [|a r IH]; intros caps s H; cbn [shape] in H.
  - destruct H as [_ ->]. now exists [].
  - destruct a as [l|cls|cls|n|].
    + destruct H as (s' & -> & H). destruct (IH _ _ H) as [c ->].
      exists (l ++ c). now rewrite app_assoc.
    + destruct H as (w & s' & _ & _ & -> & H). destruct (IH _ _ H) as [c ->].
      exists (w ++ c). now rewrite app_assoc.
    + destruct H as (w & s' & _ & _ & -> & H). destruct (IH _ _ H) as [c ->].
      exists (w ++ c). now rewrite app_assoc.
    + destruct H as (s' & -> & H). destruct (IH _ _ H) as [c ->].
      eexists. now rewrite app_assoc.
    + destruct H as (-> & H). apply (IH _ _ H).
Qed.

Lemma consumed_text (s rest cons : jsstring) :
  s = cons ++ rest -> firstn (List.length s - List.length rest) s = cons.
Proof.
  intros ->. rewrite length_app, Nat.add_sub.
  now rewrite firstn_app, firstn_all, Nat.sub_diag, app_nil_r.
Qed.

(** The first match of a search: where it is, and what it matched. *)
Lemma search_from_sound (r : regex) (i : nat) (s : jsstring) (m : rmatch) :
  search_from r i s = Some m ->
  exists j rest,
    m_index m = i + j /\ j <= List.length s
    /\ match_here r [] (skipn j s) = Some (m_groups m, rest)
    /\ skipn j s = m_text m ++ rest.
Proof.
  revert i; induction s as [|c s IH]; intros i H; cbn [search_from] in H.
  - destruct (match_here r [] []) as [[caps rest]|] eqn:E; [|discriminate].
    injection H as <-.
    pose proof E as E'. apply match_here_shape, shape_rest in E' as [cons E'].
    symmetry in E'. apply app_eq_nil in E' as [_ ->].
    exists 0, []. simpl. rewrite Nat.add_0_r. repeat split; try reflexivity.
    exact E.
  - destruct (match_here r [] (c :: s)) as [[caps rest]|] eqn:E.
    + injection H as <-. exists 0, rest. cbn [m_index m_text m_groups skipn].
      rewrite Nat.add_0_r. repeat split; try reflexivity; try lia; try exact E.
      pose proof E as E'.
      apply match_here_shape, shape_rest in E' as [cons E'].
      change (S (List.length s)) with (List.length (c :: s)).
      now rewrite (consumed_text _ _ _ E').
    + destruct (IH (S i) H) as (j & rest & H1 & H2 & H3 & H4).
      exists (S j), rest. cbn [skipn List.length]. repeat split; try assumption; lia.
Qed.

Lemma regex_match_sound (r : regex) (s : jsstring) (m : rmatch) :
  regex_match r s = Some m ->
  exists j rest,
    j <= List.length s
    /\ shape r [] (skipn j s) (m_groups m) rest
    /\ skipn j s = m_text m ++ rest.
Proof.
  intros H. apply search_from_sound in H as (j & rest & _ & H2 & H3 & H4).
  exists j, rest. repeat split; try assumption. now apply match_here_shape.
Qed.

(** A search finds a match as soon as the pattern matches at some
    offset. *)
Lemma search_from_complete (r : regex) (i j : nat) (s : jsstring) :
  j <= List.length s -> match_here r [] (skipn j s) <> None ->
  search_from r i s <> None.
Proof.
  revert i j; induction s as [|c s IH]; intros i j Hj H; cbn [search_from].
  - simpl in Hj. assert (j = 0) by lia. subst j. simpl in H.
    destruct (match_here r [] []) as [[caps rest]|]; [discriminate | congruence].
  - destruct (match_here r [] (c :: s)) as [[caps rest]|] eqn:E; [discriminate|].
    destruct j as [|j]; [simpl in H; congruence|].
    apply (IH (S i) j); [simpl in Hj; lia | exact H].
Qed.

(** The names of an extracted bundle are words; the class name is made
    of identifier characters. *)
Lemma extracted_names (source : jsstring) (n : MinifiedNames) :
  extractMinifiedNames source = Some n ->
  (tmuxBackendClass n <> [] /\ forallb is_ident (tmuxBackendClass n) = true)
  /\ word (tmuxFactory n) /\ word (iterm2Factory n)
  /\ word (cachedBackendRef n) /\ word (cachedResultVar n)
  /\ word (execFn n) /\ word (logFn n) /\ word (isInsideTmuxSyncFn n).
Proof.
  intros H. apply extract_some_all_match in H
    as (m1 & m2 & m3 & m4 & m5 & m6 & H1 & H2 & H3 & H4 & H5 & H6 & ->).
  apply regex_match_sound in H1 as (j1 & r1 & _ & S1 & _).
  apply regex_match_sound in H2 as (j2 & r2 & _ & S2 & _).
  apply regex_match_sound in H3 as (j3 & r3 & _ & S3 & _).
  apply regex_match_sound in H4 as (j4 & r4 & _ & S4 & _).
  apply regex_match_sound in H5 as (j5 & r5 & _ & S5 & _).
  apply regex_match_sound in H6 as (j6 & r6 & _ & S6 & _).
  unfold group. cbn [tmuxBackendClass tmuxFactory iterm2Factory cachedBackendRef
                     cachedResultVar execFn logFn isInsideTmuxSyncFn].
  unfold tmuxClassRe in S1. cbn [shape] in S1.
  destruct S1 as (? & _ & ? & ? & _ & _ & _ & c1 & ? & Hc1 & Hc1' & _ & ? & _ & -> & _).
  unfold cascadeRe in S2. cbn [shape] in S2.
  destruct S2 as (? & _ & a1 & ? & Ha1 & Ha1' & _ & ? & _ & a2 & ? & Ha2 & Ha2' & _
                  & ? & _ & a3 & ? & Ha3 & Ha3' & _ & ? & _ & ? & _ & ? & _
                  & a4 & ? & Ha4 & Ha4' & _ & ? & _ & ? & _ & ? & _ & ? & _ & -> & _).
  unfold execRe in S3. cbn [shape] in S3.
  destruct S3 as (? & _ & ? & ? & _ & _ & _ & e1 & ? & He1 & He1' & _ & ? & _
                  & ? & ? & _ & _ & _ & ? & _ & -> & _).
  unfold iterm2Re in S4. cbn [shape] in S4.
  destruct S4 as (? & _ & ? & ? & _ & _ & _ & i1 & ? & Hi1 & Hi1' & _ & ? & _ & -> & _).
  unfold logRe in S5. cbn [shape] in S5.
  destruct S5 as (l1 & ? & Hl1 & Hl1' & _ & ? & _ & -> & _).
  unfold tmuxSyncRe in S6. cbn [shape] in S6.
  destruct S6 as (? & _ & t1 & ? & Ht1 & Ht1' & _ & ? & _ & -> & _).
  simpl. unfold word. repeat split; assumption.
Qed.

(** ** The templates of the patcher

    [env n] numbers the names of the bundle [n] that the templates use;
    the class name, which may hold a dollar, is not among them. *)

(** The template of a text built from literals and names of [n]. *)
Ltac reify n t :=
  lazymatch t with
  | ?a ++ ?b =>
      let ra := reify n a in
      let rb := reify n b in
      constr:(ra ++ rb)
  | execFn n => constr:([Nm 0])
  | logFn n => constr:([Nm 1])
  | cachedBackendRef n => constr:([Nm 2])
  | cachedResultVar n => constr:([Nm 3])
  | tmuxFactory n => constr:([Nm 4])
  | iterm2Factory n => constr:([Nm 5])
  | isInsideTmuxSyncFn n => constr:([Nm 6])
  | _ => constr:(lit t)
  end.

(** Give the template of the text on the left of the goal's first
    equation, and prove the equation. *)
Ltac give_template n :=
  lazymatch goal with
  | |- exists t, ?s = inst (env n) t /\ _ =>
      let s' := eval cbv [injected ZELLIJ_DETECTION_CODE ZELLIJ_BACKEND_CLASS
                          zellijCheck zellijFallback backendByTypeAnchor
                          inProcessAnchor join] in s in
      let t := reify n s' in
      let t' := eval vm_compute in t in
      exists t'; split;
      [ transitivity (inst (env n) t);
        [ cbv [injected ZELLIJ_DETECTION_CODE ZELLIJ_BACKEND_CLASS
               zellijCheck zellijFallback backendByTypeAnchor
               inProcessAnchor join];
          rewrite ?inst_app, ?inst_lit, ?inst_name; reflexivity
        | apply f_equal; vm_compute; reflexivity ]
      | ]
  end.

Lemma is_word_ident (c : N) : is_word c = true -> is_ident c = true.
Proof. unfold is_ident. now intros ->. Qed.

Lemma word_ident (w : jsstring) : forallb is_word w = true -> forallb is_ident w = true.
Proof.
  rewrite !forallb_forall. intros H x Hx. apply is_word_ident. now apply H.
Qed.

Lemma env_words (n : MinifiedNames) :
  word_names n -> forall k, forallb is_word (env n k) = true.
Proof.
  intros (H1 & H2 & H3 & H4 & H5 & H6 & H7) k.
  do 7 (destruct k as [|k]; [simpl; assumption || apply H1 || apply H2 || apply H3
                             || apply H4 || apply H5 || apply H6 || apply H7|]).
  reflexivity.
Qed.

Lemma env_idents (n : MinifiedNames) : word_names n -> ident_names (env n).
Proof. intros H k. apply word_ident. now apply env_words. Qed.

Lemma must_prefix_sound (rho : nat -> jsstring) (w : jsstring) (t : list tok) :
  must_prefix w t = true -> exists b, inst rho t = w ++ b.
Proof.
  revert t; induction w as [|c w IH]; intros t H.
  - now exists (inst rho t).
  - destruct t as [|[d|k] t]; simpl in H; try discriminate.
    apply andb_prop in H as [H1 H2]. apply N.eqb_eq in H1. subst d.
    destruct (IH t H2) as [b E]. exists b. simpl. now rewrite E.
Qed.

Lemma must_suffix_sound (rho : nat -> jsstring) (w : jsstring) (t : list tok) :
  must_suffix w t = true -> exists a, inst rho t = a ++ w.
Proof.
  unfold must_suffix. revert t; induction w as [|c w IH] using rev_ind; intros t H.
  - exists (inst rho t). now rewrite app_nil_r.
  - rewrite rev_app_distr in H. simpl in H.
    destruct t as [|tk t _] using rev_ind; [discriminate|].
    rewrite rev_app_distr in H. simpl in H. destruct tk as [d|k]; [|discriminate].
    apply andb_prop in H as [H1 H2]. apply N.eqb_eq in H1. subst d.
    destruct (IH t H2) as [a E]. exists a.
    rewrite inst_app, E. simpl. now rewrite <- app_assoc.
Qed.

(** The same for a character that is not a word character, when the
    names are words. *)
Lemma has_inst_word (n : MinifiedNames) (c : N) (t : list tok) :
  word_names n -> is_word c = false -> has c (fixed_chars t) = false ->
  has c (inst (env n) t) = false.
Proof.
  intros Hn Hc. induction t as [|[d|k] t IH]; simpl; intros H.
  - reflexivity.
  - apply orb_false_iff in H as [H1 H2]. rewrite H1. simpl. now apply IH.
  - rewrite has_app, (IH H), orb_false_r. apply has_false. intros Hi.
    pose proof (env_words n Hn k) as Hw. rewrite forallb_forall in Hw.
    apply Hw in Hi. congruence.
Qed.

Lemma inert_sound (rho : nat -> jsstring) (p wl wr : jsstring) (t : list tok)
  (a b : jsstring) :
  ident_names rho -> inert p wl wr t = true ->
  includes p (inst rho t) = false
  /\ ~ straddles p a (inst rho t ++ b)
  /\ ~ straddles p (inst rho t) b.
Proof.
  intros Hr H. unfold inert in H. rewrite !andb_true_iff in H.
  destruct H as [[[[H1 H2] H3] H4] H5].
  split; [now apply absent_sound|]. split.
  - destruct (must_prefix_sound rho _ _ H2) as [b' ->].
    rewrite <- app_assoc. now apply clear_before_sound.
  - destruct (must_suffix_sound rho _ _ H3) as [a' ->].
    now apply clear_after_sound.
Qed.

(** The three inserted texts that carry names, as templates, with the
    checks that make them inert for the patterns of the later edits. *)
Lemma injected_template (n : MinifiedNames) :
  exists t, injected n = inst (env n) t
    /\ inert find1 (js "function ") nl t = true
    /\ inert find2 (js "function ") nl t = true
    /\ inert cascadeAnchor (js "function ") nl t = true.
Proof.
  give_template n. repeat split; vm_compute; reflexivity.
Qed.

Lemma zellijCheck_template (n : MinifiedNames) :
  exists t, zellijCheck n = inst (env n) t
    /\ inert find1 (js "if(") (js "}") t = true
    /\ inert find2 (js "if(") (js "}") t = true
    /\ has dollar (fixed_chars t) = false.
Proof.
  give_template n. repeat split; vm_compute; reflexivity.
Qed.

Lemma zellijFallback_template (n : MinifiedNames) :
  exists t, zellijFallback n = inst (env n) t
    /\ inert find1 (js "{let ") (js "}}") t = true
    /\ inert find2 (js "{let ") (js "}}") t = true
    /\ has dollar (fixed_chars t) = false.
Proof.
  give_template n. repeat split; vm_compute; reflexivity.
Qed.

(** ** The edits as functions of the working text *)

Lemma firstn_length_app {A : Type} (a b : list A) :
  firstn (List.length a) (a ++ b) = a.
Proof. induction a as [|x a IH]; simpl; [now destruct b | now rewrite IH]. Qed.

Lemma skipn_length_app {A : Type} (a b : list A) :
  skipn (List.length a) (a ++ b) = b.
Proof. induction a as [|x a IH]; simpl; [reflexivity | exact IH]. Qed.

Lemma includes_split (p c : jsstring) :
  includes p c = true ->
  exists a b, c = a ++ p ++ b /\ find_first p c = Some (List.length a).
Proof.
  intros H. destruct (includes_find_first _ _ H) as [i F].
  destruct (find_first_split _ _ _ F) as [E L].
  exists (firstn i c), (skipn (i + List.length p) c). split; [exact E|].
  now rewrite L.
Qed.

Lemma indexOf_found (p c : jsstring) (i : nat) :
  find_first p c = Some i -> indexOf p c = Z.of_nat i.
Proof. unfold indexOf. now intros ->. Qed.

Lemma patch1_text (n : MinifiedNames) (st : EditState) :
  code (patch1 n st) = text1 n (code st).
Proof.
  unfold text1, patch1. simpl. now destruct (includes _ (code st)).
Qed.

Lemma patch2_text (n : MinifiedNames) (st : EditState) :
  code (patch2 n st) = text2 n (code st).
Proof.
  unfold text2, patch2. simpl. destruct (includes _ (code st)); [|reflexivity].
  now destruct (regex_match letKRe _).
Qed.

Lemma patch3_text (n : MinifiedNames) (st : EditState) :
  code (patch3 n st) = text3 n (code st).
Proof.
  unfold text3, patch3. simpl. now destruct (includes _ (code st)).
Qed.

Lemma patch4_text (n : MinifiedNames) (st : EditState) :
  code (patch4 n st) = text4 n (code st).
Proof.
  unfold text4, patch4. simpl. now destruct (includes _ (code st)).
Qed.

Lemma patch6_text (n : MinifiedNames) (st : EditState) :
  code (patch6 n st) = text6 n (code st).
Proof.
  unfold text6, patch6. simpl. now destruct (includes _ (code st)).
Qed.

(** An edit whose anchor is absent leaves the text. *)
Lemma text1_absent (n : MinifiedNames) (c : jsstring) :
  anchor1 n c = false -> text1 n c = c.
Proof. unfold text1, patch1, anchor1. simpl. now intros ->. Qed.

Lemma text2_absent (n : MinifiedNames) (c : jsstring) :
  anchor2 c = false -> text2 n c = c.
Proof.
  unfold text2, patch2, anchor2, letK_found. simpl.
  destruct (includes cascadeAnchor c); [|reflexivity]. simpl.
  now destruct (regex_match letKRe _).
Qed.

Lemma text3_absent (n : MinifiedNames) (c : jsstring) :
  anchor3 c = false -> text3 n c = c.
Proof. unfold text3, patch3, anchor3. simpl. now intros ->. Qed.

Lemma text4_absent (n : MinifiedNames) (c : jsstring) :
  anchor4 n c = false -> text4 n c = c.
Proof. unfold text4, patch4, anchor4. simpl. now intros ->. Qed.

Lemma text6_absent (n : MinifiedNames) (c : jsstring) :
  anchor6 n c = false -> text6 n c = c.
Proof. unfold text6, patch6, anchor6. simpl. now intros ->. Qed.

(** The first edit inserts the generated code before the first
    occurrence of its anchor. *)
Lemma text1_present (n : MinifiedNames) (c : jsstring) :
  anchor1 n c = true ->
  exists a b, c = a ++ tmuxBackendAnchor n ++ b
              /\ text1 n c = a ++ injected n ++ tmuxBackendAnchor n ++ b.
Proof.
  unfold anchor1. intros H. destruct (includes_split _ _ H) as (a & b & E & F).
  exists a, b. split; [exact E|].
  unfold text1, patch1. cbn [code initial]. rewrite H. cbn [code push_applied set_code].
  rewrite (indexOf_found _ _ _ F), slice_prefix, slice_suffix.
  assert (E1 : firstn (List.length a) c = a) by (rewrite E; apply firstn_length_app).
  assert (E2 : skipn (List.length a) c = tmuxBackendAnchor n ++ b)
    by (rewrite E; apply skipn_length_app).
  rewrite E1, E2. unfold injected. now rewrite <- !app_assoc.
Qed.

(** [replace] with a plain replacement, at the first occurrence. *)
Lemma replace_present (p repl c : jsstring) :
  includes p c = true -> has dollar repl = false ->
  exists a b, c = a ++ p ++ b /\ replace p repl c = a ++ repl ++ b.
Proof.
  intros H Hd. destruct (includes_split _ _ H) as (a & b & E & F).
  exists a, b. split; [exact E|].
  rewrite (replace_plain p repl c _ (proj1 (has_false _ _) Hd) F).
  assert (E1 : firstn (List.length a) c = a) by (rewrite E; apply firstn_length_app).
  assert (E2 : skipn (List.length a + List.length p) c = b).
  { rewrite E, app_assoc, <- length_app. apply skipn_length_app. }
  now rewrite E1, E2.
Qed.

Lemma word_no_dollar (w : jsstring) : forallb is_word w = true -> has dollar w = false.
Proof.
  intros H. apply has_false. intros Hi. rewrite forallb_forall in H.
  apply H in Hi. discriminate.
Qed.

Lemma text3_present (n : MinifiedNames) (c : jsstring) :
  word_names n -> anchor3 c = true ->
  exists a b, c = a ++ errorAnchor ++ b
              /\ text3 n c = a ++ zellijFallback n ++ errorAnchor ++ b.
Proof.
  intros Hn H. unfold anchor3 in H.
  assert (Hd : has dollar (zellijFallback n ++ errorAnchor) = false).
  { destruct (zellijFallback_template n) as (t & -> & _ & _ & Ht).
    rewrite has_app, (has_inst_word n dollar t Hn eq_refl Ht). reflexivity. }
  destruct (replace_present _ _ _ H Hd) as (a & b & E & R).
  exists a, b. split; [exact E|].
  unfold text3, patch3. cbn [code initial]. rewrite H. cbn [code push_applied set_code].
  now rewrite R, <- app_assoc.
Qed.

Lemma text4_present (n : MinifiedNames) (c : jsstring) :
  word_names n -> anchor4 n c = true ->
  exists a b, c = a ++ backendByTypeAnchor n ++ b
              /\ text4 n c = a ++ backendByTypeAnchor n ++ zellijCase ++ b.
Proof.
  intros Hn H. unfold anchor4 in H.
  destruct Hn as (H1 & H2 & _).
  assert (Hd : has dollar (backendByTypeAnchor n ++ zellijCase) = false).
  { unfold backendByTypeAnchor. rewrite !has_app.
    rewrite (word_no_dollar _ (proj2 H1)), (word_no_dollar _ (proj2 H2)). reflexivity. }
  destruct (replace_present _ _ _ H Hd) as (a & b & E & R).
  exists a, b. split; [exact E|].
  unfold text4, patch4. cbn [code initial]. rewrite H. cbn [code push_applied set_code].
  now rewrite R, <- app_assoc.
Qed.

Lemma text6_present (n : MinifiedNames) (c : jsstring) :
  word_names n -> anchor6 n c = true ->
  exists a b, c = a ++ inProcessAnchor n ++ b
              /\ text6 n c = a ++ inProcessAnchor n ++ zellijConjunct ++ b.
Proof.
  intros Hn H. unfold anchor6 in H.
  destruct Hn as (_ & _ & _ & _ & _ & _ & H7).
  assert (Hd : has dollar (inProcessReplacement n) = false).
  { unfold inProcessReplacement. rewrite !has_app.
    rewrite (word_no_dollar _ (proj2 H7)). reflexivity. }
  destruct (replace_present _ _ _ H Hd) as (a & b & E & R).
  exists a, b. split; [exact E|].
  unfold text6, patch6. cbn [code initial]. rewrite H. cbn [code push_applied set_code].
  rewrite R. unfold inProcessReplacement, inProcessAnchor, zellijConjunct.
  now rewrite <- !app_assoc.
Qed.

(** ** The second edit: the backward scan *)

Lemma slice_window (c : jsstring) (i : nat) :
  i <= List.length c ->
  slice c (Z.max 0 (Z.of_nat i - 200)) (Z.of_nat i) = skipn (i - 200) (firstn i c).
Proof.
  intros Hi. unfold slice, rel_index.
  destruct (Z.max 0 (Z.of_nat i - 200) <? 0)%Z eqn:E1; [apply Z.ltb_lt in E1; lia|].
  destruct (Z.of_nat i <? 0)%Z eqn:E2; [apply Z.ltb_lt in E2; lia|].
  assert (H0 : Z.to_nat (Z.min (Z.max 0 (Z.of_nat i - 200)) (Z.of_nat (List.length c)))
               = i - 200) by lia.
  assert (H1 : Z.to_nat (Z.min (Z.of_nat i) (Z.of_nat (List.length c))
                         - Z.min (Z.max 0 (Z.of_nat i - 200)) (Z.of_nat (List.length c)))
               = i - (i - 200)) by lia.
  rewrite H0, H1. symmetry. apply skipn_firstn_comm.
Qed.

Lemma find_last_short (p s : jsstring) :
  List.length s < List.length p -> find_last p s = None.
Proof.
  induction s as [|c s IH]; intros H; simpl.
  - destruct p; [simpl in H; lia | reflexivity].
  - rewrite IH by (simpl in H; lia).
    destruct (startsWith p (c :: s)) eqn:E; [|reflexivity].
    apply startsWith_length in E. lia.
Qed.

(** The last occurrence of a suffix is the suffix. *)
Lemma find_last_suffix (p x : jsstring) :
  p <> [] -> find_last p (x ++ p) = Some (List.length x).
Proof.
  intros Hp. induction x as [|c x IH]; simpl.
  - destruct p as [|p0 p]; [congruence|]. cbn [find_last].
    rewrite find_last_short by (simpl; lia).
    assert (R : startsWith (p0 :: p) (p0 :: p) = true).
    { pose proof (startsWith_app (p0 :: p) []) as R. now rewrite app_nil_r in R. }
    now rewrite R.
  - now rewrite IH.
Qed.

(** The text matched by the pattern of the backward scan: it ends the
    window, begins with [let K=await] and has no brace. *)
Lemma letK_shape (mt : jsstring) (caps : list jsstring) (rest : jsstring) :
  match_here letKRe [] mt = Some (caps, rest) ->
  rest = []
  /\ (exists tl, mt = js "let " ++ tl)
  /\ has 123 mt = false.
Proof.
  intros H. apply match_here_shape in H. unfold letKRe in H. cbn [shape] in H.
  destruct H as (s1 & -> & ws & s2 & _ & Hws & -> & w1 & s3 & _ & Hw1 & ->
                 & s4 & -> & w2 & s5 & _ & Hw2 & -> & s6 & -> & -> & _ & ->).
  split; [reflexivity|]. split.
  - eexists. change (js "let K=await") with (js "let " ++ js "K=await").
    now rewrite <- app_assoc.
  - rewrite !has_app.
    assert (S : forall w, forallb is_space w = true -> has 123 w = false).
    { intros w Hw. apply has_false. intros Hi. rewrite forallb_forall in Hw.
      apply Hw in Hi. discriminate. }
    assert (W : forall w, forallb is_word w = true -> has 123 w = false).
    { intros w Hw. apply has_false. intros Hi. rewrite forallb_forall in Hw.
      apply Hw in Hi. discriminate. }
    rewrite (S ws Hws), (W w1 Hw1), (W w2 Hw2). reflexivity.
Qed.

Lemma match_here_nonempty_letK (caps : list jsstring) (rest : jsstring) :
  match_here letKRe [] [] <> Some (caps, rest).
Proof. vm_compute. discriminate. Qed.

(** When its anchor and the scan succeed, the second edit inserts the
    check before the statement that ends at the first occurrence of the
    anchor. *)
Lemma text2_present (n : MinifiedNames) (c : jsstring) :
  anchor2 c = true ->
  exists a mt b caps,
    c = a ++ mt ++ cascadeAnchor ++ b
    /\ match_here letKRe [] mt = Some (caps, [])
    /\ List.length mt <= 200
    /\ find_first cascadeAnchor c = Some (List.length (a ++ mt))
    /\ text2 n c = a ++ zellijCheck n ++ mt ++ cascadeAnchor ++ b.
Proof.
  unfold anchor2. intros H. apply andb_prop in H as [Hi Hk].
  destruct (includes_split _ _ Hi) as (pre & b & E & F).
  assert (Hlen : List.length pre <= List.length c).
  { rewrite E, length_app. lia. }
  assert (Hpre : firstn (List.length pre) c = pre).
  { rewrite E. apply firstn_length_app. }
  unfold letK_found in Hk. rewrite (indexOf_found _ _ _ F) in Hk.
  rewrite (slice_window c _ Hlen), Hpre in Hk.
  set (lo := List.length pre - 200) in *.
  set (window := skipn lo pre) in *.
  destruct (regex_match letKRe window) as [m|] eqn:M; [|discriminate].
  destruct (search_from_sound _ _ _ _ M) as (j & rest & _ & Hj & Hm & Hs).
  destruct (letK_shape _ _ _ Hm) as (-> & _ & _).
  rewrite app_nil_r in Hs.
  assert (Hne : m_text m <> []).
  { intros E0. rewrite Hs, E0 in Hm. now apply match_here_nonempty_letK in Hm. }
  assert (Hw : window = firstn j window ++ m_text m).
  { rewrite <- Hs. symmetry. apply firstn_skipn. }
  assert (Hp : pre = (firstn lo pre ++ firstn j window) ++ m_text m).
  { rewrite <- app_assoc, <- Hw. unfold window. symmetry. apply firstn_skipn. }
  exists (firstn lo pre ++ firstn j window), (m_text m), b, (m_groups m).
  assert (Ec : c = (firstn lo pre ++ firstn j window) ++ m_text m ++ cascadeAnchor ++ b).
  { rewrite E at 1. rewrite Hp at 1. now rewrite <- !app_assoc. }
  split; [exact Ec|]. split; [now rewrite <- Hs|]. split.
  { assert (List.length window <= 200).
    { unfold window, lo. rewrite length_skipn. lia. }
    rewrite Hw, length_app in H. lia. }
  split; [now rewrite <- Hp|].
  unfold text2, patch2. cbn [code initial]. rewrite Hi.
  rewrite (indexOf_found _ _ _ F), (slice_window c _ Hlen), Hpre.
  fold lo. fold window. rewrite M. cbn [code push_applied set_code].
  assert (FL : lastIndexOf (m_text m) window
               = Z.of_nat (List.length (firstn j window))).
  { unfold lastIndexOf. remember (firstn j window) as pfx. rewrite Hw.
    now rewrite (find_last_suffix _ _ Hne). }
  rewrite FL.
  assert (Ea : (Z.max 0 (Z.of_nat (List.length pre) - 200)
                + Z.of_nat (List.length (firstn j window)))%Z
               = Z.of_nat (List.length (firstn lo pre ++ firstn j window))).
  { rewrite length_app, (length_firstn lo pre). unfold lo. lia. }
  rewrite Ea, slice_prefix, slice_suffix.
  assert (E1 : firstn (List.length (firstn lo pre ++ firstn j window)) c
               = firstn lo pre ++ firstn j window).
  { rewrite Ec at 1. apply firstn_length_app. }
  assert (E2 : skipn (List.length (firstn lo pre ++ firstn j window)) c
               = m_text m ++ cascadeAnchor ++ b).
  { rewrite Ec at 1. apply skipn_length_app. }
  now rewrite E1, E2.
Qed.

(** The scan succeeds when a matching statement of at most 200
    characters ends at the first occurrence of the anchor. *)
Lemma anchor2_intro (c u mt v : jsstring) (caps : list jsstring) :
  c = u ++ mt ++ cascadeAnchor ++ v ->
  find_first cascadeAnchor c = Some (List.length (u ++ mt)) ->
  match_here letKRe [] mt = Some (caps, []) ->
  List.length mt <= 200 ->
  anchor2 c = true.
Proof.
  intros E F M L. unfold anchor2.
  assert (Hi : includes cascadeAnchor c = true).
  { apply includes_iff. exists (u ++ mt), v. now rewrite E, <- app_assoc. }
  rewrite Hi. simpl. unfold letK_found. rewrite (indexOf_found _ _ _ F).
  assert (Hlen : List.length (u ++ mt) <= List.length c).
  { rewrite E, !length_app. lia. }
  assert (Hpre : firstn (List.length (u ++ mt)) c = u ++ mt).
  { rewrite E, app_assoc. apply firstn_length_app. }
  rewrite (slice_window c _ Hlen), Hpre.
  set (lo := List.length (u ++ mt) - 200).
  assert (Hw : skipn lo (u ++ mt) = skipn lo u ++ mt).
  { rewrite skipn_app. f_equal.
    replace (lo - List.length u) with 0; [reflexivity|].
    unfold lo. rewrite length_app. lia. }
  rewrite Hw.
  destruct (regex_match letKRe (skipn lo u ++ mt)) eqn:R; [reflexivity|].
  exfalso. revert R. apply (search_from_complete _ 0 (List.length (skipn lo u))).
  - rewrite length_app. lia.
  - rewrite skipn_length_app, M. discriminate.
Qed.

(** ** Where the first occurrence is *)

Lemma find_first_minimal (p s s1 s2 : jsstring) (i : nat) :
  find_first p s = Some i -> s = s1 ++ p ++ s2 -> i <= List.length s1.
Proof.
  revert i s1; induction s as [|c s IH]; intros i s1 F E; cbn [find_first] in F.
  - destruct (startsWith p []); [injection F as <-; lia | discriminate].
  - destruct (startsWith p (c :: s)) eqn:S; [injection F as <-; lia|].
    destruct (find_first p s) as [j|] eqn:F'; [|discriminate]. injection F as <-.
    destruct s1 as [|d s1]; simpl in E.
    + rewrite E, startsWith_app in S. discriminate.
    + injection E as _ E. specialize (IH j s1 eq_refl E). simpl. lia.
Qed.

Lemma removelast_length (p : jsstring) :
  p <> [] -> List.length (List.removelast p) + 1 = List.length p.
Proof.
  intros Hp. rewrite (app_removelast_last 0%N Hp) at 2.
  rewrite length_app. reflexivity.
Qed.

(** The first occurrence of [p] in [x ++ p ++ y] is the one after [x]
    exactly when [p] does not occur in [x] followed by all of [p] but
    its last character. *)
Lemma find_first_at (p x y : jsstring) :
  p <> [] -> includes p (x ++ List.removelast p) = false ->
  find_first p (x ++ p ++ y) = Some (List.length x).
Proof.
  intros Hp H. destruct (find_first_app x p y) as (i & F & Hi).
  destruct (Nat.eq_dec i (List.length x)) as [->|Hne]; [exact F|].
  exfalso. destruct (find_first_split _ _ _ F) as [E L].
  set (s1 := firstn i (x ++ p ++ y)) in *.
  set (s2 := skipn (i + List.length p) (x ++ p ++ y)) in *.
  assert (P : List.removelast p ++ [List.last p 0%N] = p).
  { symmetry. now apply app_removelast_last. }
  assert (E' : (x ++ List.removelast p) ++ (List.last p 0%N :: y) = (s1 ++ p) ++ s2).
  { rewrite <- !app_assoc. rewrite <- E.
    change (List.last p 0%N :: y) with ([List.last p 0%N] ++ y).
    now rewrite (app_assoc (List.removelast p)), P. }
  assert (T : includes p (x ++ List.removelast p) = true); [|congruence].
  apply app_eq_app in E' as [k [[E1 E2] | [E1 E2]]].
  - apply includes_iff. exists s1, k. now rewrite E1, <- app_assoc.
  - pose proof (f_equal (@List.length N) E1) as E3. rewrite !length_app in E3.
    pose proof (removelast_length p Hp).
    destruct k as [|k0 k]; [|simpl in E3; lia].
    rewrite app_nil_r in E1. apply includes_iff. exists s1, [].
    now rewrite app_nil_r.
Qed.

Lemma find_first_at_inv (p x y : jsstring) :
  p <> [] -> find_first p (x ++ p ++ y) = Some (List.length x) ->
  includes p (x ++ List.removelast p) = false.
Proof.
  intros Hp F. destruct (includes p (x ++ List.removelast p)) eqn:E; [|reflexivity].
  exfalso. apply includes_iff in E as (s1 & s2 & E).
  assert (E' : x ++ p ++ y = s1 ++ p ++ (s2 ++ [List.last p 0%N] ++ y)).
  { rewrite (app_removelast_last 0%N Hp) at 1.
    rewrite <- app_assoc, app_assoc, E. now rewrite <- !app_assoc. }
  pose proof (find_first_minimal _ _ _ _ _ F E') as Hm.
  apply (f_equal (@List.length N)) in E. rewrite !length_app in E.
  pose proof (removelast_length p Hp). lia.
Qed.

(** Two texts that are equal have their marked characters at the same
    place. *)
Lemma cross_chars (x y u v : jsstring) (c d : N) :
  x ++ c :: y = u ++ d :: v -> has c u = false -> has d x = false -> c <> d -> False.
Proof.
  intros E Hc Hd Hne. apply has_false in Hc. apply has_false in Hd.
  apply app_eq_app in E as [l [[E1 E2] | [E1 E2]]].
  - destruct l as [|l0 l]; simpl in E2.
    + injection E2 as -> _. congruence.
    + injection E2 as <- _. apply Hd. rewrite E1. apply in_or_app. right. now left.
  - destruct l as [|l0 l]; simpl in E2.
    + injection E2 as -> _. congruence.
    + injection E2 as <- _. apply Hc. rewrite E1. apply in_or_app. right. now left.
Qed.

(** ** The static checks of the anchors *)

Lemma cascadeAnchor_checks :
  clear_before cascadeAnchor (js "class ") = true
  /\ cascadeAnchor = 91%N :: List.tl cascadeAnchor.
Proof. split; vm_compute; reflexivity. Qed.

Lemma tmuxBackendAnchor_head (n : MinifiedNames) (b : jsstring) :
  tmuxBackendAnchor n ++ b
  = js "class " ++ tmuxBackendClass n ++ 123%N :: typeTmux ++ b.
Proof.
  unfold tmuxBackendAnchor, typeTmux.
  change (js "{type=") with (123%N :: js "type="). now rewrite <- !app_assoc.
Qed.

(** The scan of the second edit still succeeds after the first edit. *)
Lemma scan_survives_injection (n : MinifiedNames) (a b : jsstring) :
  word_names n -> forallb is_ident (tmuxBackendClass n) = true ->
  anchor2 (a ++ tmuxBackendAnchor n ++ b) = true ->
  anchor2 (a ++ injected n ++ tmuxBackendAnchor n ++ b) = true.
Proof.
  intros Hn Hc H.
  set (b0 := tmuxBackendAnchor n ++ b) in *.
  destruct (text2_present n _ H) as (u & mt & v & caps & E & M & L & F & _).
  destruct (letK_shape _ _ _ M) as (_ & _ & Hbrace).
  assert (Hne : cascadeAnchor <> []) by discriminate.
  assert (Hearly : includes cascadeAnchor ((u ++ mt) ++ List.removelast cascadeAnchor) = false).
  { apply (find_first_at_inv _ _ v Hne). rewrite <- F. f_equal.
    now rewrite E, <- app_assoc. }
  destruct cascadeAnchor_checks as [Hclear Hhead].
  assert (Hb0 : b0 = (js "class " ++ tmuxBackendClass n) ++ 123%N :: typeTmux ++ b).
  { unfold b0. now rewrite tmuxBackendAnchor_head, <- app_assoc. }
  assert (Hsq : has 91 (js "class " ++ tmuxBackendClass n) = false).
  { rewrite has_app. simpl. apply has_false. intros Hi. rewrite forallb_forall in Hc.
    apply Hc in Hi. discriminate. }
  assert (Cross : forall m2 w, has 123 m2 = false -> b0 = m2 ++ cascadeAnchor ++ w -> False).
  { intros m2 w Hm2 Eb. rewrite Hb0, Hhead in Eb. symmetry in Eb.
    apply (cross_chars m2 (List.tl cascadeAnchor ++ w)
             (js "class " ++ tmuxBackendClass n) (typeTmux ++ b) 91%N 123%N
             Eb Hsq Hm2).
    discriminate. }
  assert (Same : forall k, anchor2 (u ++ mt ++ cascadeAnchor ++ k) = true).
  { intros k. apply (anchor2_intro _ u mt k caps); try assumption; [reflexivity|].
    rewrite app_assoc. now apply find_first_at. }
  apply app_eq_app in E as [l [[Ha El] | [Hu Eb]]].
  - rewrite app_assoc in El. apply app_eq_app in El as [k [[Hk Hb] | [Hl Hv]]].
    + destruct k as [|k0 k].
      * rewrite app_nil_r in Hk. subst l. rewrite Ha, <- !app_assoc. apply Same.
      * exfalso. apply app_eq_app in Hk as [m2 [[Hm Hk2] | [Hl2 HA]]].
        -- apply (Cross m2 v).
           ++ rewrite Hm, has_app in Hbrace. now apply orb_false_iff in Hbrace as [_ ?].
           ++ now rewrite Hb, Hk2, <- app_assoc.
        -- destruct m2 as [|m0 m2].
           ++ cbn [app] in HA. apply (Cross [] v); [reflexivity|]. cbn [app].
              now rewrite Hb, HA.
           ++ apply (clear_before_sound cascadeAnchor (js "class ") a
                       (tmuxBackendClass n ++ 123%N :: typeTmux ++ b) Hclear).
              exists (m0 :: m2), (k0 :: k), (u ++ mt), v.
              repeat split; try assumption; try discriminate.
              ** now rewrite Ha, Hl2, app_assoc.
              ** rewrite <- Hb. unfold b0. symmetry. apply tmuxBackendAnchor_head.
    + rewrite Ha, Hl, <- !app_assoc. apply Same.
  - rewrite Eb, Hu in *.
    destruct (injected_template n) as (t & Et & _ & _ & Ht).
    destruct (inert_sound (env n) _ _ _ t a (l ++ mt ++ List.removelast cascadeAnchor)
                (env_idents n Hn) Ht) as (I1 & I2 & I3).
    rewrite <- Et in I1, I2, I3.
    replace (a ++ injected n ++ l ++ mt ++ cascadeAnchor ++ v)
      with ((a ++ injected n ++ l) ++ mt ++ cascadeAnchor ++ v)
      by now rewrite <- !app_assoc.
    apply (anchor2_intro _ (a ++ injected n ++ l) mt v caps); try assumption;
      [reflexivity|].
    rewrite app_assoc. apply find_first_at; [assumption|].
    destruct (includes cascadeAnchor
                (((a ++ injected n ++ l) ++ mt) ++ List.removelast cascadeAnchor))
      eqn:X; [|reflexivity].
    rewrite <- Hearly. symmetry.
    replace (((a ++ l) ++ mt) ++ List.removelast cascadeAnchor)
      with (a ++ l ++ mt ++ List.removelast cascadeAnchor)
      by now rewrite <- !app_assoc.
    apply (insertion_adds_nothing _ a (injected n)); try assumption.
    now rewrite <- X, <- !app_assoc.
Qed.

(** ** Anchors that carry names *)

Lemma rev_cons_inv {A : Type} (t : list A) (x : A) (rt : list A) :
  rev t = x :: rt -> t = rev rt ++ [x].
Proof.
  intros H. rewrite <- (rev_involutive t), H. reflexivity.
Qed.

Lemma tclear_before_sound (rho : nat -> jsstring) (t : list tok) (w a b' : jsstring) :
  ident_names rho -> tclear_before t w = true ->
  ~ straddles (inst rho t) a (w ++ b').
Proof.
  intros Hr H. apply clear_before_sound. unfold tclear_before in H.
  destruct t as [|[c|k] t']; try discriminate.
  destruct (rev (Ch c :: t')) as [|[l|k] rt] eqn:R; try discriminate.
  apply andb_prop in H as [H1 H2]. apply negb_true_iff in H1.
  unfold clear_before. apply rev_cons_inv in R. rewrite R at 1.
  rewrite inst_app. cbn [inst]. rewrite last_last, H1.
  cbn [inst List.tl]. now rewrite (absent_sound rho w t' Hr H2).
Qed.

Lemma tclear_after_sound (rho : nat -> jsstring) (t : list tok) (w a' b : jsstring) :
  ident_names rho -> tclear_after t w = true ->
  ~ straddles (inst rho t) (a' ++ w) b.
Proof.
  intros Hr H. apply clear_after_sound. unfold tclear_after in H.
  destruct t as [|[c|k] t']; try discriminate.
  destruct (rev (Ch c :: t')) as [|[l|k] rt] eqn:R; try discriminate.
  apply andb_prop in H as [H1 H2]. apply negb_true_iff in H1.
  unfold clear_after. cbn [inst List.hd]. rewrite H1.
  change (c :: inst rho t') with (inst rho (Ch c :: t')).
  apply rev_cons_inv in R. rewrite R, inst_app. cbn [inst].
  rewrite removelast_last. now rewrite (absent_sound rho w (rev rt) Hr H2).
Qed.

Lemma has_fixed (rho : nat -> jsstring) (c : N) (t : list tok) :
  has c (fixed_chars t) = true -> has c (inst rho t) = true.
Proof.
  induction t as [|[d|k] t IH]; simpl; intros H.
  - discriminate.
  - apply orb_prop in H as [H|H]; [now rewrite H|].
    rewrite (IH H). apply orb_true_r.
  - rewrite has_app, (IH H). apply orb_true_r.
Qed.

Lemma backendByTypeAnchor_template (n : MinifiedNames) :
  exists t, backendByTypeAnchor n = inst (env n) t
    /\ tclear_before t (js "class ") = true
    /\ tclear_before t (js "let ") = true
    /\ tclear_before t (js "throw ") = true
    /\ must_suffix (js ")") t = true.
Proof.
  give_template n. repeat split; vm_compute; reflexivity.
Qed.

Lemma inProcessAnchor_template (n : MinifiedNames) :
  exists t, inProcessAnchor n = inst (env n) t
    /\ tclear_before t (js "class ") = true
    /\ tclear_before t (js "let ") = true
    /\ tclear_before t (js "throw ") = true
    /\ tclear_before t (js "To ") = true
    /\ tclear_after t (js ")") = true
    /\ tclear_after t (js ":") = true
    /\ tclear_after t (js ".") = true
    /\ must_suffix (js ")") t = true
    /\ has 61 (fixed_chars t) = true.
Proof.
  give_template n. repeat split; vm_compute; reflexivity.
Qed.

(** The fixed anchors and markers against the cuts of the edits. *)
Lemma static_checks :
  clear_before errorAnchor (js "class ") = true
  /\ clear_before errorAnchor (js "let ") = true
  /\ clear_before typeTmux (js "let ") = true
  /\ clear_before typeTmux (js "throw ") = true
  /\ clear_after typeTmux (js ")") = true
  /\ clear_after registryTag (js ")") = true.
Proof. repeat split; vm_compute; reflexivity. Qed.

Lemma static_apart :
  apart typeTmux find1 (js ":") = true
  /\ apart typeTmux find2 (js ".") = true
  /\ apart registryTag find1 (js ":") = true
  /\ apart registryTag find2 (js ".") = true
  /\ apart find2 find1 (js ":") = true
  /\ apart find2 replace1 (js ":") = true.
Proof. repeat split; vm_compute; reflexivity. Qed.

Lemma literal_ends :
  (exists x, find1 = js "To " ++ x) /\ (exists x, find1 = x ++ js ":")
  /\ (exists x, find2 = js "To " ++ x) /\ (exists x, find2 = x ++ js ".")
  /\ (exists x, replace1 = js "To " ++ x) /\ (exists x, replace1 = x ++ js ":").
Proof.
  repeat split.
  - apply startsWith_iff. vm_compute. reflexivity.
  - apply endsWith_iff. vm_compute. reflexivity.
  - apply startsWith_iff. vm_compute. reflexivity.
  - apply endsWith_iff. vm_compute. reflexivity.
  - apply startsWith_iff. vm_compute. reflexivity.
  - apply endsWith_iff. vm_compute. reflexivity.
Qed.

(** An inserted text that [p] neither occurs in nor straddles the ends
    of separates the occurrences of [p]. *)
Lemma insertion_isolated (p a ins b : jsstring) :
  includes p ins = false ->
  ~ straddles p a (ins ++ b) ->
  ~ straddles p ins b ->
  includes p (a ++ ins ++ b) = includes p a || includes p b.
Proof.
  intros Hi Hl Hr.
  destruct (includes p a) eqn:Ea; simpl.
  { now apply includes_app_l. }
  destruct (includes p b) eqn:Eb.
  { apply includes_app_r. now apply includes_app_r. }
  destruct (includes p (a ++ ins ++ b)) eqn:E; [|reflexivity].
  exfalso. apply includes_app_cases in E as [E | [E | E]]; [congruence| |contradiction].
  apply includes_app_cases in E as [E | [E | E]]; [congruence|congruence|contradiction].
Qed.

(** Replacing a text that is apart from [p] by another keeps or loses no
    occurrence of [p] outside of it. *)
Lemma apart_isolated (p f wr a b : jsstring) :
  apart p f wr = true ->
  (exists x, f = js "To " ++ x) -> (exists x, f = x ++ wr) ->
  includes p (a ++ f ++ b) = includes p a || includes p b.
Proof.
  unfold apart. rewrite !andb_true_iff, negb_true_iff.
  intros [[H1 H2] H3] [x Hx] [y Hy]. apply insertion_isolated.
  - exact H1.
  - rewrite Hx, <- app_assoc. now apply clear_before_sound.
  - rewrite Hy. now apply clear_after_sound.
Qed.

(** ** Each edit keeps the anchors of the later edits *)

Lemma extracted_good_names (source : jsstring) (n : MinifiedNames) :
  extractMinifiedNames source = Some n -> good_names n.
Proof.
  intros H. apply extracted_names in H as ((_ & Hc) & H1 & H2 & H3 & H4 & H5 & H6 & H7).
  split; [|exact Hc]. unfold word_names. tauto.
Qed.

Lemma anchor4_clear (n : MinifiedNames) :
  word_names n ->
  (forall a b, ~ straddles (backendByTypeAnchor n) a (js "class " ++ b))
  /\ (forall a b, ~ straddles (backendByTypeAnchor n) a (js "let " ++ b))
  /\ (forall a b, ~ straddles (backendByTypeAnchor n) a (js "throw " ++ b))
  /\ (exists x, backendByTypeAnchor n = x ++ js ")").
Proof.
  intros Hn. pose proof (env_idents n Hn) as Hi.
  destruct (backendByTypeAnchor_template n) as (t & -> & H1 & H2 & H3 & H4).
  repeat split; try (intros a b; now apply tclear_before_sound).
  now apply must_suffix_sound.
Qed.

Lemma anchor6_clear (n : MinifiedNames) :
  word_names n ->
  (forall a b, ~ straddles (inProcessAnchor n) a (js "class " ++ b))
  /\ (forall a b, ~ straddles (inProcessAnchor n) a (js "let " ++ b))
  /\ (forall a b, ~ straddles (inProcessAnchor n) a (js "throw " ++ b))
  /\ (forall a b, ~ straddles (inProcessAnchor n) a (js "To " ++ b))
  /\ (forall a b, ~ straddles (inProcessAnchor n) (a ++ js ")") b)
  /\ (forall a b, ~ straddles (inProcessAnchor n) (a ++ js ":") b)
  /\ (forall a b, ~ straddles (inProcessAnchor n) (a ++ js ".") b)
  /\ (exists x, inProcessAnchor n = x ++ js ")")
  /\ has 61 (inProcessAnchor n) = true.
Proof.
  intros Hn. pose proof (env_idents n Hn) as Hi.
  destruct (inProcessAnchor_template n)
    as (t & -> & H1 & H2 & H3 & H4 & H5 & H6 & H7 & H8 & H9).
  repeat split; try (intros a b; now apply tclear_before_sound);
    try (intros a b; now apply tclear_after_sound).
  - now apply must_suffix_sound.
  - now apply has_fixed.
Qed.

(** The anchor of the sixth edit and the literals of the fifth. *)
Lemma anchor6_isolated (n : MinifiedNames) (a b : jsstring) :
  word_names n ->
  includes (inProcessAnchor n) (a ++ find1 ++ b)
  = includes (inProcessAnchor n) a || includes (inProcessAnchor n) b
  /\ includes (inProcessAnchor n) (a ++ find2 ++ b)
     = includes (inProcessAnchor n) a || includes (inProcessAnchor n) b.
Proof.
  intros Hn.
  destruct (anchor6_clear n Hn) as (_ & _ & _ & HT & _ & Hc & Hd & _ & He).
  destruct literal_ends as ([x1 E1] & [y1 F1] & [x2 E2] & [y2 F2] & _).
  split; apply insertion_isolated.
  - apply (includes_missing _ _ 61%N He). vm_compute. reflexivity.
  - rewrite E1, <- app_assoc. apply HT.
  - rewrite F1. apply Hc.
  - apply (includes_missing _ _ 61%N He). vm_compute. reflexivity.
  - rewrite E2, <- app_assoc. apply HT.
  - rewrite F2. apply Hd.
Qed.

Lemma keeps_after (p w a x ins b : jsstring) :
  (forall a' b', ~ straddles p (a' ++ w) b') ->
  includes p (a ++ (x ++ w) ++ b) = true ->
  includes p (a ++ (x ++ w) ++ ins ++ b) = true.
Proof.
  intros Hs H.
  assert (E : a ++ (x ++ w) ++ ins ++ b = ((a ++ x) ++ w) ++ ins ++ b)
    by now rewrite <- !app_assoc.
  assert (E2 : ((a ++ x) ++ w) ++ b = a ++ (x ++ w) ++ b)
    by now rewrite <- !app_assoc.
  rewrite E. apply insertion_keeps; [apply Hs|]. now rewrite E2.
Qed.

Lemma step1_keeps (n : MinifiedNames) (c : jsstring) :
  good_names n ->
  anchor1 n c = true -> anchor2 c = true -> anchor3 c = true ->
  anchor4 n c = true -> anchor6 n c = true ->
  anchor2 (text1 n c) = true /\ anchor3 (text1 n c) = true
  /\ anchor4 n (text1 n c) = true /\ anchor6 n (text1 n c) = true
  /\ includes typeTmux (text1 n c) = true.
Proof.
  intros [Hn Hc] H1 H2 H3 H4 H6.
  destruct (text1_present n c H1) as (a & b & E & ->). subst c.
  destruct static_checks as (S1 & _).
  destruct (anchor4_clear n Hn) as (C4 & _).
  destruct (anchor6_clear n Hn) as (C6 & _).
  unfold anchor3, anchor4, anchor6 in *.
  repeat split.
  - now apply scan_survives_injection.
  - apply insertion_keeps; [|assumption].
    rewrite tmuxBackendAnchor_head. now apply clear_before_sound.
  - apply insertion_keeps; [|assumption].
    rewrite tmuxBackendAnchor_head. apply C4.
  - apply insertion_keeps; [|assumption].
    rewrite tmuxBackendAnchor_head. apply C6.
  - rewrite tmuxBackendAnchor_head. apply includes_iff.
    exists (a ++ injected n ++ js "class " ++ tmuxBackendClass n ++ [123%N]), b.
    now rewrite <- !app_assoc.
Qed.

Lemma step2_keeps (n : MinifiedNames) (c : jsstring) :
  good_names n ->
  anchor2 c = true -> anchor3 c = true ->
  anchor4 n c = true -> anchor6 n c = true -> includes typeTmux c = true ->
  anchor3 (text2 n c) = true
  /\ anchor4 n (text2 n c) = true /\ anchor6 n (text2 n c) = true
  /\ includes typeTmux (text2 n c) = true.
Proof.
  intros [Hn Hc] H2 H3 H4 H6 HT.
  destruct (text2_present n c H2) as (a & mt & b & caps & E & M & _ & _ & ->). subst c.
  destruct (letK_shape _ _ _ M) as (_ & [tl ->] & _).
  destruct static_checks as (_ & S2 & S3 & _).
  destruct (anchor4_clear n Hn) as (_ & C4 & _).
  destruct (anchor6_clear n Hn) as (_ & C6 & _).
  unfold anchor3, anchor4, anchor6 in *.
  repeat split; (apply insertion_keeps; [|assumption]); rewrite <- app_assoc.
  - now apply clear_before_sound.
  - apply C4.
  - apply C6.
  - now apply clear_before_sound.
Qed.

Lemma errorAnchor_head :
  (exists x, errorAnchor = js "throw " ++ x)
  /\ includes registryTag errorAnchor = true.
Proof.
  split; [apply startsWith_iff|]; vm_compute; reflexivity.
Qed.

Lemma step3_keeps (n : MinifiedNames) (c : jsstring) :
  good_names n ->
  anchor3 c = true ->
  anchor4 n c = true -> anchor6 n c = true -> includes typeTmux c = true ->
  anchor4 n (text3 n c) = true /\ anchor6 n (text3 n c) = true
  /\ includes typeTmux (text3 n c) = true
  /\ includes registryTag (text3 n c) = true.
Proof.
  intros [Hn Hc] H3 H4 H6 HT.
  destruct (text3_present n c Hn H3) as (a & b & E & ->). subst c.
  destruct errorAnchor_head as ([x Hx] & HR).
  destruct static_checks as (_ & _ & _ & S4 & _).
  destruct (anchor4_clear n Hn) as (_ & _ & C4 & _).
  destruct (anchor6_clear n Hn) as (_ & _ & C6 & _).
  unfold anchor4, anchor6 in *.
  repeat split.
  - apply insertion_keeps; [|assumption]. rewrite Hx, <- app_assoc. apply C4.
  - apply insertion_keeps; [|assumption]. rewrite Hx, <- app_assoc. apply C6.
  - apply insertion_keeps; [|assumption]. rewrite Hx, <- app_assoc.
    now apply clear_before_sound.
  - apply includes_app_r, includes_app_r, includes_app_l. exact HR.
Qed.

Lemma step4_keeps (n : MinifiedNames) (c : jsstring) :
  good_names n ->
  anchor4 n c = true -> anchor6 n c = true ->
  includes typeTmux c = true -> includes registryTag c = true ->
  anchor6 n (text4 n c) = true
  /\ includes typeTmux (text4 n c) = true
  /\ includes registryTag (text4 n c) = true.
Proof.
  intros [Hn Hc] H4 H6 HT HR.
  destruct (text4_present n c Hn H4) as (a & b & E & ->). subst c.
  destruct (anchor4_clear n Hn) as (_ & _ & _ & [x Hx]).
  destruct static_checks as (_ & _ & _ & _ & S5 & S6).
  destruct (anchor6_clear n Hn) as (_ & _ & _ & _ & C6 & _).
  unfold anchor6 in *. rewrite Hx in HT, HR, H6 |- *.
  repeat split; (apply keeps_after; [|assumption]).
  - apply C6.
  - intros a' b'. now apply clear_after_sound.
  - intros a' b'. now apply clear_after_sound.
Qed.

(** A replacement loop keeps a pattern that is isolated from the
    literal it replaces. *)
Lemma patch5_pair_keeps (p f r : jsstring) (st st' : EditState) :
  (forall a b, includes p (a ++ f ++ b) = includes p a || includes p b) ->
  has dollar r = false ->
  patch5_pair (f, r) st = Some st' ->
  includes p (code st) = true -> includes p (code st') = true.
Proof.
  intros Hiso Hd H Hp. unfold patch5_pair in H.
  destruct (includes f (code st)) eqn:E.
  - destruct (replace_while _ f r (code st)) as [c'|] eqn:R; [|discriminate].
    injection H as <-. cbn [code push_applied set_code].
    apply (replace_while_invariant (fun x => includes p x = true) f r) with (3 := R);
      [|exact Hp].
    intros x Hx Hf. destruct (replace_present f r x Hf Hd) as (a & b & -> & ->).
    rewrite Hiso in Hx. apply orb_prop in Hx as [Hx|Hx].
    + now apply includes_app_l.
    + apply includes_app_r. now apply includes_app_r.
  - injection H as <-. exact Hp.
Qed.

Lemma replacements_plain : has dollar replace1 = false /\ has dollar replace2 = false.
Proof. split; vm_compute; reflexivity. Qed.

Lemma step5_keeps (n : MinifiedNames) (st st' : EditState) :
  good_names n -> patch5 st = Some st' ->
  anchor6 n (code st) = true ->
  includes typeTmux (code st) = true -> includes registryTag (code st) = true ->
  anchor6 n (code st') = true
  /\ includes typeTmux (code st') = true
  /\ includes registryTag (code st') = true.
Proof.
  intros [Hn Hc] H H6 HT HR.
  destruct (patch5_steps st) as (mid & st'' & P1 & P2 & P & _).
  rewrite H in P. injection P as <-.
  destruct replacements_plain as [D1 D2].
  destruct static_apart as (T1 & T2 & R1 & R2 & _).
  destruct literal_ends as (L1 & L2 & L3 & L4 & _).
  unfold anchor6 in *. repeat split.
  - apply (patch5_pair_keeps _ _ _ _ _ (fun a b => proj2 (anchor6_isolated n a b Hn)) D2 P2).
    apply (patch5_pair_keeps _ _ _ _ _ (fun a b => proj1 (anchor6_isolated n a b Hn)) D1 P1).
    exact H6.
  - apply (patch5_pair_keeps _ _ _ _ _
             (fun a b => apart_isolated _ _ _ a b T2 L3 L4) D2 P2).
    apply (patch5_pair_keeps _ _ _ _ _
             (fun a b => apart_isolated _ _ _ a b T1 L1 L2) D1 P1).
    exact HT.
  - apply (patch5_pair_keeps _ _ _ _ _
             (fun a b => apart_isolated _ _ _ a b R2 L3 L4) D2 P2).
    apply (patch5_pair_keeps _ _ _ _ _
             (fun a b => apart_isolated _ _ _ a b R1 L1 L2) D1 P1).
    exact HR.
Qed.

Lemma step6_keeps (n : MinifiedNames) (c : jsstring) :
  good_names n ->
  anchor6 n c = true ->
  includes typeTmux c = true -> includes registryTag c = true ->
  includes typeTmux (text6 n c) = true
  /\ includes registryTag (text6 n c) = true
  /\ includes (js "isInsideZellijSync") (text6 n c) = true.
Proof.
  intros [Hn Hc] H6 HT HR.
  destruct (text6_present n c Hn H6) as (a & b & E & ->). subst c.
  destruct (anchor6_clear n Hn) as (_ & _ & _ & _ & _ & _ & _ & [x Hx] & _).
  destruct static_checks as (_ & _ & _ & _ & S5 & S6).
  rewrite Hx in HT, HR |- *.
  repeat split.
  - apply keeps_after; [|assumption]. intros a' b'. now apply clear_after_sound.
  - apply keeps_after; [|assumption]. intros a' b'. now apply clear_after_sound.
  - apply includes_app_r, includes_app_r, includes_app_l. vm_compute. reflexivity.
Qed.

(** ** A patched text is refused as already patched *)

Lemma failed_after_ok (ok : bool) (a f : jsstring) (st st' : EditState) :
  structural_step ok a f st st' -> ok = true -> failed st = [] -> failed st' = [].
Proof.
  intros (_ & F & _) -> H. rewrite F, H. reflexivity.
Qed.

(** C1. A text that has the two markers, no signature token, a match
    for each of the six role patterns and the anchor of each of the five
    structural edits is patched with success; the patched text carries a
    signature token, and patching it again is refused as already
    patched. *)
Theorem patch_then_already_patched (source : jsstring) (n : MinifiedNames) :
  edit_phase source n -> all_anchors n source = true ->
  exists r p,
    patchCliSource source = Some r
    /\ success r = true
    /\ patchedSource r = Some p
    /\ alreadyPatched p = true
    /\ patchCliSource p = Some alreadyPatchedReport.
Proof.
  intros Hp Ha. pose proof Hp as (_ & _ & Hx).
  pose proof (extracted_good_names _ _ Hx) as Hg.
  destruct (edit_phase_chain source n Hp) as (mid & st5 & _ & _ & H5 & Hr & S5a & S5b).
  cbv zeta in H5, Hr, S5a, S5b.
  unfold all_anchors in Ha. rewrite !andb_true_iff in Ha.
  destruct Ha as [[[[A1 A2] A3] A4] A6].
  set (st0 := initial source) in *.
  pose proof (patch1_step n st0) as T1. pose proof (patch1_text n st0) as C1.
  set (st1 := patch1 n st0) in *.
  pose proof (patch2_step n st1) as T2. pose proof (patch2_text n st1) as C2.
  set (st2 := patch2 n st1) in *.
  pose proof (patch3_step n st2) as T3. pose proof (patch3_text n st2) as C3.
  set (st3 := patch3 n st2) in *.
  pose proof (patch4_step n st3) as T4. pose proof (patch4_text n st3) as C4.
  set (st4 := patch4 n st3) in *.
  pose proof (patch6_step n st5) as T6. pose proof (patch6_text n st5) as C6.
  set (st6 := patch6 n st5) in *.
  change (code st0) with source in *.
  destruct (step1_keeps n source Hg A1 A2 A3 A4 A6) as (B2 & B3 & B4 & B6 & BT).
  rewrite <- C1 in B2, B3, B4, B6, BT.
  destruct (step2_keeps n (code st1) Hg B2 B3 B4 B6 BT) as (D3 & D4 & D6 & DT).
  rewrite <- C2 in D3, D4, D6, DT.
  destruct (step3_keeps n (code st2) Hg D3 D4 D6 DT) as (E4 & E6 & ET & ER).
  rewrite <- C3 in E4, E6, ET, ER.
  destruct (step4_keeps n (code st3) Hg E4 E6 ET ER) as (F6 & FT & FR).
  rewrite <- C4 in F6, FT, FR.
  destruct (step5_keeps n st4 st5 Hg H5 F6 FT FR) as (G6 & GT & GR).
  destruct (step6_keeps n (code st5) Hg G6 GT GR) as (KT & KR & KS).
  rewrite <- C6 in KT, KR, KS.
  assert (Z1 : failed st1 = []) by exact (failed_after_ok _ _ _ _ _ T1 A1 eq_refl).
  assert (Z2 : failed st2 = []) by exact (failed_after_ok _ _ _ _ _ T2 B2 Z1).
  assert (Z3 : failed st3 = []) by exact (failed_after_ok _ _ _ _ _ T3 D3 Z2).
  assert (Z4 : failed st4 = []) by exact (failed_after_ok _ _ _ _ _ T4 E4 Z3).
  assert (Z5 : failed st5 = []).
  { destruct S5a as (_ & Fa & _), S5b as (_ & Fb & _). congruence. }
  assert (Z6 : failed st6 = []) by exact (failed_after_ok _ _ _ _ _ T6 G6 Z5).
  exists (report st6), (code st6).
  split; [exact Hr|].
  unfold report, no_failure. cbn [success patchedSource]. rewrite Z6.
  split; [reflexivity|]. split; [reflexivity|].
  assert (HA : alreadyPatched (code st6) = true).
  { unfold alreadyPatched. rewrite KS. apply orb_true_r. }
  split; [exact HA|].
  apply patchCliSource_already; [|exact HA].
  unfold recognized. fold registryTag. fold typeTmux. now rewrite KT, KR.
Qed.

Lemma patch_then_already_patched_witness :
  edit_phase sample_cli sample_names
  /\ all_anchors sample_names sample_cli = true
  /\ exists r p,
    patchCliSource sample_cli = Some r
    /\ success r = true
    /\ patchedSource r = Some p
    /\ alreadyPatched p = true
    /\ patchCliSource p = Some alreadyPatchedReport.
Proof.
  assert (H : edit_phase sample_cli sample_names).
  { repeat split; vm_compute; reflexivity. }
  assert (A : all_anchors sample_names sample_cli = true).
  { vm_compute. reflexivity. }
  split; [exact H|]. split; [exact A|].
  exact (patch_then_already_patched sample_cli sample_names H A).
Defined.

(** ** The structural edits neither add nor remove a message literal *)

Lemma literals_clear : literal_clear find1 = true /\ literal_clear find2 = true.
Proof. split; vm_compute; reflexivity. Qed.

Lemma zellijCase_end : exists y, zellijCase = y ++ js ")".
Proof. apply endsWith_iff. vm_compute. reflexivity. Qed.

Lemma literals_inert (n : MinifiedNames) :
  literal_inert find1 n /\ literal_inert find2 n.
Proof.
  destruct (injected_template n) as (t1 & E1 & A1 & B1 & _).
  destruct (zellijCheck_template n) as (t2 & E2 & A2 & B2 & _).
  destruct (zellijFallback_template n) as (t3 & E3 & A3 & B3 & _).
  split; repeat split; eauto.
Qed.

Lemma structural_edits_neutral (f : jsstring) (n : MinifiedNames) (c : jsstring) :
  good_names n -> literal_clear f = true -> literal_inert f n ->
  includes f (text1 n c) = includes f c
  /\ includes f (text2 n c) = includes f c
  /\ includes f (text3 n c) = includes f c
  /\ includes f (text4 n c) = includes f c.
Proof.
  intros [Hn Hc] Hl ((t1 & E1 & I1) & (t2 & E2 & I2) & (t3 & E3 & I3)).
  unfold literal_clear in Hl. rewrite !andb_true_iff, negb_true_iff in Hl.
  destruct Hl as [[[[L1 L2] L3] L4] L5].
  pose proof (env_idents n Hn) as Hi.
  repeat split.
  - destruct (anchor1 n c) eqn:A; [|now rewrite text1_absent].
    destruct (text1_present n c A) as (a & b & -> & ->).
    destruct (inert_sound (env n) _ _ _ t1 a (tmuxBackendAnchor n ++ b) Hi I1)
      as (J1 & J2 & J3).
    rewrite <- E1 in J1, J2, J3.
    apply insertion_neutral; try assumption.
    rewrite tmuxBackendAnchor_head. now apply clear_before_sound.
  - destruct (anchor2 c) eqn:A; [|now rewrite text2_absent].
    destruct (text2_present n c A) as (a & mt & b & caps & -> & M & _ & _ & ->).
    destruct (letK_shape _ _ _ M) as (_ & [tl ->] & _).
    destruct (inert_sound (env n) _ _ _ t2 a ((js "let " ++ tl) ++ cascadeAnchor ++ b) Hi I2)
      as (J1 & J2 & J3).
    rewrite <- E2 in J1, J2, J3.
    apply insertion_neutral; try assumption.
    rewrite <- app_assoc. now apply clear_before_sound.
  - destruct (anchor3 c) eqn:A; [|now rewrite text3_absent].
    destruct (text3_present n c Hn A) as (a & b & -> & ->).
    destruct errorAnchor_head as ([x Hx] & _).
    destruct (inert_sound (env n) _ _ _ t3 a (errorAnchor ++ b) Hi I3)
      as (J1 & J2 & J3).
    rewrite <- E3 in J1, J2, J3.
    apply insertion_neutral; try assumption.
    rewrite Hx, <- app_assoc. now apply clear_before_sound.
  - destruct (anchor4 n c) eqn:A; [|now rewrite text4_absent].
    destruct (text4_present n c Hn A) as (a & b & -> & ->).
    destruct (anchor4_clear n Hn) as (_ & _ & _ & [x Hx]).
    destruct zellijCase_end as [y Hy].
    assert (P1 : a ++ (x ++ js ")") ++ zellijCase ++ b
                 = ((a ++ x) ++ js ")") ++ zellijCase ++ b)
      by now rewrite <- !app_assoc.
    assert (P2 : a ++ (x ++ js ")") ++ b = ((a ++ x) ++ js ")") ++ b)
      by now rewrite <- !app_assoc.
    rewrite Hx, P1, P2.
    apply insertion_neutral.
    + now apply clear_after_sound.
    + exact L5.
    + now apply clear_after_sound.
    + rewrite Hy. now apply clear_after_sound.
Qed.

(** A replacement loop leaves a pattern that is isolated from the
    literal and from its replacement as present or absent as it was. *)
Lemma patch5_pair_neutral (p f r : jsstring) (st st' : EditState) :
  (forall a b, includes p (a ++ f ++ b) = includes p a || includes p b) ->
  (forall a b, includes p (a ++ r ++ b) = includes p a || includes p b) ->
  has dollar r = false ->
  patch5_pair (f, r) st = Some st' ->
  includes p (code st') = includes p (code st).
Proof.
  intros Hf Hr Hd H. unfold patch5_pair in H.
  destruct (includes f (code st)) eqn:E.
  - destruct (replace_while _ f r (code st)) as [c'|] eqn:R; [|discriminate].
    injection H as <-. cbn [code push_applied set_code].
    apply (replace_while_invariant
             (fun x => includes p x = includes p (code st)) f r) with (3 := R);
      [|reflexivity].
    intros x Hx Hi. destruct (replace_present f r x Hi Hd) as (a & b & -> & ->).
    now rewrite Hr, <- Hf.
  - now injection H as <-.
Qed.

Lemma replace2_ends :
  (exists x, replace2 = js "To " ++ x) /\ (exists x, replace2 = x ++ js ".").
Proof.
  split; [apply startsWith_iff | apply endsWith_iff]; vm_compute; reflexivity.
Qed.

(** The anchor of the sixth edit and the two replacement texts. *)
Lemma anchor6_isolated_repl (n : MinifiedNames) (a b : jsstring) :
  word_names n ->
  includes (inProcessAnchor n) (a ++ replace1 ++ b)
  = includes (inProcessAnchor n) a || includes (inProcessAnchor n) b
  /\ includes (inProcessAnchor n) (a ++ replace2 ++ b)
     = includes (inProcessAnchor n) a || includes (inProcessAnchor n) b.
Proof.
  intros Hn.
  destruct (anchor6_clear n Hn) as (_ & _ & _ & HT & _ & Hc & Hd & _ & He).
  destruct literal_ends as (_ & _ & _ & _ & [x1 E1] & [y1 F1]).
  destruct replace2_ends as ([x2 E2] & [y2 F2]).
  split; apply insertion_isolated.
  - apply (includes_missing _ _ 61%N He). vm_compute. reflexivity.
  - rewrite E1, <- app_assoc. apply HT.
  - rewrite F1. apply Hc.
  - apply (includes_missing _ _ 61%N He). vm_compute. reflexivity.
  - rewrite E2, <- app_assoc. apply HT.
  - rewrite F2. apply Hd.
Qed.

(** The message replacements neither add nor remove the anchor of the
    sixth edit, and the first does not touch the literal of the second. *)
Lemma message_edits_neutral (n : MinifiedNames) (st mid st' : EditState) :
  good_names n ->
  patch5_pair (find1, replace1) st = Some mid ->
  patch5_pair (find2, replace2) mid = Some st' ->
  includes find2 (code mid) = includes find2 (code st)
  /\ anchor6 n (code st') = anchor6 n (code st).
Proof.
  intros [Hn Hc] P1 P2.
  destruct replacements_plain as [D1 D2].
  destruct static_apart as (_ & _ & _ & _ & T1 & T2).
  destruct literal_ends as (L1 & L2 & _ & _ & L5 & L6).
  split.
  - apply (patch5_pair_neutral _ _ _ _ _
             (fun a b => apart_isolated _ _ _ a b T1 L1 L2)
             (fun a b => apart_isolated _ _ _ a b T2 L5 L6) D1 P1).
  - unfold anchor6.
    rewrite (patch5_pair_neutral _ _ _ _ _
               (fun a b => proj2 (anchor6_isolated n a b Hn))
               (fun a b => proj2 (anchor6_isolated_repl n a b Hn)) D2 P2).
    apply (patch5_pair_neutral _ _ _ _ _
             (fun a b => proj1 (anchor6_isolated n a b Hn))
             (fun a b => proj1 (anchor6_isolated_repl n a b Hn)) D1 P1).
Qed.

(** ** The message replacements *)

(** C4, as stated, fails: there are two message replacements, not five,
    and a text with none of the literals yields two warnings. *)
Lemma two_warnings_not_five :
  edit_phase sample_plain sample_names
  /\ includes find1 sample_plain = false
  /\ includes find2 sample_plain = false
  /\ List.length errorMsgReplacements = 2
  /\ exists r, patchCliSource sample_plain = Some r
               /\ List.length (warnings r) = 2
               /\ List.length (warnings r) <> 5.
Proof.
  split; [repeat split; vm_compute; reflexivity|].
  split; [vm_compute; reflexivity|].
  split; [vm_compute; reflexivity|].
  split; [reflexivity|].
  eexists. split; [vm_compute; reflexivity|].
  split; [reflexivity | discriminate].
Qed.

(** C4, amended. There are two message replacements.  For a text past
    the guards and the extraction, the warnings are one per literal that
    the text lacks; the failures are those of the structural edits, and
    [success] is decided by the structural edits alone. *)
Theorem message_replacements_optional (source : jsstring) (n : MinifiedNames) :
  edit_phase source n ->
  List.length errorMsgReplacements = 2
  /\ exists r,
       patchCliSource source = Some r
       /\ warnings r
          = pick (negb (includes find1 source)) (warning5 find1)
            ++ pick (negb (includes find2 source)) (warning5 find2)
       /\ failedPatches r = structural_failures n source
       /\ success r = structural_ok n source.
Proof.
  intros Hp. split; [reflexivity|]. pose proof Hp as (_ & _ & Hx).
  pose proof (extracted_good_names _ _ Hx) as Hg.
  destruct (edit_phase_chain source n Hp) as (mid & st5 & P1 & P2 & H5 & Hr & S5a & S5b).
  cbv zeta in P1, P2, H5, Hr, S5a, S5b.
  destruct (message_edits_neutral n _ _ _ Hg P1 P2) as (N2 & N6).
  set (st0 := initial source) in *.
  pose proof (patch1_step n st0) as T1. pose proof (patch1_text n st0) as C1.
  set (st1 := patch1 n st0) in *.
  pose proof (patch2_step n st1) as T2. pose proof (patch2_text n st1) as C2.
  set (st2 := patch2 n st1) in *.
  pose proof (patch3_step n st2) as T3. pose proof (patch3_text n st2) as C3.
  set (st3 := patch3 n st2) in *.
  pose proof (patch4_step n st3) as T4. pose proof (patch4_text n st3) as C4.
  set (st4 := patch4 n st3) in *.
  pose proof (patch6_step n st5) as T6.
  set (st6 := patch6 n st5) in *.
  change (code st0) with source in *.
  destruct T1 as (_ & F1 & W1 & _), T2 as (_ & F2 & W2 & _),
           T3 as (_ & F3 & W3 & _), T4 as (_ & F4 & W4 & _),
           S5a as (_ & F5a & W5a & _), S5b as (_ & F5b & W5b & _),
           T6 as (_ & F6 & W6 & _).
  destruct (literals_clear) as [K1 K2]. destruct (literals_inert n) as [I1 I2].
  assert (M1 : includes find1 (code st4) = includes find1 source).
  { rewrite C4, C3, C2, C1.
    rewrite (proj2 (proj2 (proj2 (structural_edits_neutral find1 n _ Hg K1 I1)))).
    rewrite (proj1 (proj2 (proj2 (structural_edits_neutral find1 n _ Hg K1 I1)))).
    rewrite (proj1 (proj2 (structural_edits_neutral find1 n _ Hg K1 I1))).
    apply (proj1 (structural_edits_neutral find1 n _ Hg K1 I1)). }
  assert (M2 : includes find2 (code mid) = includes find2 source).
  { rewrite N2, C4, C3, C2, C1.
    rewrite (proj2 (proj2 (proj2 (structural_edits_neutral find2 n _ Hg K2 I2)))).
    rewrite (proj1 (proj2 (proj2 (structural_edits_neutral find2 n _ Hg K2 I2)))).
    rewrite (proj1 (proj2 (structural_edits_neutral find2 n _ Hg K2 I2))).
    apply (proj1 (structural_edits_neutral find2 n _ Hg K2 I2)). }
  assert (EF : failed st6 = structural_failures n source).
  { rewrite F6, F5b, F5a, F4, F3, F2, F1, N6. unfold structural_failures. cbv zeta.
    rewrite C4, C3, C2, C1. simpl. now rewrite <- !app_assoc. }
  exists (report st6). split; [exact Hr|].
  cbn [report warnings failedPatches success]. split; [|split].
  - rewrite W6, W5b, W5a, W4, W3, W2, W1, M1, M2. reflexivity.
  - exact EF.
  - unfold no_failure. rewrite EF. unfold structural_failures, structural_ok. cbv zeta.
    destruct (anchor1 n source), (anchor2 (text1 n source)),
      (anchor3 (text2 n (text1 n source))),
      (anchor4 n (text3 n (text2 n (text1 n source)))),
      (anchor6 n (text4 n (text3 n (text2 n (text1 n source))))); reflexivity.
Qed.

Lemma message_replacements_optional_witness :
  edit_phase sample_plain sample_names
  /\ List.length errorMsgReplacements = 2
  /\ exists r,
       patchCliSource sample_plain = Some r
       /\ warnings r
          = pick (negb (includes find1 sample_plain)) (warning5 find1)
            ++ pick (negb (includes find2 sample_plain)) (warning5 find2)
       /\ failedPatches r = structural_failures sample_names sample_plain
       /\ success r = structural_ok sample_names sample_plain.
Proof.
  assert (H : edit_phase sample_plain sample_names).
  { repeat split; vm_compute; reflexivity. }
  split; [exact H|].
  exact (message_replacements_optional sample_plain sample_names H).
Defined.

(** ** Restoring without a backup *)

(** C9. Without a backup at the target path plus [.bak], [removePatch]
    returns false and copies nothing: the file system, and with it the
    target file, is as before; the uninstall command reports that no
    backup was found and exits with status 1. *)
Theorem restore_without_backup (cliJsPath : jsstring) (p : Restore.process) :
  Restore.files p !! (cliJsPath ++ js ".bak") = None ->
  Restore.removePatch cliJsPath (Restore.files p) = Some (false, Restore.files p)
  /\ exists p',
       Restore.cmdUninstall cliJsPath p = Some p'
       /\ Restore.files p' = Restore.files p
       /\ Restore.files p' !! cliJsPath = Restore.files p !! cliJsPath
       /\ Restore.exited p' = Some 1%Z
       /\ Restore.stderr p'
          = Restore.stderr p
            ++ [js "Error: " ++ js "No backup found at " ++ cliJsPath ++ js ".bak"].
Proof.
  intros H.
  assert (R : Restore.removePatch cliJsPath (Restore.files p)
              = Some (false, Restore.files p)).
  { unfold Restore.removePatch, Restore.existsSync. cbv zeta.
    change (@lookup jsstring) with (@lookup (list N)). rewrite H. reflexivity. }
  split; [exact R|].
  unfold Restore.cmdUninstall. cbn [Restore.log Restore.files]. rewrite R.
  eexists. split; [reflexivity|]. repeat split.
Qed.

Lemma restore_without_backup_witness :
  Restore.files Restore.lone_target !! (js "cli.js" ++ js ".bak") = None
  /\ Restore.removePatch (js "cli.js") (Restore.files Restore.lone_target)
     = Some (false, Restore.files Restore.lone_target)
  /\ exists p',
       Restore.cmdUninstall (js "cli.js") Restore.lone_target = Some p'
       /\ Restore.files p' = Restore.files Restore.lone_target
       /\ Restore.files p' !! js "cli.js"
          = Restore.files Restore.lone_target !! js "cli.js"
       /\ Restore.exited p' = Some 1%Z
       /\ Restore.stderr p'
          = Restore.stderr Restore.lone_target
            ++ [js "Error: " ++ js "No backup found at " ++ js "cli.js" ++ js ".bak"].
Proof.
  assert (H : Restore.files Restore.lone_target !! (js "cli.js" ++ js ".bak") = None).
  { apply lookup_singleton_ne. intros E. apply (f_equal (@List.length N)) in E.
    vm_compute in E. discriminate. }
  split; [exact H|].
  exact (restore_without_backup (js "cli.js") Restore.lone_target H).
Defined.

(** ** The pane lock serves its callers in order

    [chain k s] holds in every state the backend can reach; the
    properties of the lock are read off it. *)

Section PaneLock.

Import ZellijBackend.

Lemma is_settled_In k s : is_settled k s = true <-> In k (settled s).
Proof.
  unfold is_settled. rewrite existsb_exists. split.
  - intros (x & H & E). apply Nat.eqb_eq in E. now subst.
  - intros H. exists k. split; [exact H | apply Nat.eqb_refl].
Qed.

Lemma chain_initial : chain 0 initial.
Proof.
  unfold chain, initial; cbn.
  repeat split; try easy; try lia; intuition lia.
Qed.

Lemma chain_call c k s : chain k s -> chain k (call c s).
Proof.
  intros (Hid & Hq & Hf & Hs & Hk & Hb & Ha & Hh).
  unfold chain, call; cbn.
  rewrite length_app; cbn.
  split; [|split; [|split; [|split; [|split; [|split; [|split]]]]]].
  - intros i r H. apply lookup_snoc_Some in H as [[_ H] | [-> <-]].
    + now apply Hid.
    + cbn. split; congruence.
  - lia.
  - lia.
  - exact Hs.
  - lia.
  - intros i r H Hi. apply lookup_snoc_Some in H as [[_ H] | [-> <-]].
    + now apply (Hb i).
    + lia.
  - intros i r H Hi. apply lookup_snoc_Some in H as [[_ H] | [-> <-]].
    + now apply (Ha i).
    + reflexivity.
  - destruct (decide (k < length (requests s))) as [Lt | Ge].
    + rewrite lookup_app_l by exact Lt. exact Hh.
    + assert (k = length (requests s)) as E by lia.
      assert (requests s !! k = None) as N by (apply lookup_ge_None; lia).
      rewrite N in Hh.
      rewrite lookup_app_r by lia. rewrite E, Nat.sub_diag. cbn.
      left. split; [reflexivity | exact Hh].
Qed.

(** Only the request at the head of the chain can advance. *)
Lemma chain_head k s i r st s1 :
  chain k s -> requests s !! i = Some r -> resume r s = Some (st, s1) -> i = k.
Proof.
  intros (Hid & _ & _ & Hs & _ & Hb & Ha & _) Hr Hres.
  destruct (lt_eq_lt_dec i k) as [[Lt | Eq] | Gt]; [| exact Eq |].
  - specialize (Hb i r Hr Lt). unfold finished in Hb. unfold resume in Hres.
    destruct (at_stage r); try contradiction. discriminate.
  - specialize (Ha i r Hr Gt). unfold resume in Hres. rewrite Ha in Hres.
    destruct (is_settled (prev r) s) eqn:E; [|discriminate].
    apply is_settled_In in E. apply Hs in E.
    destruct (Hid i r Hr) as [Hp _]. lia.
Qed.

Lemma requests_resume r s st s1 :
  resume r s = Some (st, s1) ->
  requests s1 = requests s /\ lockQueue s1 = lockQueue s /\ fresh s1 = fresh s.
Proof.
  unfold resume, release_pending. intros H.
  destruct (at_stage r);
    repeat match type of H with
           | context [if ?b then _ else _] => destruct b
           | context [match pendingRelease ?x with _ => _ end] =>
               destruct (pendingRelease x) eqn:?
           end;
    inversion H; subst; cbn; auto.
Qed.

(** The head stays inside: nothing is settled, the pending release is
    its own. *)
Lemma chain_stays k s r st :
  chain k s -> requests s !! k = Some r ->
  holding (at_ st r) ->
  forall s1,
    requests s1 = requests s -> lockQueue s1 = lockQueue s ->
    fresh s1 = fresh s -> settled s1 = settled s ->
    pendingRelease s1 = Some (S k) ->
    chain k (set_requests (<[k := at_ st r]> (requests s1)) s1).
Proof.
  intros (Hid & Hq & Hf & Hs & Hk & Hb & Ha & Hh) Hr Hold s1 Er Eq Ef Es Ep.
  pose proof (lookup_lt_Some _ _ _ Hr) as Lt.
  unfold chain; cbn. rewrite Er, length_insert.
  split; [|split; [|split; [|split; [|split; [|split; [|split]]]]]].
  - intros i x H. apply list_lookup_insert_Some in H as [(<- & <- & _) | [_ H]].
    + cbn. now apply Hid.
    + now apply Hid.
  - congruence.
  - congruence.
  - rewrite Es. exact Hs.
  - exact Hk.
  - intros i x H Hi. apply list_lookup_insert_Some in H as [(<- & _) | [_ H]].
    + lia.
    + now apply (Hb i).
  - intros i x H Hi. apply list_lookup_insert_Some in H as [(<- & _) | [_ H]].
    + lia.
    + now apply (Ha i).
  - rewrite list_lookup_insert_eq by exact Lt. right. split; assumption.
Qed.

(** The head leaves: its promise is settled, nothing is pending, and the
    next request is at the head. *)
Lemma chain_leaves k s r ok :
  chain k s -> requests s !! k = Some r ->
  forall s1,
    requests s1 = requests s -> lockQueue s1 = lockQueue s ->
    fresh s1 = fresh s -> (forall j, In j (settled s1) <-> In j (settled s) \/ j = S k) ->
    pendingRelease s1 = None ->
    chain (S k) (set_requests (<[k := at_ (Finished ok) r]> (requests s1)) s1).
Proof.
  intros (Hid & Hq & Hf & Hs & Hk & Hb & Ha & Hh) Hr s1 Er Eq Ef Es Ep.
  pose proof (lookup_lt_Some _ _ _ Hr) as Lt.
  unfold chain; cbn. rewrite Er, length_insert.
  split; [|split; [|split; [|split; [|split; [|split; [|split]]]]]].
  - intros i x H. apply list_lookup_insert_Some in H as [(<- & <- & _) | [_ H]].
    + cbn. now apply Hid.
    + now apply Hid.
  - congruence.
  - congruence.
  - intros j. rewrite Es, Hs. lia.
  - lia.
  - intros i x H Hi. apply list_lookup_insert_Some in H as [(<- & <- & _) | [N H]].
    + exact I.
    + apply (Hb i); [exact H | lia].
  - intros i x H Hi. apply list_lookup_insert_Some in H as [(<- & _) | [_ H]].
    + lia.
    + apply (Ha i); [exact H | lia].
  - rewrite list_lookup_insert_ne by lia.
    destruct (requests s !! S k) as [x|] eqn:Hx; [|exact Ep].
    left. split; [|exact Ep]. apply (Ha (S k)); [exact Hx | lia].
Qed.

Lemma chain_advance k s i s' :
  chain k s -> advance i s = Some s' -> exists k', chain k' s'.
Proof.
  intros C H. unfold advance in H.
  destruct (requests s !! i) as [r|] eqn:Hr; [|discriminate].
  destruct (resume r s) as [[st s1]|] eqn:Hres; [|discriminate].
  inversion H; subst s'; clear H.
  assert (k = i) by (symmetry; eapply chain_head; eassumption). subst k.
  pose proof C as (Hid & Hq & Hf & Hs & Hk & Hb & Ha & Hh).
  rewrite Hr in Hh. destruct (Hid i r Hr) as [Hp Hn].
  unfold resume in Hres.
  destruct (at_stage r) eqn:St.
  - (* the lock is taken *)
    destruct (is_settled (prev r) s); [|discriminate]. injection Hres as <- <-.
    exists i. apply chain_stays with (s := s); auto. exact I.
    cbn. now rewrite Hn.
  - destruct Hh as [[? _] | [_ Hp']]; [congruence|].
    destruct (new_pane (codes r) =? 0)%Z; injection Hres as <- <-.
    + exists i. apply chain_stays with (s := s); auto. exact I.
    + exists (S i). apply chain_leaves with (s := s); auto.
      intros j. cbn. rewrite Hn. intuition.
  - destruct Hh as [[? _] | [_ Hp']]; [congruence|].
    injection Hres as <- <-.
    exists i. apply chain_stays with (s := s); auto. exact I.
  - destruct Hh as [[? _] | [_ Hp']]; [congruence|].
    injection Hres as <- <-.
    exists i. apply chain_stays with (s := s); auto. exact I.
  - destruct Hh as [[? _] | [_ Hp']]; [congruence|].
    destruct (write_chars (codes r) =? 0)%Z; injection Hres as <- <-.
    + exists i. apply chain_stays with (s := s); auto. exact I.
    + exists (S i). unfold release_pending. rewrite Hp'.
      apply chain_leaves with (s := s); auto.
      intros j. cbn. intuition.
  - destruct Hh as [[? _] | [_ Hp']]; [congruence|].
    injection Hres as <- <-.
    exists (S i). unfold release_pending. rewrite Hp'.
    apply chain_leaves with (s := s); auto.
    intros j. cbn. intuition.
  - discriminate.
Qed.

Lemma reachable_chain s : reachable s -> exists k, chain k s.
Proof.
  induction 1 as [| c s _ [k C] | i s s' _ [k C] H].
  - exists 0. apply chain_initial.
  - exists k. now apply chain_call.
  - eapply chain_advance; eassumption.
Qed.

(** The head of the chain can always advance. *)
Lemma chain_enabled k s r :
  chain k s -> requests s !! k = Some r -> exists s', advance k s = Some s'.
Proof.
  intros (Hid & Hq & Hf & Hs & Hk & Hb & Ha & Hh) Hr.
  rewrite Hr in Hh. unfold advance. rewrite Hr.
  destruct (Hid k r Hr) as [Hp _].
  assert (is_settled (prev r) s = true) as G.
  { apply is_settled_In, Hs. lia. }
  unfold resume.
  destruct Hh as [[St _] | [Hold _]].
  - rewrite St, G. eauto.
  - unfold holding in Hold.
    destruct (at_stage r); try contradiction;
      repeat match goal with
             | |- context [if ?b then _ else _] => destruct b
             end; eauto.
Qed.

Lemma list_sum_insert (f : request -> nat) l i r r' :
  l !! i = Some r -> f r' < f r ->
  list_sum (map f (<[i := r']> l)) < list_sum (map f l).
Proof.
  revert i. induction l as [|x l IH]; intros i H Lt; [discriminate|].
  destruct i as [|i]; cbn in *.
  - injection H as ->. apply Nat.add_lt_mono_r. exact Lt.
  - apply Nat.add_lt_mono_l. exact (IH i H Lt).
Qed.

Lemma advance_remaining i s s' :
  advance i s = Some s' -> remaining s' < remaining s.
Proof.
  unfold advance. intros H.
  destruct (requests s !! i) as [r|] eqn:Hr; [|discriminate].
  destruct (resume r s) as [[st s1]|] eqn:Hres; [|discriminate].
  inversion H; subst s'; clear H.
  destruct (requests_resume _ _ _ _ Hres) as (Er & _ & _).
  unfold remaining; cbn. rewrite Er.
  apply list_sum_insert with (r := r); [exact Hr|].
  cbn. unfold resume in Hres.
  destruct (at_stage r);
    repeat match type of Hres with
           | context [if ?b then _ else _] => destruct b
           end;
    inversion Hres; subst; cbn; lia.
Qed.

Lemma advances_reachable n s s' :
  advances n s s' -> reachable s -> reachable s'.
Proof.
  induction 1 as [| n i s s1 s2 H _ IH]; intros R; [exact R|].
  apply IH. eapply reach_advance; eassumption.
Qed.

Lemma advances_remaining n s s' :
  advances n s s' -> n + remaining s' <= remaining s.
Proof.
  induction 1 as [| n i s s1 s2 H _ IH]; [lia|].
  apply advance_remaining in H. lia.
Qed.

Lemma run_reachable schedule s s' :
  reachable s -> run schedule s = Some s' -> reachable s'.
Proof.
  revert s. induction schedule as [|i rest IH]; intros s R H; cbn in H.
  - injection H as <-. exact R.
  - destruct (advance i s) as [s1|] eqn:E; [|discriminate].
    apply (IH s1); [|exact H]. eapply reach_advance; eassumption.
Qed.

(** C8. In every state the backend can reach, for any number of callers
    and whatever the outcomes of their commands: when a waiting request
    takes the lock, every earlier request has finished, returned or
    thrown, with its release called, and so it is for every request that
    has taken the lock; two requests never hold the lock together; the
    release of a finished request was called; the first request that is
    not finished can advance, and if it waits it takes the lock; each
    advance uses up one of finitely many awaits, so that once no request
    can advance any more, within [remaining] steps, all of them are
    finished. *)
Theorem lock_is_fifo (s : state) :
  reachable s ->
  (forall j rj s' i ri,
      requests s !! j = Some rj -> at_stage rj = Waiting ->
      advance j s = Some s' ->
      i < j -> requests s !! i = Some ri ->
      finished ri /\ In (next ri) (settled s))
  /\ (forall i j ri rj,
         i < j -> requests s !! i = Some ri -> requests s !! j = Some rj ->
         at_stage rj <> Waiting ->
         finished ri /\ In (next ri) (settled s))
  /\ (forall i j ri rj,
         requests s !! i = Some ri -> requests s !! j = Some rj ->
         holding ri -> holding rj -> i = j)
  /\ (forall i ri,
         requests s !! i = Some ri -> finished ri -> In (next ri) (settled s))
  /\ (forall j rj,
         requests s !! j = Some rj -> ~ finished rj ->
         (forall i ri, i < j -> requests s !! i = Some ri -> finished ri) ->
         exists s' rj',
           advance j s = Some s' /\ requests s' !! j = Some rj'
           /\ (at_stage rj = Waiting -> at_stage rj' = Creating))
  /\ (forall i s', advance i s = Some s' -> remaining s' < remaining s)
  /\ (forall n s',
         advances n s s' ->
         n <= remaining s
         /\ ((forall i, advance i s' = None) -> all_finished s')).
Proof.
  intros R. destruct (reachable_chain s R) as [k C].
  pose proof C as (Hid & Hq & Hf & Hs & Hk & Hb & Ha & Hh).
  assert (Hpast : forall j rj, requests s !! j = Some rj ->
                               at_stage rj <> Waiting -> j <= k).
  { intros j rj Hj Hw. destruct (le_lt_dec j k) as [L | G]; [exact L|].
    destruct Hw. now apply (Ha j). }
  assert (Hfin : forall i ri, requests s !! i = Some ri -> finished ri -> i < k).
  { intros i ri Hi F. destruct (lt_eq_lt_dec i k) as [[L | E] | G]; [exact L | |].
    - subst i. rewrite Hi in Hh. unfold finished, holding in *.
      destruct Hh as [[St _] | [Ho _]]; destruct (at_stage ri);
        try contradiction; discriminate.
    - specialize (Ha i ri Hi G). unfold finished in F. rewrite Ha in F.
      contradiction. }
  assert (Hin : forall i ri, requests s !! i = Some ri -> holding ri -> i = k).
  { intros i ri Hi Ho. destruct (lt_eq_lt_dec i k) as [[L | E] | G]; [| exact E |].
    - specialize (Hb i ri Hi L). unfold finished, holding in *.
      destruct (at_stage ri); contradiction.
    - specialize (Ha i ri Hi G). unfold holding in Ho. rewrite Ha in Ho.
      contradiction. }
  split; [|split; [|split; [|split; [|split; [|split]]]]].
  - intros j rj s' i ri Hj St Hadv Lt Hi.
    unfold advance in Hadv. rewrite Hj in Hadv.
    destruct (resume rj s) as [[st s1]|] eqn:Hres; [|discriminate].
    assert (j = k) as E by (eapply chain_head; eassumption).
    split.
    + apply (Hb i); [exact Hi | lia].
    + destruct (Hid i ri Hi) as [_ ->]. apply Hs. lia.
  - intros i j ri rj Lt Hi Hj Hw.
    specialize (Hpast j rj Hj Hw).
    split.
    + apply (Hb i); [exact Hi | lia].
    + destruct (Hid i ri Hi) as [_ ->]. apply Hs. lia.
  - intros i j ri rj Hi Hj Hoi Hoj.
    rewrite (Hin i ri Hi Hoi), (Hin j rj Hj Hoj). reflexivity.
  - intros i ri Hi F. specialize (Hfin i ri Hi F).
    destruct (Hid i ri Hi) as [_ ->]. apply Hs. lia.
  - intros j rj Hj NF Hall.
    assert (j = k) as ->.
    { destruct (lt_eq_lt_dec j k) as [[L | E] | G]; [| exact E |].
      - destruct NF. now apply (Hb j).
      - assert (is_Some (requests s !! k)) as [rk Hrk].
        { apply lookup_lt_is_Some. apply lookup_lt_Some in Hj. lia. }
        specialize (Hfin k rk Hrk (Hall k rk G Hrk)). lia. }
    destruct (chain_enabled k s rj C Hj) as [s' Hadv].
    pose proof Hadv as Hadv'. unfold advance in Hadv'. rewrite Hj in Hadv'.
    destruct (resume rj s) as [[st s1]|] eqn:Hres; [|discriminate].
    inversion Hadv'; subst s'; clear Hadv'.
    destruct (requests_resume _ _ _ _ Hres) as (Er & _ & _).
    exists (set_requests (<[k := at_ st rj]> (requests s1)) s1), (at_ st rj).
    split; [exact Hadv|]. split.
    + cbn. rewrite Er. apply list_lookup_insert_eq.
      now apply lookup_lt_Some in Hj.
    + intros St. cbn. unfold resume in Hres. rewrite St in Hres.
      destruct (is_settled (prev rj) s); inversion Hres; reflexivity.
  - intros i s'. apply advance_remaining.
  - intros n s' A. split.
    + apply advances_remaining in A. lia.
    + intros Stuck i r Hi.
      pose proof (advances_reachable _ _ _ A R) as R'.
      destruct (reachable_chain s' R') as [k' C'].
      pose proof C' as (_ & _ & _ & _ & _ & Hb' & _ & _).
      destruct (requests s' !! k') as [rk|] eqn:Hk'.
      * destruct (chain_enabled k' s' rk C' Hk') as [s2 E].
        rewrite Stuck in E. discriminate.
      * apply lookup_ge_None in Hk'. apply (Hb' i r Hi).
        apply lookup_lt_Some in Hi. lia.
Qed.

Lemma lock_is_fifo_witness :
  reachable second_inside
  /\ (forall j rj s' i ri,
         requests second_inside !! j = Some rj -> at_stage rj = Waiting ->
         advance j second_inside = Some s' ->
         i < j -> requests second_inside !! i = Some ri ->
         finished ri /\ In (next ri) (settled second_inside))
  /\ (forall i j ri rj,
         i < j -> requests second_inside !! i = Some ri ->
         requests second_inside !! j = Some rj ->
         at_stage rj <> Waiting ->
         finished ri /\ In (next ri) (settled second_inside))
  /\ (forall i j ri rj,
         requests second_inside !! i = Some ri ->
         requests second_inside !! j = Some rj ->
         holding ri -> holding rj -> i = j)
  /\ (forall i ri,
         requests second_inside !! i = Some ri -> finished ri ->
         In (next ri) (settled second_inside))
  /\ (forall j rj,
         requests second_inside !! j = Some rj -> ~ finished rj ->
         (forall i ri, i < j -> requests second_inside !! i = Some ri ->
                       finished ri) ->
         exists s' rj',
           advance j second_inside = Some s' /\ requests s' !! j = Some rj'
           /\ (at_stage rj = Waiting -> at_stage rj' = Creating))
  /\ (forall i s', advance i second_inside = Some s' ->
                   remaining s' < remaining second_inside)
  /\ (forall n s',
         advances n second_inside s' ->
         n <= remaining second_inside
         /\ ((forall i, advance i s' = None) -> all_finished s')).
Proof.
  assert (R : reachable second_inside).
  { apply (run_reachable [0; 0; 1] three_callers).
    - do 3 apply reach_call. apply reach_initial.
    - reflexivity. }
  split; [exact R|]. exact (lock_is_fifo second_inside R).
Defined.

End PaneLock.

(** ** More of the patcher *)

Lemma nothing_inserted (c : jsstring) :
  exists a b : jsstring, c = a ++ b /\ c = a ++ [] ++ b.
Proof. exists c, []. now rewrite !app_nil_r. Qed.

(** X1. With names that are words, each of the five structural edits
    inserts its text at one place when its anchor is found, inserts
    nothing otherwise, and leaves every other character of the working
    text where it is: no dollar pattern of [replace] is at work. *)
Theorem structural_edits_only_insert (n : MinifiedNames) (c : jsstring) :
  word_names n ->
  (exists a b, c = a ++ b
     /\ text1 n c = a ++ (if anchor1 n c then injected n else []) ++ b)
  /\ (exists a b, c = a ++ b
        /\ text2 n c = a ++ (if anchor2 c then zellijCheck n else []) ++ b)
  /\ (exists a b, c = a ++ b
        /\ text3 n c = a ++ (if anchor3 c then zellijFallback n else []) ++ b)
  /\ (exists a b, c = a ++ b
        /\ text4 n c = a ++ (if anchor4 n c then zellijCase else []) ++ b)
  /\ (exists a b, c = a ++ b
        /\ text6 n c = a ++ (if anchor6 n c then zellijConjunct else []) ++ b).
Proof.
  intros Hw. split; [|split; [|split; [|split]]].
  - destruct (anchor1 n c) eqn:A.
    + destruct (text1_present n c A) as (a & b & -> & E).
      exists a, (tmuxBackendAnchor n ++ b). split; [reflexivity | exact E].
    + rewrite (text1_absent n c A). apply nothing_inserted.
  - destruct (anchor2 c) eqn:A.
    + destruct (text2_present n c A) as (a & mt & b & caps & -> & _ & _ & _ & E).
      exists a, (mt ++ cascadeAnchor ++ b). split; [reflexivity | exact E].
    + rewrite (text2_absent n c A). apply nothing_inserted.
  - destruct (anchor3 c) eqn:A.
    + destruct (text3_present n c Hw A) as (a & b & -> & E).
      exists a, (errorAnchor ++ b). split; [reflexivity | exact E].
    + rewrite (text3_absent n c A). apply nothing_inserted.
  - destruct (anchor4 n c) eqn:A.
    + destruct (text4_present n c Hw A) as (a & b & -> & E).
      exists (a ++ backendByTypeAnchor n), b.
      now rewrite E, <- !app_assoc.
    + rewrite (text4_absent n c A). apply nothing_inserted.
  - destruct (anchor6 n c) eqn:A.
    + destruct (text6_present n c Hw A) as (a & b & -> & E).
      exists (a ++ inProcessAnchor n), b.
      now rewrite E, <- !app_assoc.
    + rewrite (text6_absent n c A). apply nothing_inserted.
Qed.

Lemma sample_names_words : word_names sample_names.
Proof. unfold word_names, word. repeat split; try discriminate. Qed.

Lemma structural_edits_only_insert_witness :
  word_names sample_names
  /\ (exists a b, sample_cli = a ++ b
        /\ text1 sample_names sample_cli
           = a ++ (if anchor1 sample_names sample_cli
                   then injected sample_names else []) ++ b)
  /\ (exists a b, sample_cli = a ++ b
        /\ text2 sample_names sample_cli
           = a ++ (if anchor2 sample_cli
                   then zellijCheck sample_names else []) ++ b)
  /\ (exists a b, sample_cli = a ++ b
        /\ text3 sample_names sample_cli
           = a ++ (if anchor3 sample_cli
                   then zellijFallback sample_names else []) ++ b)
  /\ (exists a b, sample_cli = a ++ b
        /\ text4 sample_names sample_cli
           = a ++ (if anchor4 sample_names sample_cli
                   then zellijCase else []) ++ b)
  /\ (exists a b, sample_cli = a ++ b
        /\ text6 sample_names sample_cli
           = a ++ (if anchor6 sample_names sample_cli
                   then zellijConjunct else []) ++ b).
Proof.
  split; [exact sample_names_words|].
  exact (structural_edits_only_insert sample_names sample_cli sample_names_words).
Defined.

Lemma skipn_includes (p : jsstring) (j : nat) (s rest : jsstring) :
  skipn j s = p ++ rest -> includes p s = true.
Proof.
  intros H. apply includes_iff. exists (firstn j s), rest.
  now rewrite <- H, firstn_skipn.
Qed.

(** Take a [shape] hypothesis apart, keeping its equations. *)
Ltac open_shape H :=
  cbn [shape] in H;
  repeat match type of H with
         | exists _, _ => let x := fresh "x" in destruct H as [x H]
         | _ /\ _ => let H1 := fresh "E" in destruct H as [H1 H]
         end.

(** X2. Every name of an extracted bundle is a run of word characters
    that is not empty (the class name may hold dollars too) and stands in
    the text at the place its pattern describes: after [class], in the
    tmux branch of the cascade, in the version check, in the iterm2 case,
    before the first log call and in the [insideTmux] template. *)
Theorem extracted_names_in_place (source : jsstring) (n : MinifiedNames) :
  extractMinifiedNames source = Some n ->
  (exists sp, sp <> [] /\ forallb is_space sp = true
     /\ tmuxBackendClass n <> [] /\ forallb is_ident (tmuxBackendClass n) = true
     /\ includes (js "class" ++ sp ++ tmuxBackendClass n
                  ++ js "{type=" ++ quoted "tmux") source = true)
  /\ (exists v, word v /\ word (tmuxFactory n) /\ word (cachedBackendRef n)
        /\ word (cachedResultVar n)
        /\ includes
             (js "[BackendRegistry] Selected: tmux (running inside tmux session)"
              ++ dq ++ js ");let " ++ v ++ js "=" ++ tmuxFactory n
              ++ js "();return " ++ cachedBackendRef n ++ js "=" ++ v ++ js ","
              ++ cachedResultVar n ++ js "={backend:" ++ v
              ++ js ",isNative:!0,needsIt2Setup:!1}," ++ cachedResultVar n)
             source = true)
  /\ (exists sp arg, sp <> [] /\ forallb is_space sp = true /\ word arg
        /\ word (execFn n)
        /\ includes (js "(await" ++ sp ++ execFn n ++ js "(" ++ arg
                     ++ js ",[" ++ quoted "-V" ++ js "])).code===0")
             source = true)
  /\ (exists sp, sp <> [] /\ forallb is_space sp = true
        /\ word (iterm2Factory n)
        /\ includes (js "case" ++ quoted "iterm2" ++ js ":return" ++ sp
                     ++ iterm2Factory n ++ js "()") source = true)
  /\ (word (logFn n)
      /\ includes (logFn n ++ js "("
                   ++ quoted "[BackendRegistry] Starting backend detection..."
                   ++ js ")") source = true)
  /\ (word (isInsideTmuxSyncFn n)
      /\ includes (js "insideTmux=${" ++ isInsideTmuxSyncFn n ++ js "()}")
           source = true).
Proof.
  intros H. apply extract_some_all_match in H
    as (m1 & m2 & m3 & m4 & m5 & m6 & H1 & H2 & H3 & H4 & H5 & H6 & ->).
  apply regex_match_sound in H1 as (j1 & r1 & _ & S1 & _).
  apply regex_match_sound in H2 as (j2 & r2 & _ & S2 & _).
  apply regex_match_sound in H3 as (j3 & r3 & _ & S3 & _).
  apply regex_match_sound in H4 as (j4 & r4 & _ & S4 & _).
  apply regex_match_sound in H5 as (j5 & r5 & _ & S5 & _).
  apply regex_match_sound in H6 as (j6 & r6 & _ & S6 & _).
  unfold group, word.
  cbn [tmuxBackendClass tmuxFactory iterm2Factory cachedBackendRef
       cachedResultVar execFn logFn isInsideTmuxSyncFn].
  split; [|split; [|split; [|split; [|split]]]].
  - clear S2 S3 S4 S5 S6. unfold tmuxClassRe in S1. open_shape S1.
    rewrite E7. cbn [nth app Nat.sub]. exists x0.
    repeat match goal with |- _ /\ _ => split end; try assumption.
    apply (skipn_includes _ j1 _ x4). rewrite E. subst.
    rewrite <- !app_assoc. reflexivity.
  - clear S1 S3 S4 S5 S6. unfold cascadeRe in S2. open_shape S2.
    rewrite E21. cbn [nth app Nat.sub] in *. exists x0.
    repeat match goal with |- _ /\ _ => split end; try assumption.
    apply (skipn_includes _ j2 _ x16). rewrite E. subst.
    rewrite <- !app_assoc. reflexivity.
  - clear S1 S2 S4 S5 S6. unfold execRe in S3. open_shape S3.
    rewrite E11. cbn [nth app Nat.sub] in *. exists x0, x5.
    repeat match goal with |- _ /\ _ => split end; try assumption.
    apply (skipn_includes _ j3 _ x7). rewrite E. subst.
    rewrite <- !app_assoc. reflexivity.
  - clear S1 S2 S3 S5 S6. unfold iterm2Re in S4. open_shape S4.
    rewrite E7. cbn [nth app Nat.sub] in *. exists x0.
    repeat match goal with |- _ /\ _ => split end; try assumption.
    apply (skipn_includes _ j4 _ x4). rewrite E. subst.
    rewrite <- !app_assoc. reflexivity.
  - clear S1 S2 S3 S4 S6. unfold logRe in S5. open_shape S5.
    rewrite E3. cbn [nth app Nat.sub] in *.
    repeat match goal with |- _ /\ _ => split end; try assumption.
    apply (skipn_includes _ j5 _ x1). rewrite E1. subst.
    rewrite <- !app_assoc. reflexivity.
  - clear S1 S2 S3 S4 S5. unfold tmuxSyncRe in S6. open_shape S6.
    rewrite E4. cbn [nth app Nat.sub] in *.
    repeat match goal with |- _ /\ _ => split end; try assumption.
    apply (skipn_includes _ j6 _ x2). rewrite E. subst.
    rewrite <- !app_assoc. reflexivity.
Qed.

Lemma extracted_names_in_place_witness :
  extractMinifiedNames sample_cli = Some sample_names
  /\ includes (logFn sample_names ++ js "("
               ++ quoted "[BackendRegistry] Starting backend detection..."
               ++ js ")") sample_cli = true.
Proof.
  assert (H : extractMinifiedNames sample_cli = Some sample_names)
    by (vm_compute; reflexivity).
  split; [exact H|].
  exact (proj2 (proj1 (proj2 (proj2 (proj2 (proj2
           (extracted_names_in_place sample_cli sample_names H))))))).
Defined.

Lemma pick_nil (b : bool) (x : jsstring) (l : list jsstring) :
  l ++ pick b x = [] -> b = false.
Proof.
  destruct b; [|reflexivity]. intros H. apply app_eq_nil in H as [_ H].
  discriminate.
Qed.

Lemma zellijConjunct_signature :
  zellijConjunct = js "&&!" ++ js "isInsideZellijSync" ++ js "()".
Proof. reflexivity. Qed.

(** A report with [success] comes from the edit phase. *)
Lemma success_edit_phase (source : jsstring) (r : PatchResult) :
  patchCliSource source = Some r -> success r = true ->
  exists n, edit_phase source n.
Proof.
  intros H S. unfold edit_phase.
  destruct (recognized source) eqn:R.
  2:{ rewrite (patchCliSource_not_recognized _ R) in H. injection H as <-.
      discriminate. }
  destruct (alreadyPatched source) eqn:A.
  1:{ rewrite (patchCliSource_already _ R A) in H. injection H as <-.
      discriminate. }
  destruct (extractMinifiedNames source) as [n|] eqn:X.
  2:{ rewrite (patchCliSource_no_names _ R A X) in H. injection H as <-.
      discriminate. }
  exists n. repeat split.
Qed.

Lemma success_last_edit (source : jsstring) (n : MinifiedNames) (r : PatchResult) :
  edit_phase source n -> patchCliSource source = Some r -> success r = true ->
  exists a b,
    patchedSource r = Some (a ++ inProcessAnchor n ++ zellijConjunct ++ b).
Proof.
  intros Hp H S. pose proof Hp as (_ & _ & Hx).
  destruct (extracted_good_names _ _ Hx) as [Hw _].
  destruct (edit_phase_chain source n Hp) as (mid & st5 & _ & _ & _ & Hr & _ & _).
  cbv zeta in Hr. rewrite Hr in H. injection H as <-.
  unfold report, no_failure in *. cbn [success patchedSource] in *.
  destruct (failed (patch6 n st5)) as [|x l] eqn:F; [|discriminate].
  destruct (patch6_step n st5) as (_ & F6 & _ & _). rewrite F in F6.
  symmetry in F6. apply pick_nil in F6. apply negb_false_iff in F6.
  destruct (text6_present n (code st5) Hw F6) as (a & b & _ & E).
  exists a, b. now rewrite patch6_text, E.
Qed.

Lemma success_signed (source : jsstring) (r : PatchResult) :
  patchCliSource source = Some r -> success r = true ->
  exists p,
    patchedSource r = Some p /\ includes (js "isInsideZellijSync") p = true.
Proof.
  intros H S. destruct (success_edit_phase _ _ H S) as [n Hp].
  destruct (success_last_edit _ _ _ Hp H S) as (a & b & E).
  eexists. split; [exact E|].
  apply includes_iff. exists (a ++ inProcessAnchor n ++ js "&&!"), (js "()" ++ b).
  rewrite zellijConjunct_signature. now rewrite <- !app_assoc.
Qed.

Lemma signed_refused (p : jsstring) :
  includes (js "ZellijBackendImpl") p = true
  \/ includes (js "isInsideZellijSync") p = true ->
  exists r',
    patchCliSource p = Some r' /\ success r' = false /\ patchedSource r' = None.
Proof.
  intros I.
  assert (A : alreadyPatched p = true).
  { unfold alreadyPatched. destruct I as [-> | ->]; [reflexivity | apply orb_true_r]. }
  destruct (recognized p) eqn:R.
  - exists alreadyPatchedReport. split; [now apply patchCliSource_already|].
    split; reflexivity.
  - exists notRecognized. split; [now apply patchCliSource_not_recognized|].
    split; reflexivity.
Qed.

(** X4. Whenever [patchCliSource] reports success, the patched text
    holds the signature token [isInsideZellijSync], put there by the
    sixth edit: patching the result again never succeeds and returns no
    text. *)
Theorem successful_patch_is_signed (source : jsstring) (r : PatchResult) :
  patchCliSource source = Some r -> success r = true ->
  exists p,
    patchedSource r = Some p
    /\ includes (js "isInsideZellijSync") p = true
    /\ exists r',
         patchCliSource p = Some r' /\ success r' = false
         /\ patchedSource r' = None.
Proof.
  intros H S. destruct (success_signed _ _ H S) as (p & E & I).
  exists p. split; [exact E|]. split; [exact I|].
  apply signed_refused. now right.
Qed.

Lemma successful_patch_is_signed_witness :
  exists r,
    patchCliSource sample_cli = Some r /\ success r = true
    /\ exists p,
         patchedSource r = Some p
         /\ includes (js "isInsideZellijSync") p = true
         /\ exists r',
              patchCliSource p = Some r' /\ success r' = false
              /\ patchedSource r' = None.
Proof.
  destruct (patchCliSource sample_cli) as [r|] eqn:E; [|vm_compute in E; discriminate].
  assert (S : success r = true).
  { vm_compute in E. injection E as <-. reflexivity. }
  exists r. split; [reflexivity|]. split; [exact S|].
  exact (successful_patch_is_signed sample_cli r E S).
Defined.

Lemma messages_apart :
  apart find1 find2 (js ".") = true /\ apart find1 replace2 (js ".") = true.
Proof. split; vm_compute; reflexivity. Qed.

Lemma conjunct_checks :
  includes find1 zellijConjunct = false
  /\ includes find2 zellijConjunct = false
  /\ clear_before find1 (js "&&!") = true
  /\ clear_before find2 (js "&&!") = true
  /\ clear_after find1 (js ")") = true
  /\ clear_after find2 (js ")") = true
  /\ zellijConjunct = js "&&!" ++ js "isInsideZellijSync()"
  /\ zellijConjunct = js "&&!isInsideZellijSync(" ++ js ")".
Proof. repeat split; vm_compute; reflexivity. Qed.

(** The sixth edit brings no message literal into the text. *)
Lemma text6_adds_no_message (f : jsstring) (n : MinifiedNames) (c : jsstring) :
  word_names n ->
  includes f zellijConjunct = false ->
  clear_before f (js "&&!") = true -> clear_after f (js ")") = true ->
  includes f c = false -> includes f (text6 n c) = false.
Proof.
  intros Hw I Cb Ca H.
  destruct (anchor6 n c) eqn:A; [|now rewrite (text6_absent _ _ A)].
  destruct (text6_present n c Hw A) as (a & b & Ec & Et).
  rewrite Et. destruct (includes f (a ++ inProcessAnchor n ++ zellijConjunct ++ b)) eqn:G;
    [|reflexivity].
  rewrite <- H, Ec.
  rewrite (app_assoc a (inProcessAnchor n) b).
  rewrite (app_assoc a (inProcessAnchor n) (zellijConjunct ++ b)) in G.
  symmetry. apply (insertion_adds_nothing f _ zellijConjunct b I); [| |exact G].
  - destruct conjunct_checks as (_ & _ & _ & _ & _ & _ & E & _).
    rewrite E, <- app_assoc. now apply clear_before_sound.
  - destruct conjunct_checks as (_ & _ & _ & _ & _ & _ & _ & E).
    rewrite E. now apply clear_after_sound.
Qed.

(** X3. Past the guards and the extraction, a patched text holds
    neither of the two old messages: the loops replace every occurrence,
    the second replacement brings back no first message and the sixth
    edit brings back none. *)
Theorem no_old_message_left (source : jsstring) (n : MinifiedNames) :
  edit_phase source n ->
  exists r,
    patchCliSource source = Some r
    /\ forall p, patchedSource r = Some p ->
                 includes find1 p = false /\ includes find2 p = false.
Proof.
  intros Hp. pose proof Hp as (_ & _ & Hx).
  pose proof (extracted_good_names _ _ Hx) as Hg. pose proof Hg as [Hw _].
  destruct (edit_phase_chain source n Hp) as (mid & st5 & P1 & P2 & _ & Hr & _ & _).
  cbv zeta in P1, P2, Hr.
  exists (report (patch6 n st5)). split; [exact Hr|].
  intros p E. unfold report in E. cbn [patchedSource] in E.
  destruct (no_failure (patch6 n st5)); [|discriminate]. injection E as <-.
  rewrite patch6_text.
  destruct (patch5_pair_step find1 replace1
              (patch4 n (patch3 n (patch2 n (patch1 n (initial source)))))
              tame_find1) as (x & Hx1 & _ & N1).
  rewrite P1 in Hx1. injection Hx1 as <-.
  destruct (patch5_pair_step find2 replace2 mid tame_find2) as (y & Hy & _ & N2).
  rewrite P2 in Hy. injection Hy as <-.
  destruct messages_apart as [M1 M2].
  destruct literal_ends as (_ & _ & F2a & F2b & _ & _).
  destruct replace2_ends as [R2a R2b].
  destruct replacements_plain as [_ D2].
  assert (K1 : includes find1 (code st5) = false).
  { rewrite (patch5_pair_neutral find1 find2 replace2 mid st5); [exact N1 | | | exact D2 | exact P2].
    - intros a b. now apply (apart_isolated find1 find2 (js ".")).
    - intros a b. now apply (apart_isolated find1 replace2 (js ".")). }
  destruct conjunct_checks as (I1 & I2 & B1 & B2 & A1 & A2 & _ & _).
  split; now apply text6_adds_no_message.
Qed.

Lemma no_old_message_left_witness :
  edit_phase sample_cli sample_names
  /\ exists r,
       patchCliSource sample_cli = Some r
       /\ forall p, patchedSource r = Some p ->
                    includes find1 p = false /\ includes find2 p = false.
Proof.
  assert (H : edit_phase sample_cli sample_names).
  { repeat split; vm_compute; reflexivity. }
  split; [exact H|]. exact (no_old_message_left sample_cli sample_names H).
Defined.

(** ** The first revision *)

Lemma FixedNames_patch2_step (st : EditState) :
  structural_step (includes FixedNames.cascadeAnchor (code st))
    applied2 failed2 st (FixedNames.patch2 st).
Proof.
  unfold structural_step, FixedNames.patch2.
  destruct (includes FixedNames.cascadeAnchor (code st)); simpl;
    rewrite ?app_nil_r; repeat split; congruence.
Qed.

(** The replacement text of the second edit holds a dollar, before a
    brace: it stands for itself. *)
Lemma FixedNames_substitution (matched before after : jsstring) :
  getSubstitution matched before after
    (zellijCheck FixedNames.v2134 ++ FixedNames.cascadeAnchor)
  = zellijCheck FixedNames.v2134 ++ FixedNames.cascadeAnchor.
Proof. reflexivity. Qed.

(** X6. The second edit of the first revision calls [replace] with a
    replacement that holds a dollar.  The dollar stands before a brace
    and is no pattern: without the anchor the text is unchanged, with it
    the detection is inserted right before the first occurrence of the
    anchor, which stays as it is. *)
Theorem first_revision_patch2_inserts (st : EditState) :
  has dollar (zellijCheck FixedNames.v2134 ++ FixedNames.cascadeAnchor) = true
  /\ (includes FixedNames.cascadeAnchor (code st) = false ->
      code (FixedNames.patch2 st) = code st)
  /\ (includes FixedNames.cascadeAnchor (code st) = true ->
      exists a b,
        code st = a ++ FixedNames.cascadeAnchor ++ b
        /\ find_first FixedNames.cascadeAnchor (code st) = Some (List.length a)
        /\ code (FixedNames.patch2 st)
           = a ++ zellijCheck FixedNames.v2134 ++ FixedNames.cascadeAnchor ++ b).
Proof.
  split; [vm_compute; reflexivity|]. unfold FixedNames.patch2. split.
  - intros ->. reflexivity.
  - intros H. rewrite H. cbn [code push_applied set_code].
    destruct (includes_find_first _ _ H) as [i F].
    destruct (find_first_split _ _ _ F) as [E L].
    exists (firstn i (code st)),
      (skipn (i + List.length FixedNames.cascadeAnchor) (code st)).
    split; [exact E|]. split; [now rewrite L|].
    unfold replace. rewrite F. cbv zeta. rewrite FixedNames_substitution.
    now rewrite <- app_assoc.
Qed.



Lemma first_revision_checks :
  has dollar (zellijFallback FixedNames.v2134 ++ errorAnchor) = false
  /\ has dollar (backendByTypeAnchor FixedNames.v2134 ++ zellijCase) = false
  /\ clear_before (js "isInsideZellijSync") (js "throw ") = true
  /\ clear_after (js "isInsideZellijSync") (js "()") = true
  /\ (exists x, errorAnchor = js "throw " ++ x)
  /\ (exists x, backendByTypeAnchor FixedNames.v2134 = x ++ js "()")
  /\ apart (js "isInsideZellijSync") find1 (js ":") = true
  /\ apart (js "isInsideZellijSync") find2 (js ".") = true
  /\ includes (js "isInsideZellijSync") (zellijCheck FixedNames.v2134) = true.
Proof.
  repeat split; try (vm_compute; reflexivity).
  - eexists. vm_compute. reflexivity.
  - exists (firstn (List.length (backendByTypeAnchor FixedNames.v2134) - 2)
              (backendByTypeAnchor FixedNames.v2134)).
    vm_compute. reflexivity.
Qed.

(** In the first revision the detection of the second edit stays in the
    text through the edits after it. *)
Lemma first_revision_signed (st1 st5 : EditState) :
  includes FixedNames.cascadeAnchor (code st1) = true ->
  patch5 (patch4 FixedNames.v2134 (patch3 FixedNames.v2134 (FixedNames.patch2 st1)))
  = Some st5 ->
  includes (js "isInsideZellijSync") (code st5) = true.
Proof.
  intros A2 H5.
  destruct first_revision_checks as (D3 & D4 & B3 & A4 & (e3 & E3) & (e4 & E4)
                                     & P1 & P2 & I).
  set (sig := js "isInsideZellijSync") in *.
  set (st2 := FixedNames.patch2 st1) in *.
  assert (K2 : includes sig (code st2) = true).
  { subst st2. unfold FixedNames.patch2. rewrite A2. cbn [code push_applied set_code].
    destruct (includes_find_first _ _ A2) as [i F].
    unfold replace. rewrite F. cbv zeta. rewrite FixedNames_substitution.
    apply includes_app_r, includes_app_l, includes_app_l. exact I. }
  set (st3 := patch3 FixedNames.v2134 st2) in *.
  assert (K3 : includes sig (code st3) = true).
  { subst st3. unfold patch3.
    destruct (includes errorAnchor (code st2)) eqn:A3; [|exact K2].
    cbn [code push_applied set_code].
    destruct (replace_present _ _ _ A3 D3) as (a & b & Ec & ->).
    rewrite <- app_assoc. apply insertion_keeps.
    - rewrite E3, <- app_assoc. now apply clear_before_sound.
    - now rewrite <- Ec. }
  set (st4 := patch4 FixedNames.v2134 st3) in *.
  assert (K4 : includes sig (code st4) = true).
  { subst st4. unfold patch4.
    destruct (includes (backendByTypeAnchor FixedNames.v2134) (code st3)) eqn:A;
      [|exact K3].
    cbn [code push_applied set_code].
    destruct (replace_present _ _ _ A D4) as (a & b & Ec & ->).
    rewrite <- app_assoc, (app_assoc a).
    apply insertion_keeps.
    - rewrite E4, app_assoc. now apply clear_after_sound.
    - now rewrite <- app_assoc, <- Ec. }
  destruct (patch5_steps st4) as (mid & st5' & Q1 & Q2 & Q5 & _ & _).
  rewrite H5 in Q5. injection Q5 as <-.
  destruct literal_ends as (F1a & F1b & F2a & F2b & _ & _).
  destruct replacements_plain as [R1 R2].
  assert (K5 : includes sig (code mid) = true).
  { apply (patch5_pair_keeps sig find1 replace1 st4 mid); try assumption.
    intros a b. now apply (apart_isolated sig find1 (js ":")). }
  apply (patch5_pair_keeps sig find2 replace2 mid st5); try assumption.
  intros a b. now apply (apart_isolated sig find2 (js ".")).
Qed.

Lemma first_revision_success_signed (source : jsstring) (r : PatchResult) :
  FixedNames.patchCliSource source = Some r -> success r = true ->
  exists p,
    patchedSource r = Some p /\ includes (js "isInsideZellijSync") p = true.
Proof.
  intros H S. unfold FixedNames.patchCliSource in H.
  destruct (negb _ || negb _); [injection H as <-; discriminate|].
  destruct (_ || _); [injection H as <-; discriminate|].
  unfold FixedNames.run_edits in H. cbv zeta in H.
  set (st1 := patch1 FixedNames.v2134 (initial source)) in *.
  destruct (patch5 _) as [st5|] eqn:H5; [|discriminate]. injection H as <-.
  unfold report, no_failure in *. cbn [success patchedSource] in *.
  destruct (failed st5) as [|x l] eqn:F; [|discriminate].
  assert (A2 : includes FixedNames.cascadeAnchor (code st1) = true).
  { destruct (includes FixedNames.cascadeAnchor (code st1)) eqn:A; [reflexivity|].
    exfalso.
    pose proof (FixedNames_patch2_step st1) as (_ & F2 & _). rewrite A in F2.
    pose proof (patch3_step FixedNames.v2134 (FixedNames.patch2 st1)) as (_ & F3 & _).
    pose proof (patch4_step FixedNames.v2134
                  (patch3 FixedNames.v2134 (FixedNames.patch2 st1))) as (_ & F4 & _).
    destruct (patch5_steps (patch4 FixedNames.v2134
                              (patch3 FixedNames.v2134 (FixedNames.patch2 st1))))
      as (mid & st5' & _ & _ & Q5 & (_ & Fa & _) & (_ & Fb & _)).
    rewrite H5 in Q5. injection Q5 as <-.
    rewrite Fb, Fa, F4, F3, F2 in F. cbn in F.
    destruct (failed st1); cbn in F; discriminate. }
  exists (code st5). split; [reflexivity|].
  exact (first_revision_signed st1 st5 A2 H5).
Qed.

Lemma first_revision_signed_refused (p : jsstring) :
  includes (js "ZellijBackendImpl") p = true
  \/ includes (js "isInsideZellijSync") p = true ->
  exists r',
    FixedNames.patchCliSource p = Some r' /\ success r' = false
    /\ patchedSource r' = None.
Proof.
  intros I. unfold FixedNames.patchCliSource.
  destruct (negb _ || negb _).
  - eexists. split; [reflexivity|]. split; reflexivity.
  - assert (includes (js "ZellijBackendImpl") p
            || includes (js "isInsideZellijSync") p = true) as ->.
    { destruct I as [-> | ->]; [reflexivity | apply orb_true_r]. }
    eexists. split; [reflexivity|]. split; reflexivity.
Qed.

(** X7. In the first revision too a patched text carries the signature
    token [isInsideZellijSync], put there by the second edit and kept by
    the edits after it: patching the result again never succeeds. *)
Theorem first_revision_patch_is_signed (source : jsstring) (r : PatchResult) :
  FixedNames.patchCliSource source = Some r -> success r = true ->
  exists p,
    patchedSource r = Some p
    /\ includes (js "isInsideZellijSync") p = true
    /\ exists r',
         FixedNames.patchCliSource p = Some r' /\ success r' = false
         /\ patchedSource r' = None.
Proof.
  intros H S. destruct (first_revision_success_signed _ _ H S) as (p & E & I).
  exists p. split; [exact E|]. split; [exact I|].
  apply first_revision_signed_refused. now right.
Qed.

Lemma sample_first_patch :
  exists r, FixedNames.patchCliSource sample_first = Some r /\ success r = true.
Proof.
  destruct (FixedNames.patchCliSource sample_first) as [r|] eqn:E;
    [|vm_compute in E; discriminate].
  exists r. split; [reflexivity|].
  vm_compute in E. injection E as <-. reflexivity.
Qed.

Lemma first_revision_patch_is_signed_witness :
  exists r,
    FixedNames.patchCliSource sample_first = Some r /\ success r = true
    /\ exists p,
         patchedSource r = Some p
         /\ includes (js "isInsideZellijSync") p = true
         /\ exists r',
              FixedNames.patchCliSource p = Some r' /\ success r' = false
              /\ patchedSource r' = None.
Proof.
  destruct sample_first_patch as (r & E & S).
  exists r. split; [exact E|]. split; [exact S|].
  exact (first_revision_patch_is_signed sample_first r E S).
Defined.

(** Both revisions return a report, sign what they patch, and refuse a
    signed text. *)
Lemma revision_facts (patch : jsstring -> option PatchResult) :
  revision patch ->
  (forall s, exists r, patch s = Some r)
  /\ (forall s r, patch s = Some r -> success r = true ->
        exists p, patchedSource r = Some p
                  /\ includes (js "isInsideZellijSync") p = true)
  /\ (forall p,
        includes (js "ZellijBackendImpl") p = true
        \/ includes (js "isInsideZellijSync") p = true ->
        exists r', patch p = Some r' /\ success r' = false
                   /\ patchedSource r' = None).
Proof.
  intros [-> | ->].
  - split; [apply patchCliSource_returns|].
    split; [apply success_signed | apply signed_refused].
  - split.
    + intros s. destruct (FixedNames_returns s) as (r & H & _). now exists r.
    + split; [apply first_revision_success_signed
             | apply first_revision_signed_refused].
Qed.

(** ** The commands *)

Section IndexFacts.

Import Restore.

Lemma sample_patch :
  exists r p,
    patchCliSource sample_cli = Some r /\ success r = true
    /\ patchedSource r = Some p /\ p <> [].
Proof.
  destruct (patchCliSource sample_cli) as [r|] eqn:E;
    [|vm_compute in E; discriminate].
  vm_compute in E. injection E as <-.
  eexists _, _. split; [reflexivity|]. split; [reflexivity|].
  split; [reflexivity | discriminate].
Qed.

Lemma log_each_spec (prefix : jsstring) (l : list jsstring) (p : process) :
  files (Index.log_each prefix l p) = files p
  /\ exited (Index.log_each prefix l p) = exited p
  /\ stderr (Index.log_each prefix l p) = stderr p
  /\ stdout (Index.log_each prefix l p) = stdout p ++ map (app prefix) l.
Proof.
  unfold Index.log_each. revert p. induction l as [|x l IH]; intros p; cbn.
  - now rewrite app_nil_r.
  - destruct (IH (log (prefix ++ x) p)) as (H1 & H2 & H3 & H4).
    rewrite H1, H2, H3, H4. cbn. now rewrite <- app_assoc.
Qed.

Lemma error_each_spec (prefix : jsstring) (l : list jsstring) (p : process) :
  files (Index.error_each prefix l p) = files p
  /\ exited (Index.error_each prefix l p) = exited p
  /\ stdout (Index.error_each prefix l p) = stdout p
  /\ stderr (Index.error_each prefix l p)
     = stderr p ++ map (fun x => js "Error: " ++ prefix ++ x) l.
Proof.
  unfold Index.error_each. revert p. induction l as [|x l IH]; intros p; cbn.
  - now rewrite app_nil_r.
  - destruct (IH (error (prefix ++ x) p)) as (H1 & H2 & H3 & H4).
    rewrite H1, H2, H3, H4. cbn. now rewrite <- app_assoc.
Qed.

Lemma log_warnings_spec (w : list jsstring) (p : process) :
  files (Index.log_warnings w p) = files p
  /\ exited (Index.log_warnings w p) = exited p
  /\ stderr (Index.log_warnings w p) = stderr p
  /\ exists more, stdout (Index.log_warnings w p) = stdout p ++ more.
Proof.
  unfold Index.log_warnings. destruct (0 <? List.length w).
  - destruct (log_each_spec (js "  ! ") w (log (nl ++ js "Warnings:") p))
      as (H1 & H2 & H3 & H4).
    rewrite H1, H2, H3, H4. cbn. repeat split. eexists.
    rewrite <- app_assoc. reflexivity.
  - repeat split. exists []. now rewrite app_nil_r.
Qed.

Lemma bak_differs (path : jsstring) : path ++ js ".bak" <> path.
Proof.
  intros E. apply (f_equal (@List.length N)) in E.
  rewrite length_app in E. cbn in E. lia.
Qed.

Ltac plain_keys :=
  change (@lookup jsstring) with (@lookup (list N)) in *;
  change (@insert jsstring) with (@insert (list N)) in *.

(** The two outcomes of the backup step. *)
Lemma backup_spec (path : jsstring) (p : process) (content : list N) :
  files p !! path = Some content ->
  exists p',
    Index.backup path p = Some p'
    /\ files p'
       = match files p !! (path ++ js ".bak") with
         | Some _ => files p
         | None => <[path ++ js ".bak" := content]> (files p)
         end
    /\ exited p' = exited p /\ stderr p' = stderr p.
Proof.
  intros H. unfold Index.backup, existsSync, copyFileSync. cbv zeta. plain_keys.
  destruct (files p !! (path ++ js ".bak")) as [b|] eqn:B; cbn [negb].
  - eexists. split; [reflexivity|]. repeat split.
  - rewrite H. eexists. split; [reflexivity|]. repeat split.
Qed.

(** The process a failed install leaves. *)
Lemma cmdInstall_failure_run
  (utf8_decode : list N -> jsstring) (utf8_encode : jsstring -> list N)
  (patch : jsstring -> option PatchResult)
  (path : jsstring) (p : process) (content : list N) (result : PatchResult) :
  files p !! path = Some content ->
  patch (utf8_decode content) = Some result ->
  success result = false \/ Index.truthy (patchedSource result) = false ->
  Index.cmdInstall utf8_decode utf8_encode patch path p
  = Some (exit 1
            (let e := Index.error_each (js "  - ") (failedPatches result)
                        (error (js "Patch failed:")
                           (log (js "Patching " ++ path ++ js "...") p)) in
             if 0 <? List.length (appliedPatches result) then
               Index.log_each (js "  + ") (appliedPatches result)
                 (log (nl ++ js "Patches that would have been applied:") e)
             else e)).
Proof.
  intros H P F. unfold Index.cmdInstall, Index.readFileSync. cbv zeta.
  cbn [log files]. plain_keys. rewrite H, P.
  assert (G : negb (success result) || negb (Index.truthy (patchedSource result)) = true).
  { destruct F as [-> | ->]; [reflexivity | apply orb_true_r]. }
  now rewrite G.
Qed.

Lemma cmdInstall_fails
  (utf8_decode : list N -> jsstring) (utf8_encode : jsstring -> list N)
  (patch : jsstring -> option PatchResult)
  (path : jsstring) (p : process) (content : list N) (result : PatchResult) :
  files p !! path = Some content ->
  patch (utf8_decode content) = Some result ->
  success result = false \/ Index.truthy (patchedSource result) = false ->
  exists p',
    Index.cmdInstall utf8_decode utf8_encode patch path p = Some p'
    /\ files p' = files p
    /\ exited p' = Some 1%Z.
Proof.
  intros H P F.
  rewrite (cmdInstall_failure_run utf8_decode utf8_encode patch path p content
             result H P F).
  eexists. split; [reflexivity|]. cbv zeta. cbn [exit files exited].
  split; [|reflexivity].
  destruct (0 <? List.length (appliedPatches result)).
  - rewrite (proj1 (log_each_spec _ _ _)). cbn [log files].
    now rewrite (proj1 (error_each_spec _ _ _)).
  - now rewrite (proj1 (error_each_spec _ _ _)).
Qed.

Lemma cmdInstall_succeeds
  (utf8_decode : list N -> jsstring) (utf8_encode : jsstring -> list N)
  (patch : jsstring -> option PatchResult)
  (path : jsstring) (p : process) (content : list N) (result : PatchResult)
  (patched : jsstring) :
  files p !! path = Some content ->
  patch (utf8_decode content) = Some result ->
  success result = true -> patchedSource result = Some patched ->
  patched <> [] ->
  exists p',
    Index.cmdInstall utf8_decode utf8_encode patch path p = Some p'
    /\ files p'
       = <[path := utf8_encode patched]>
           (match files p !! (path ++ js ".bak") with
            | Some _ => files p
            | None => <[path ++ js ".bak" := content]> (files p)
            end)
    /\ exited p' = exited p
    /\ stderr p' = stderr p.
Proof.
  intros H P S E Hn. unfold Index.cmdInstall, Index.readFileSync. cbv zeta.
  cbn [log files]. plain_keys. rewrite H, P, S, E.
  assert (T : Index.truthy (Some patched) = true) by (destruct patched; [easy | reflexivity]).
  rewrite T. cbn [negb orb].
  destruct (backup_spec path (log (js "Patching " ++ path ++ js "...") p) content H)
    as (pb & B & Bf & Be & Bs).
  rewrite B. eexists. split; [reflexivity|].
  cbn [log files exited stderr].
  set (q := Index.log_each _ _ _).
  destruct (log_warnings_spec (warnings result) q) as (W1 & W2 & W3 & _).
  rewrite W1, W2, W3. subst q.
  match goal with
  | |- context [Index.log_each ?a ?b ?c] =>
      destruct (log_each_spec a b c) as (L1 & L2 & L3 & _)
  end.
  rewrite L1, L2, L3. cbn [log with_files files exited stderr].
  unfold Index.writeFileSync. plain_keys. rewrite Bf. cbn [log files].
  repeat split; assumption.
Qed.

Lemma removePatch_restores (path : jsstring) (fs : gmap (list N) (list N))
  (b : list N) :
  fs !! (path ++ js ".bak") = Some b ->
  removePatch path fs = Some (true, <[path := b]> fs).
Proof.
  intros H. unfold removePatch, existsSync, copyFileSync. cbv zeta. plain_keys.
  now rewrite H.
Qed.

Lemma cmdUninstall_restores (path : jsstring) (p : process) (b : list N) :
  files p !! (path ++ js ".bak") = Some b ->
  exists p',
    cmdUninstall path p = Some p'
    /\ files p' = <[path := b]> (files p)
    /\ exited p' = exited p /\ stderr p' = stderr p.
Proof.
  intros H. unfold cmdUninstall. cbv zeta. cbn [log files].
  rewrite (removePatch_restores path (files p) b H).
  eexists. split; [reflexivity|]. repeat split.
Qed.

(** X9. When the patcher reports a failure, or gives no text,
    [cmdInstall] writes nothing: no file is changed and no backup is
    made, the failures are listed on the error stream and the process
    exits with status 1. *)
Theorem install_failure_writes_nothing
  (utf8_decode : list N -> jsstring) (utf8_encode : jsstring -> list N)
  (patch : jsstring -> option PatchResult)
  (path : jsstring) (p : process) (content : list N) (result : PatchResult) :
  files p !! path = Some content ->
  patch (utf8_decode content) = Some result ->
  success result = false \/ Index.truthy (patchedSource result) = false ->
  exists p',
    Index.cmdInstall utf8_decode utf8_encode patch path p = Some p'
    /\ files p' = files p
    /\ exited p' = Some 1%Z
    /\ stderr p'
       = stderr p ++ (js "Error: " ++ js "Patch failed:")
           :: map (fun f => js "Error: " ++ js "  - " ++ f) (failedPatches result)
    /\ stdout p'
       = stdout p ++ (js "Patching " ++ path ++ js "...")
           :: match appliedPatches result with
              | [] => []
              | _ :: _ =>
                  (nl ++ js "Patches that would have been applied:")
                  :: map (app (js "  + ")) (appliedPatches result)
              end.
Proof.
  intros H P F.
  rewrite (cmdInstall_failure_run utf8_decode utf8_encode patch path p content
             result H P F).
  eexists. split; [reflexivity|]. cbv zeta. cbn [exit files exited stderr stdout].
  set (e := Index.error_each _ _ _).
  assert (E : files e = files p /\ stdout e = stdout p ++ [js "Patching " ++ path ++ js "..."]
              /\ stderr e = stderr p ++ (js "Error: " ++ js "Patch failed:")
                   :: map (fun f => js "Error: " ++ js "  - " ++ f)
                        (failedPatches result)).
  { subst e. destruct (error_each_spec (js "  - ") (failedPatches result)
                         (error (js "Patch failed:")
                            (log (js "Patching " ++ path ++ js "...") p)))
      as (H1 & _ & H3 & H4).
    rewrite H1, H3, H4. cbn. repeat split. now rewrite <- app_assoc. }
  destruct E as (E1 & E2 & E3).
  destruct (appliedPatches result) as [|x l] eqn:A; cbn [List.length Nat.ltb Nat.leb].
  - rewrite E1, E2, E3. repeat split.
  - destruct (log_each_spec (js "  + ") (x :: l)
                (log (nl ++ js "Patches that would have been applied:") e))
      as (L1 & _ & L3 & L4).
    rewrite L1, L3, L4. cbn [log files stderr stdout]. rewrite E1, E2, E3.
    repeat split. now rewrite <- !app_assoc.
Qed.

Lemma install_failure_writes_nothing_witness :
  files lone_target !! js "cli.js" = Some (js "patched")
  /\ patchCliSource (js "patched") = Some notRecognized
  /\ (success notRecognized = false
      \/ Index.truthy (patchedSource notRecognized) = false)
  /\ exists p',
       Index.cmdInstall (fun x => x) (fun x => x) patchCliSource (js "cli.js")
         lone_target = Some p'
       /\ files p' = files lone_target
       /\ exited p' = Some 1%Z
       /\ stderr p'
          = stderr lone_target ++ (js "Error: " ++ js "Patch failed:")
              :: map (fun f => js "Error: " ++ js "  - " ++ f)
                   (failedPatches notRecognized)
       /\ stdout p'
          = stdout lone_target ++ (js "Patching " ++ js "cli.js" ++ js "...")
              :: match appliedPatches notRecognized with
                 | [] => []
                 | _ :: _ =>
                     (nl ++ js "Patches that would have been applied:")
                     :: map (app (js "  + ")) (appliedPatches notRecognized)
                 end.
Proof.
  assert (H : files lone_target !! js "cli.js" = Some (js "patched"))
    by apply lookup_singleton_eq.
  assert (P : patchCliSource (js "patched") = Some notRecognized)
    by (vm_compute; reflexivity).
  assert (F : success notRecognized = false
              \/ Index.truthy (patchedSource notRecognized) = false)
    by (left; reflexivity).
  split; [exact H|]. split; [exact P|]. split; [exact F|].
  exact (install_failure_writes_nothing (fun x => x) (fun x => x) patchCliSource
           (js "cli.js") lone_target (js "patched") notRecognized H P F).
Defined.

(** X10. When the patcher reports success with a text, [cmdInstall]
    writes that text to the target; the backup holds the original when
    there was none, and is left as it was when there was one; no other
    file is changed, nothing goes to the error stream and the process
    does not exit. *)
Theorem install_success_effect
  (utf8_decode : list N -> jsstring) (utf8_encode : jsstring -> list N)
  (patch : jsstring -> option PatchResult)
  (path : jsstring) (p : process) (content : list N) (result : PatchResult)
  (patched : jsstring) :
  files p !! path = Some content ->
  patch (utf8_decode content) = Some result ->
  success result = true -> patchedSource result = Some patched ->
  patched <> [] ->
  exists p',
    Index.cmdInstall utf8_decode utf8_encode patch path p = Some p'
    /\ files p' !! path = Some (utf8_encode patched)
    /\ files p' !! (path ++ js ".bak")
       = Some (match files p !! (path ++ js ".bak") with
               | Some old => old
               | None => content
               end)
    /\ (forall q, q <> path -> q <> path ++ js ".bak" ->
                  files p' !! q = files p !! q)
    /\ exited p' = exited p
    /\ stderr p' = stderr p.
Proof.
  intros H P S E Hn.
  destruct (cmdInstall_succeeds utf8_decode utf8_encode patch path p content
              result patched H P S E Hn) as (p' & I & F & Ex & Er).
  exists p'. split; [exact I|]. rewrite F.
  pose proof (bak_differs path) as D.
  split; [apply lookup_insert_eq|].
  split; [|split; [|split; [exact Ex | exact Er]]].
  - rewrite lookup_insert_ne by congruence.
    destruct (files p !! (path ++ js ".bak")) as [old|] eqn:O.
    + exact O.
    + apply lookup_insert_eq.
  - intros q Q1 Q2. rewrite lookup_insert_ne by congruence.
    destruct (files p !! (path ++ js ".bak")) as [old|] eqn:O.
    + reflexivity.
    + rewrite lookup_insert_ne by congruence. reflexivity.
Qed.

Lemma install_success_effect_witness :
  exists result patched,
    files sample_process !! js "cli.js" = Some sample_cli
    /\ patchCliSource sample_cli = Some result
    /\ success result = true /\ patchedSource result = Some patched
    /\ patched <> []
    /\ exists p',
         Index.cmdInstall (fun x => x) (fun x => x) patchCliSource
           (js "cli.js") sample_process = Some p'
         /\ files p' !! js "cli.js" = Some patched
         /\ files p' !! (js "cli.js" ++ js ".bak")
            = Some (match files sample_process !! (js "cli.js" ++ js ".bak") with
                    | Some old => old
                    | None => sample_cli
                    end)
         /\ (forall q, q <> js "cli.js" -> q <> js "cli.js" ++ js ".bak" ->
                       files p' !! q = files sample_process !! q)
         /\ exited p' = exited sample_process
         /\ stderr p' = stderr sample_process.
Proof.
  destruct sample_patch as (r & p & E & S & Ep & Hn).
  assert (H : files sample_process !! js "cli.js" = Some sample_cli)
    by apply lookup_singleton_eq.
  exists r, p. split; [exact H|]. split; [exact E|]. split; [exact S|].
  split; [exact Ep|]. split; [exact Hn|].
  exact (install_success_effect (fun x => x) (fun x => x) patchCliSource
           (js "cli.js") sample_process sample_cli r p H E S Ep Hn).
Defined.

(** X11. [cmdInstall] on a target without a backup, followed by
    [cmdUninstall], gives the target its original bytes back: the files
    are those before the install, and the backup beside them. *)
Theorem install_then_uninstall_restores
  (utf8_decode : list N -> jsstring) (utf8_encode : jsstring -> list N)
  (patch : jsstring -> option PatchResult)
  (path : jsstring) (p : process) (content : list N) (result : PatchResult)
  (patched : jsstring) :
  files p !! path = Some content ->
  files p !! (path ++ js ".bak") = None ->
  patch (utf8_decode content) = Some result ->
  success result = true -> patchedSource result = Some patched ->
  patched <> [] ->
  exists p1 p2,
    Index.cmdInstall utf8_decode utf8_encode patch path p = Some p1
    /\ cmdUninstall path p1 = Some p2
    /\ files p2 = <[path ++ js ".bak" := content]> (files p)
    /\ files p2 !! path = Some content
    /\ exited p2 = exited p.
Proof.
  intros H B P S E Hn.
  destruct (cmdInstall_succeeds utf8_decode utf8_encode patch path p content
              result patched H P S E Hn) as (p1 & I & F & Ex & _).
  rewrite B in F.
  pose proof (bak_differs path) as D.
  assert (Bk : files p1 !! (path ++ js ".bak") = Some content).
  { rewrite F, lookup_insert_ne by congruence. apply lookup_insert_eq. }
  destruct (cmdUninstall_restores path p1 content Bk) as (p2 & U & F2 & Ex2 & _).
  exists p1, p2. split; [exact I|]. split; [exact U|].
  assert (G : files p2 = <[path ++ js ".bak" := content]> (files p)).
  { rewrite F2, F. rewrite insert_insert_eq.
    rewrite insert_insert_ne by congruence.
    f_equal. apply insert_id. exact H. }
  split; [exact G|]. split.
  - rewrite G, lookup_insert_ne by exact D. exact H.
  - congruence.
Qed.

Lemma sample_without_backup :
  files sample_process !! (js "cli.js" ++ js ".bak") = None.
Proof.
  apply lookup_singleton_ne. intros E. apply (f_equal (@List.length N)) in E.
  vm_compute in E. discriminate.
Qed.

Lemma install_then_uninstall_restores_witness :
  exists result patched,
    files sample_process !! js "cli.js" = Some sample_cli
    /\ files sample_process !! (js "cli.js" ++ js ".bak") = None
    /\ patchCliSource sample_cli = Some result
    /\ success result = true /\ patchedSource result = Some patched
    /\ patched <> []
    /\ exists p1 p2,
         Index.cmdInstall (fun x => x) (fun x => x) patchCliSource
           (js "cli.js") sample_process = Some p1
         /\ cmdUninstall (js "cli.js") p1 = Some p2
         /\ files p2 = <[js "cli.js" ++ js ".bak" := sample_cli]> (files sample_process)
         /\ files p2 !! js "cli.js" = Some sample_cli
         /\ exited p2 = exited sample_process.
Proof.
  destruct sample_patch as (r & p & E & S & Ep & Hn).
  assert (H : files sample_process !! js "cli.js" = Some sample_cli)
    by apply lookup_singleton_eq.
  exists r, p. split; [exact H|]. split; [exact sample_without_backup|].
  split; [exact E|]. split; [exact S|]. split; [exact Ep|]. split; [exact Hn|].
  exact (install_then_uninstall_restores (fun x => x) (fun x => x) patchCliSource
           (js "cli.js") sample_process sample_cli r p H sample_without_backup
           E S Ep Hn).
Defined.

(** X12. After [cmdInstall] has patched a file, with either revision of
    the patcher and a text that [utf-8] writing and reading give back, a
    second [cmdInstall] is refused: it exits with status 1 and changes no
    file, so that the backup still holds what it held after the first. *)
Theorem second_install_is_refused
  (utf8_decode : list N -> jsstring) (utf8_encode : jsstring -> list N)
  (patch : jsstring -> option PatchResult)
  (path : jsstring) (p : process) (content : list N) (result : PatchResult) :
  revision patch ->
  files p !! path = Some content ->
  patch (utf8_decode content) = Some result ->
  success result = true ->
  (forall s, patchedSource result = Some s -> utf8_decode (utf8_encode s) = s) ->
  exists p1 p2,
    Index.cmdInstall utf8_decode utf8_encode patch path p = Some p1
    /\ Index.cmdInstall utf8_decode utf8_encode patch path p1 = Some p2
    /\ files p2 = files p1
    /\ files p2 !! (path ++ js ".bak")
       = Some (match files p !! (path ++ js ".bak") with
               | Some old => old
               | None => content
               end)
    /\ exited p2 = Some 1%Z.
Proof.
  intros Rv H P S RT. destruct (revision_facts patch Rv) as (_ & Sg & Rf).
  destruct (Sg _ _ P S) as (patched & E & I).
  assert (Hn : patched <> []).
  { intros ->. vm_compute in I. discriminate. }
  destruct (cmdInstall_succeeds utf8_decode utf8_encode patch path p
              content result patched H P S E Hn) as (p1 & I1 & F & _ & _).
  destruct (Rf patched (or_intror I)) as (r' & P' & S' & _).
  assert (H1 : files p1 !! path = Some (utf8_encode patched)).
  { rewrite F. apply lookup_insert_eq. }
  rewrite <- (RT patched E) in P'.
  destruct (cmdInstall_fails utf8_decode utf8_encode patch path p1
              (utf8_encode patched) r' H1 P' (or_introl S'))
    as (p2 & I2 & F2 & Ex2).
  exists p1, p2. repeat split; try assumption.
  rewrite F2, F. pose proof (bak_differs path) as D.
  rewrite lookup_insert_ne by congruence.
  destruct (files p !! (path ++ js ".bak")) as [old|] eqn:O.
  - exact O.
  - apply lookup_insert_eq.
Qed.

Lemma second_install_is_refused_witness :
  exists result,
    revision patchCliSource
    /\ files sample_process !! js "cli.js" = Some sample_cli
    /\ patchCliSource sample_cli = Some result
    /\ success result = true
    /\ (forall s, patchedSource result = Some s -> s = s)
    /\ exists p1 p2,
         Index.cmdInstall (fun x => x) (fun x => x) patchCliSource
           (js "cli.js") sample_process = Some p1
         /\ Index.cmdInstall (fun x => x) (fun x => x) patchCliSource
              (js "cli.js") p1 = Some p2
         /\ files p2 = files p1
         /\ files p2 !! (js "cli.js" ++ js ".bak")
            = Some (match files sample_process !! (js "cli.js" ++ js ".bak") with
                    | Some old => old
                    | None => sample_cli
                    end)
         /\ exited p2 = Some 1%Z.
Proof.
  destruct sample_patch as (r & p & E & S & _).
  assert (Rv : revision patchCliSource) by now left.
  assert (H : files sample_process !! js "cli.js" = Some sample_cli)
    by apply lookup_singleton_eq.
  assert (RT : forall s, patchedSource r = Some s -> s = s) by reflexivity.
  exists r. split; [exact Rv|]. split; [exact H|]. split; [exact E|].
  split; [exact S|]. split; [exact RT|].
  exact (second_install_is_refused (fun x => x) (fun x => x) patchCliSource
           (js "cli.js") sample_process sample_cli r Rv H E S RT).
Defined.



(** X8. With a backup, [removePatch] returns true and the target holds
    the bytes of the backup; the backup and every other file are as
    before, and a second [removePatch] changes nothing more. *)
Theorem restore_copies_backup (path : jsstring)
  (fs : gmap (list N) (list N)) (b : list N) :
  fs !! (path ++ js ".bak") = Some b ->
  exists fs',
    removePatch path fs = Some (true, fs')
    /\ fs' !! path = Some b
    /\ fs' !! (path ++ js ".bak") = Some b
    /\ (forall q, q <> path -> fs' !! q = fs !! q)
    /\ removePatch path fs' = Some (true, fs').
Proof.
  intros H. exists (<[path := b]> fs).
  pose proof (bak_differs path) as D.
  assert (B : <[path := b]> fs !! (path ++ js ".bak") = Some b).
  { rewrite lookup_insert_ne by congruence. exact H. }
  split; [now apply removePatch_restores|].
  split; [apply lookup_insert_eq|]. split; [exact B|]. split.
  - intros q Q. now rewrite lookup_insert_ne by congruence.
  - rewrite (removePatch_restores path _ b B). now rewrite insert_insert_eq.
Qed.

Lemma restore_copies_backup_witness :
  files lone_backup !! (js "cli.js" ++ js ".bak") = Some (js "original")
  /\ exists fs',
       removePatch (js "cli.js") (files lone_backup) = Some (true, fs')
       /\ fs' !! js "cli.js" = Some (js "original")
       /\ fs' !! (js "cli.js" ++ js ".bak") = Some (js "original")
       /\ (forall q, q <> js "cli.js" -> fs' !! q = files lone_backup !! q)
       /\ removePatch (js "cli.js") fs' = Some (true, fs').
Proof.
  assert (H : files lone_backup !! (js "cli.js" ++ js ".bak")
              = Some (js "original")) by apply lookup_singleton_eq.
  split; [exact H|].
  exact (restore_copies_backup (js "cli.js") (files lone_backup) (js "original") H).
Defined.

Lemma jseqb_eq (a b : jsstring) : jseqb a b = true <-> a = b.
Proof.
  revert b. induction a as [|x a IH]; intros [|y b]; cbn; try easy.
  rewrite andb_true_iff, N.eqb_eq, IH. split.
  - now intros [-> ->].
  - intros E. now injection E.
Qed.

Lemma cmdInstall_frame
  (utf8_decode : list N -> jsstring) (utf8_encode : jsstring -> list N)
  (patch : jsstring -> option PatchResult) (path : jsstring) (p p' : process) :
  Index.cmdInstall utf8_decode utf8_encode patch path p = Some p' ->
  forall q, q <> path -> q <> path ++ js ".bak" -> files p' !! q = files p !! q.
Proof.
  intros I q Q1 Q2.
  destruct (files p !! path) as [content|] eqn:H.
  2:{ unfold Index.cmdInstall, Index.readFileSync in I. cbv zeta in I.
      cbn [log files] in I. plain_keys. rewrite H in I. discriminate. }
  destruct (patch (utf8_decode content)) as [r|] eqn:P.
  2:{ unfold Index.cmdInstall, Index.readFileSync in I. cbv zeta in I.
      cbn [log files] in I. plain_keys. rewrite H, P in I. discriminate. }
  destruct (success r) eqn:S.
  - destruct (patchedSource r) as [[|c patched]|] eqn:E.
    + destruct (cmdInstall_fails utf8_decode utf8_encode patch path p content r H P)
        as (p'' & I' & F & _); [right; now rewrite E|].
      rewrite I in I'. injection I' as <-. now rewrite F.
    + destruct (cmdInstall_succeeds utf8_decode utf8_encode patch path p content r
                  (c :: patched) H P S E) as (p'' & I' & F & _); [discriminate|].
      rewrite I in I'. injection I' as <-. rewrite F.
      rewrite lookup_insert_ne by congruence.
      destruct (files p !! (path ++ js ".bak")); [reflexivity|].
      now rewrite lookup_insert_ne by congruence.
    + destruct (cmdInstall_fails utf8_decode utf8_encode patch path p content r H P)
        as (p'' & I' & F & _); [right; now rewrite E|].
      rewrite I in I'. injection I' as <-. now rewrite F.
  - destruct (cmdInstall_fails utf8_decode utf8_encode patch path p content r H P)
      as (p'' & I' & F & _); [now left|].
    rewrite I in I'. injection I' as <-. now rewrite F.
Qed.

Lemma cmdUninstall_frame (path : jsstring) (p p' : process) :
  cmdUninstall path p = Some p' ->
  forall q, q <> path -> files p' !! q = files p !! q.
Proof.
  intros U q Q.
  destruct (files p !! (path ++ js ".bak")) as [b|] eqn:B.
  - destruct (cmdUninstall_restores path p b B) as (p'' & U' & F & _).
    rewrite U in U'. injection U' as <-. rewrite F.
    now rewrite lookup_insert_ne by congruence.
  - unfold cmdUninstall, removePatch, existsSync in U. cbv zeta in U.
    cbn [log files] in U. plain_keys. rewrite B in U. cbn in U.
    injection U as <-. reflexivity.
Qed.

Lemma cmdCheck_reads_only
  (utf8_decode : list N -> jsstring) (patch : jsstring -> option PatchResult)
  (path : jsstring) (p p' : process) :
  Index.cmdCheck utf8_decode patch path p = Some p' ->
  files p' = files p /\ exited p' = exited p /\ stderr p' = stderr p.
Proof.
  unfold Index.cmdCheck, Index.readFileSync. cbv zeta. cbn [log files].
  destruct (files p !! path) as [content|]; [|discriminate].
  destruct (includes (js "ZellijBackendImpl") (utf8_decode content)).
  - intros E. injection E as <-. repeat split.
  - destruct (patch (utf8_decode content)) as [r|]; [|discriminate].
    intros E. injection E as <-.
    set (q := if success r then _ else _).
    destruct (log_warnings_spec (warnings r) q) as (W1 & W2 & W3 & _).
    rewrite W1, W2, W3. subst q.
    destruct (success r);
      match goal with
      | |- context [Index.log_each ?a ?b ?c] =>
          destruct (log_each_spec a b c) as (L1 & L2 & L3 & _)
      end; rewrite L1, L2, L3; repeat split.
Qed.

Lemma resolveCliJs_reads_only (resolve : jsstring -> jsstring)
  (found : option jsstring) (target : option jsstring) (p : process) :
  files (snd (Index.resolveCliJs resolve found target p)) = files p
  /\ exited (snd (Index.resolveCliJs resolve found target p)) = exited p.
Proof.
  unfold Index.resolveCliJs.
  destruct target as [[|c rest]|]; cbv zeta;
    try (destruct found as [[|d f]|]; split; reflexivity).
  destruct (existsSync (files p) (resolve (c :: rest))); split; reflexivity.
Qed.

(** X14. Whatever the arguments, the program changes no file unless the
    command is [install] or [uninstall] and a target was found, and then
    at most the target and the file of that name with [.bak] added. *)
Theorem main_touches_only_the_target
  (utf8_decode : list N -> jsstring) (utf8_encode : jsstring -> list N)
  (patch : jsstring -> option PatchResult) (resolve : jsstring -> jsstring)
  (found : option jsstring) (args : list jsstring) (p p' : process) :
  Index.main utf8_decode utf8_encode patch resolve found args p = Some p' ->
  (args !! 0 <> Some (js "install") -> args !! 0 <> Some (js "uninstall") ->
   files p' = files p)
  /\ (fst (Index.resolveCliJs resolve found (args !! 1) p) = None ->
      files p' = files p)
  /\ (forall t, fst (Index.resolveCliJs resolve found (args !! 1) p) = Some t ->
      forall q, q <> t -> q <> t ++ js ".bak" -> files p' !! q = files p !! q).
Proof.
  intros M. unfold Index.main in M. cbv zeta in M.
  assert (D : forall q, (match args !! 0 with
                         | Some (c :: rest) =>
                             Some (exit 1 (error (js "Unknown command: " ++ c :: rest)
                                             (log Index.USAGE p)))
                         | _ => Some (exit 0 (log Index.USAGE p))
                         end) = Some q -> files q = files p).
  { intros q E. destruct (args !! 0) as [[|c rest]|]; injection E as <-; reflexivity. }
  destruct (Index.resolveCliJs resolve found (args !! 1) p) as [t p1] eqn:R.
  pose proof (resolveCliJs_reads_only resolve found (args !! 1) p) as [Rf _].
  rewrite R in Rf. cbn [snd] in Rf. cbn [fst].
  assert (T : forall cmd,
             (forall path x y, cmd path x = Some y ->
                forall q, q <> path -> q <> path ++ js ".bak" ->
                          files y !! q = files x !! q) ->
             Index.on_target resolve found cmd (args !! 1) p = Some p' ->
             (t = None -> files p' = files p)
             /\ (forall t', t = Some t' ->
                 forall q, q <> t' -> q <> t' ++ js ".bak" ->
                           files p' !! q = files p !! q)).
  { intros cmd Hc O. unfold Index.on_target in O. rewrite R in O.
    destruct t as [[|c rest]|].
    - injection O as <-. split; [discriminate|]. intros t' _ q _ _. now rewrite Rf.
    - split; [discriminate|]. intros t' E q Q1 Q2. injection E as <-.
      transitivity (files p1 !! q); [exact (Hc _ _ _ O q Q1 Q2) | now rewrite Rf].
    - injection O as <-. split; [intros _; exact Rf | discriminate]. }
  assert (U : forall q, Some q = Some p' -> files q = files p ->
              (args !! 0 <> Some (js "install") ->
               args !! 0 <> Some (js "uninstall") -> files p' = files p)
              /\ (t = None -> files p' = files p)
              /\ (forall t', t = Some t' ->
                  forall q, q <> t' -> q <> t' ++ js ".bak" ->
                            files p' !! q = files p !! q)).
  { intros q E F. injection E as <-. split; [auto|]. split; [auto|].
    intros t' _ q' _ _. now rewrite F. }
  destruct (args !! 0) as [c|] eqn:A.
  2:{ apply (U (exit 0 (log Index.USAGE p))); [exact M | reflexivity]. }
  destruct (jseqb c (js "install")) eqn:E1.
  { apply jseqb_eq in E1. subst c.
    destruct (T _ (cmdInstall_frame utf8_decode utf8_encode patch) M) as [T1 T2].
    split; [intros X; now destruct X|]. split; assumption. }
  destruct (jseqb c (js "uninstall")) eqn:E2.
  { apply jseqb_eq in E2. subst c.
    destruct (T cmdUninstall) as [T1 T2]; [|exact M|].
    - intros path x y Hu q Q1 _. now apply (cmdUninstall_frame path x y).
    - split; [intros _ X; now destruct X|]. split; assumption. }
  destruct (jseqb c (js "check")) eqn:E3.
  { unfold Index.on_target in M. rewrite R in M.
    destruct t as [[|d rest]|].
    - apply (U p1); [exact M | exact Rf].
    - destruct (cmdCheck_reads_only utf8_decode patch _ _ _ M) as (F & _).
      apply (U p'); [reflexivity | congruence].
    - apply (U p1); [exact M | exact Rf]. }
  destruct (jseqb c (js "help") || jseqb c (js "--help") || jseqb c (js "-h")).
  { apply (U (log Index.USAGE p)); [exact M | reflexivity]. }
  destruct c as [|c0 rest];
    injection M as <-; (split; [auto|]; split; [auto|]); intros t' _ q' _ _; reflexivity.
Qed.

Lemma main_touches_only_the_target_witness :
  exists p',
    Index.main (fun x => x) (fun x => x) patchCliSource (fun x => x) None
      [js "install"; js "cli.js"] sample_process = Some p'
    /\ ([js "install"; js "cli.js"] !! 0 <> Some (js "install") ->
        [js "install"; js "cli.js"] !! 0 <> Some (js "uninstall") ->
        files p' = files sample_process)
    /\ (fst (Index.resolveCliJs (fun x => x) None
               ([js "install"; js "cli.js"] !! 1) sample_process) = None ->
        files p' = files sample_process)
    /\ (forall t,
          fst (Index.resolveCliJs (fun x => x) None
                 ([js "install"; js "cli.js"] !! 1) sample_process) = Some t ->
          forall q, q <> t -> q <> t ++ js ".bak" ->
                    files p' !! q = files sample_process !! q).
Proof.
  destruct (Index.main (fun x => x) (fun x => x) patchCliSource (fun x => x) None
              [js "install"; js "cli.js"] sample_process) as [p'|] eqn:M;
    [|vm_compute in M; discriminate].
  exists p'. split; [reflexivity|].
  exact (main_touches_only_the_target (fun x => x) (fun x => x) patchCliSource
           (fun x => x) None [js "install"; js "cli.js"] sample_process p' M).
Defined.



End IndexFacts.

(** ** Finding cli.js *)

Section FindFacts.

Import Find.

Lemma is_elf_head (content : list N) :
  is_elf (firstn 4 (content ++ [0; 0; 0; 0]%N)) = true
  <-> firstn 4 content = [127; 69; 76; 70]%N.
Proof.
  unfold is_elf.
  destruct content as [|a [|b [|c [|e rest]]]]; cbn [app firstn nth].
  1-4: split; [|discriminate]; intros H;
       rewrite !andb_true_iff in H; destruct H as [_ H]; discriminate.
  rewrite !andb_true_iff, !N.eqb_eq. split.
  - intros [[[-> ->] ->] ->]. reflexivity.
  - intros E. injection E as -> -> -> ->. auto.
Qed.

Lemma first_script_step (d : disk) (c : jsstring) (rest : list jsstring) :
  (script d c /\ first_script d (c :: rest) = Some c)
  \/ (~ script d c /\ first_script d (c :: rest) = first_script d rest).
Proof.
  cbn [first_script]. unfold existsSync, readHead, script.
  destruct (regular d !! c) as [content|] eqn:R.
  - cbn [negb]. destruct (is_elf (firstn 4 (content ++ [0; 0; 0; 0]%N))) eqn:E.
    + right. split; [|reflexivity]. intros (x & Hx & N). injection Hx as <-.
      apply is_elf_head in E. contradiction.
    + left. split; [|reflexivity]. exists content. split; [reflexivity|].
      intros M. apply is_elf_head in M. congruence.
  - right. split; [intros (x & Hx & _); discriminate|].
    destruct (directory d !! c); reflexivity.
Qed.

(** X16. [findCliJs] returns the first of its candidates that is a
    regular file not beginning with the ELF magic number: what stands
    before it in the list is missing, a directory or an ELF binary; it
    returns [null] exactly when no candidate is such a file. *)
Theorem findCliJs_first_script (path_join : list jsstring -> jsstring)
  (env : gmap (list N) (list N)) (d : disk) :
  match findCliJs path_join env d with
  | Some c =>
      exists before after,
        candidates path_join env d = before ++ c :: after
        /\ script d c
        /\ forall x, In x before -> ~ script d x
  | None => forall x, In x (candidates path_join env d) -> ~ script d x
  end.
Proof.
  unfold findCliJs.
  induction (candidates path_join env d) as [|c rest IH]; [intros x []|].
  destruct (first_script_step d c rest) as [[S ->] | [S ->]].
  - exists [], rest. split; [reflexivity|]. split; [exact S|]. intros x [].
  - destruct (first_script d rest) as [c'|].
    + destruct IH as (before & after & -> & S' & B).
      exists (c :: before), after. split; [reflexivity|]. split; [exact S'|].
      intros x [<- | I]; [exact S | now apply B].
    + intros x [<- | I]; [exact S | now apply IH].
Qed.

Lemma js_le_total (a b : jsstring) : js_le a b = false -> js_le b a = true.
Proof.
  revert b. induction a as [|x a IH]; intros [|y b]; cbn; try easy.
  destruct (x <? y)%N eqn:L; [discriminate|].
  destruct (x =? y)%N eqn:E.
  - apply N.eqb_eq in E. subst y. rewrite L, N.eqb_refl. apply IH.
  - intros _. apply N.ltb_ge in L. apply N.eqb_neq in E.
    assert ((y <? x)%N = true) as -> by (apply N.ltb_lt; lia). reflexivity.
Qed.

Lemma js_le_trans (a b c : jsstring) :
  js_le a b = true -> js_le b c = true -> js_le a c = true.
Proof.
  revert b c. induction a as [|x a IH]; intros [|y b] [|z c]; cbn; try easy.
  destruct (x <? y)%N eqn:L1; destruct (y <? z)%N eqn:L2;
    destruct (x =? y)%N eqn:E1; destruct (y =? z)%N eqn:E2;
    try discriminate;
    rewrite ?N.ltb_lt, ?N.ltb_ge, ?N.eqb_eq, ?N.eqb_neq in *; intros H1 H2.
  all: try (assert ((x <? z)%N = true) as -> by (apply N.ltb_lt; lia); reflexivity).
  subst. rewrite (proj2 (N.ltb_ge z z)) by lia. rewrite N.eqb_refl.
  now apply (IH b c).
Qed.

Lemma insert_sorted_perm (x : jsstring) (l : list jsstring) :
  Permutation (insert_sorted x l) (x :: l).
Proof.
  induction l as [|y l IH]; cbn; [reflexivity|].
  destruct (js_le x y); [reflexivity|].
  rewrite IH. apply perm_swap.
Qed.

Lemma sort_perm (l : list jsstring) : Permutation (sort l) l.
Proof.
  induction l as [|x l IH]; cbn; [reflexivity|].
  rewrite insert_sorted_perm. now constructor.
Qed.

Lemma insert_sorted_sorted (x : jsstring) (l : list jsstring) :
  StronglySorted (fun a b => js_le a b = true) l ->
  StronglySorted (fun a b => js_le a b = true) (insert_sorted x l).
Proof.
  induction 1 as [|y l S IH F]; cbn.
  - repeat constructor.
  - destruct (js_le x y) eqn:L.
    + constructor; [now constructor|]. constructor; [exact L|].
      eapply Forall_impl; [exact F|]. intros z Hz. cbn in *.
      now apply (js_le_trans x y z).
    + constructor; [exact IH|].
      eapply Permutation_Forall; [symmetry; apply insert_sorted_perm|].
      constructor; [now apply js_le_total | exact F].
Qed.

Lemma sort_sorted (l : list jsstring) :
  StronglySorted (fun a b => js_le a b = true) (sort l).
Proof.
  induction l as [|x l IH]; cbn; [constructor | now apply insert_sorted_sorted].
Qed.

Lemma rev_sorted {A : Type} (R : A -> A -> Prop) (l : list A) :
  StronglySorted R l -> StronglySorted (fun a b => R b a) (rev l).
Proof.
  induction 1 as [|x l S IH F]; cbn; [constructor|].
  assert (G : forall l1 : list A,
             StronglySorted (fun a b => R b a) l1 ->
             Forall (fun y => R x y) l1 ->
             StronglySorted (fun a b => R b a) (l1 ++ [x])).
  { induction 1 as [|y l1 S1 IH1 F1]; intros Fx; cbn.
    - repeat constructor.
    - inversion Fx; subst. constructor; [now apply IH1|].
      apply Forall_app. split; [exact F1 | now constructor]. }
  apply G; [exact IH|]. apply Forall_rev. exact F.
Qed.

(** X17. The nvm candidates are one for each entry of the versions
    directory, from the greatest name down in the order of the code
    units; when the path is missing or is no directory there are
    none. *)
Theorem nvm_versions_descending (path_join : list jsstring -> jsstring)
  (env : gmap (list N) (list N)) (d : disk) :
  (forall entries,
     directory d !! nvmDir path_join env = Some entries ->
     exists versions,
       nvm_candidates path_join env d
       = map (fun ver =>
                path_join [nvmDir path_join env; ver; js "lib/" ++ cli_js])
           versions
       /\ Permutation versions entries
       /\ StronglySorted (fun a b => js_le b a = true) versions)
  /\ (directory d !! nvmDir path_join env = None ->
      nvm_candidates path_join env d = []).
Proof.
  unfold nvm_candidates, existsSync, readdirSync. split.
  - intros entries H. change jsstring with (list N) in *. rewrite H.
    exists (rev (sort entries)). split.
    + match goal with
      | |- context [if match ?x with _ => _ end then _ else _] => destruct x
      end; reflexivity.
    + split.
      * rewrite <- Permutation_rev. apply sort_perm.
      * apply (rev_sorted (fun a b => js_le a b = true)). apply sort_sorted.
  - intros H. change jsstring with (list N) in *. rewrite H.
    match goal with
    | |- context [if match ?x with _ => _ end then _ else _] => destruct x
    end; reflexivity.
Qed.

Lemma nvm_versions_descending_witness :
  nvm_candidates (join (js "/")) empty two_versions
  = [ js "~/.nvm/versions/node/v9.0.0/lib/" ++ cli_js;
      js "~/.nvm/versions/node/v18.0.0/lib/" ++ cli_js ]
  /\ (forall entries,
        directory two_versions !! nvmDir (join (js "/")) empty = Some entries ->
        exists versions,
          nvm_candidates (join (js "/")) empty two_versions
          = map (fun ver =>
                   join (js "/") [nvmDir (join (js "/")) empty; ver;
                                  js "lib/" ++ cli_js])
              versions
          /\ Permutation versions entries
          /\ StronglySorted (fun a b => js_le b a = true) versions)
  /\ (directory two_versions !! nvmDir (join (js "/")) empty = None ->
      nvm_candidates (join (js "/")) empty two_versions = []).
Proof.
  split; [vm_compute; reflexivity|].
  exact (nvm_versions_descending (join (js "/")) empty two_versions).
Defined.

End FindFacts.

(** ** The pane counter and the releases *)

Section PaneNumbers.

Import ZellijBackend.

Lemma chain_unique k k' s : chain k s -> chain k' s -> k = k'.
Proof.
  intros (_ & _ & _ & Hs & _) (_ & _ & _ & Hs' & _).
  assert (k <= k') by (apply Hs', Hs; lia).
  assert (k' <= k) by (apply Hs, Hs'; lia).
  lia.
Qed.

(** What one advance does: the first unfinished request takes the lock,
    moves on inside, or leaves and releases. *)
Lemma advance_cases k s i s' :
  chain k s -> advance i s = Some s' ->
  i = k
  /\ exists r st,
       requests s !! k = Some r
       /\ requests s' = <[k := at_ st r]> (requests s)
       /\ ((at_stage r = Waiting /\ st = Creating
            /\ settled s' = settled s
            /\ paneCreationCount s' = S (paneCreationCount s))
           \/ (holding r /\ holding (at_ st r)
               /\ settled s' = settled s
               /\ paneCreationCount s' = paneCreationCount s)
           \/ (holding r /\ finished (at_ st r)
               /\ settled s' = S k :: settled s
               /\ paneCreationCount s' = paneCreationCount s)).
Proof.
  intros C H. pose proof H as H0. unfold advance in H.
  destruct (requests s !! i) as [r|] eqn:Hr; [|discriminate].
  destruct (resume r s) as [[st s1]|] eqn:Hres; [|discriminate].
  injection H as <-.
  assert (k = i) by (symmetry; eapply chain_head; eassumption). subst k.
  split; [reflexivity|].
  pose proof C as (Hid & _ & _ & _ & _ & _ & _ & Hh).
  rewrite Hr in Hh. destruct (Hid i r Hr) as [_ Hn].
  destruct (requests_resume _ _ _ _ Hres) as (Er & _ & _).
  exists r, st. split; [exact Hr|]. split; [cbn; now rewrite Er|].
  unfold resume in Hres. unfold holding, finished in *. cbn [at_stage at_].
  destruct (at_stage r) eqn:St.
  - destruct (is_settled (prev r) s); [|discriminate]. injection Hres as <- <-.
    left. cbn. auto.
  - destruct Hh as [[? _] | [_ Hp]]; [congruence|].
    destruct (new_pane (codes r) =? 0)%Z; injection Hres as <- <-.
    + right; left. auto.
    + right; right. cbn. rewrite Hn. auto.
  - injection Hres as <- <-. right; left. auto.
  - injection Hres as <- <-. right; left. auto.
  - destruct Hh as [[? _] | [_ Hp]]; [congruence|].
    destruct (write_chars (codes r) =? 0)%Z; injection Hres as <- <-.
    + right; left. auto.
    + right; right. unfold release_pending. rewrite Hp. cbn. auto.
  - destruct Hh as [[? _] | [_ Hp]]; [congruence|].
    injection Hres as <- <-.
    right; right. unfold release_pending. rewrite Hp. cbn. auto.
  - discriminate.
Qed.

Lemma counted_initial : counted 0 initial.
Proof. reflexivity. Qed.

Lemma counted_call c k s : chain k s -> counted k s -> counted k (call c s).
Proof.
  intros (_ & _ & _ & _ & Hk & _) Hc. unfold counted in *.
  unfold call; cbn.
  destruct (decide (k < length (requests s))) as [Lt | Ge].
  - rewrite lookup_app_l by exact Lt. exact Hc.
  - assert (requests s !! k = None) as N by (apply lookup_ge_None; lia).
    rewrite N in Hc. rewrite lookup_app_r by lia.
    replace (k - length (requests s)) with 0 by lia. exact Hc.
Qed.

(** After a step the chain is at [k] again, or at [S k] when the request
    [k] finished. *)
Lemma advance_chain k s i s' :
  chain k s -> counted k s -> List.NoDup (settled s) -> advance i s = Some s' ->
  exists k', chain k' s' /\ counted k' s' /\ List.NoDup (settled s').
Proof.
  intros C Hc Nd H.
  destruct (chain_advance k s i s' C H) as [k' C'].
  destruct (advance_cases k s i s' C H) as (-> & r & st & Hr & Er & Cases).
  pose proof (lookup_lt_Some _ _ _ Hr) as Lt.
  pose proof C as (_ & _ & _ & Hs & _ & _ & Ha & _).
  pose proof C' as (_ & _ & _ & Hs' & _ & _ & _ & _).
  exists k'. split; [exact C'|].
  unfold counted in *. rewrite Hr in Hc.
  destruct Cases as [(St & -> & Es & Ep) | [(Ho & Ho' & Es & Ep) | (Ho & Hf & Es & Ep)]].
  - assert (k' = k).
    { assert (k' <= k) by (apply Hs; rewrite <- Es; apply Hs'; lia).
      assert (k <= k') by (apply Hs'; rewrite Es; apply Hs; lia). lia. }
    subst k'. rewrite Es. split; [|exact Nd].
    rewrite Er, list_lookup_insert_eq by exact Lt. cbn.
    rewrite St in Hc. lia.
  - assert (k' = k).
    { assert (k' <= k) by (apply Hs; rewrite <- Es; apply Hs'; lia).
      assert (k <= k') by (apply Hs'; rewrite Es; apply Hs; lia). lia. }
    subst k'. rewrite Es. split; [|exact Nd].
    rewrite Er, list_lookup_insert_eq by exact Lt.
    unfold holding in Ho, Ho'. cbn in Ho' |- *.
    destruct (at_stage r); try contradiction; destruct st; try contradiction; lia.
  - assert (k' = S k).
    { assert (S k <= k') by (apply Hs'; rewrite Es; now left).
      assert (In k' (settled s')) as I by (apply Hs'; lia).
      rewrite Es in I. destruct I as [<- | I]; [reflexivity|].
      apply Hs in I. lia. }
    subst k'. rewrite Es. split.
    + rewrite Er, list_lookup_insert_ne by lia.
      unfold holding in Ho. rewrite Ep, Hc.
      destruct (requests s !! S k) as [x|] eqn:X.
      * rewrite (Ha (S k) x X) by lia.
        destruct (at_stage r); try contradiction; reflexivity.
      * destruct (at_stage r); try contradiction; reflexivity.
    + constructor; [|exact Nd]. intros I. apply Hs in I. lia.
Qed.

Lemma reachable_counted s :
  reachable s -> exists k, chain k s /\ counted k s /\ List.NoDup (settled s).
Proof.
  induction 1 as [| c s _ (k & C & Hc & Nd) | i s s' _ (k & C & Hc & Nd) H].
  - exists 0. split; [apply chain_initial|]. split; [apply counted_initial|].
    repeat constructor. intros [].
  - exists k. split; [now apply chain_call|]. split; [now apply counted_call|].
    exact Nd.
  - eapply advance_chain; eassumption.
Qed.


Lemma first_threw_reachable : reachable first_threw.
Proof.
  apply (run_reachable [0; 0] three_callers).
  - do 3 apply reach_call. apply reach_initial.
  - reflexivity.
Qed.


(** X19. In every state the backend can reach no promise of the lock
    is resolved twice, and the release of a request has been called
    exactly when the request is finished: not while it waits or holds
    the lock, and always once it returned or threw. *)
Theorem released_once_when_finished (s : state) :
  reachable s ->
  List.NoDup (settled s)
  /\ forall i r, requests s !! i = Some r ->
                 (In (next r) (settled s) <-> finished r).
Proof.
  intros R. destruct (reachable_counted s R) as (k & C & _ & Nd).
  split; [exact Nd|]. intros i r Hi.
  pose proof C as (Hid & _ & _ & Hs & _ & Hb & Ha & Hh).
  destruct (Hid i r Hi) as [_ Hn]. rewrite Hn, Hs. split.
  - intros L. apply (Hb i r Hi). lia.
  - intros F. destruct (lt_eq_lt_dec i k) as [[L | E] | G]; [lia | |].
    + subst i. rewrite Hi in Hh. unfold finished, holding in *.
      destruct Hh as [[St _] | [Ho _]]; destruct (at_stage r);
        try contradiction; discriminate.
    + specialize (Ha i r Hi G). unfold finished in F. rewrite Ha in F.
      contradiction.
Qed.

Lemma released_once_when_finished_witness :
  reachable first_threw
  /\ List.NoDup (settled first_threw)
  /\ forall i r, requests first_threw !! i = Some r ->
                 (In (next r) (settled first_threw) <-> finished r).
Proof.
  split; [exact first_threw_reachable|].
  exact (released_once_when_finished first_threw first_threw_reachable).
Defined.

End PaneNumbers.
